(** * tex3-mouselook: the LE fixup codec, the LE locator, the data-page
      search and the patch engine, embedded from [tex3patch/le.py] and
      [tex3patch/patch.py].

    Python integers are [Z]; [bytes] and [bytearray] values are lists of
    [Byte.byte]; a Python exception is the [Raise] branch of [result]. *)

From Stdlib Require Import ZArith Lia Bool Sorted.
From Stdlib Require Import Strings.Byte Strings.String Strings.Ascii.
From stdpp Require Import base list gmap strings.

Local Open Scope Z_scope.

Abbreviation byte := Byte.byte.

(** ** Python primitives *)

Module Py.

(** The exceptions the modelled code can raise. *)
Inductive exn : Type :=
| RuntimeError
| DataNotFound
| IndexError
| ValueError
| TypeError
| StructError
| ZeroDivisionError
| UnicodeDecodeError
| FieldValidationError
| OutOfFuel.

Inductive result (A : Type) : Type :=
| Ok (a : A)
| Raise (e : exn).
Arguments Ok {A} a.
Arguments Raise {A} e.

Definition bind {A B} (m : result A) (k : A -> result B) : result B :=
  match m with
  | Ok a => k a
  | Raise e => Raise e
  end.

Definition is_ok {A} (m : result A) : bool :=
  match m with Ok _ => true | Raise _ => false end.

(** [len(l)] *)
Definition len {A} (l : list A) : Z := Z.of_nat (length l).

(** A slice bound, as Python normalises it against a length [n]. *)
Definition clamp (n i : Z) : Z :=
  if i <? 0 then Z.max 0 (i + n) else Z.min i n.

(** [l[a:b]] *)
Definition slice {A} (l : list A) (a b : Z) : list A :=
  let lo := clamp (len l) a in
  let hi := clamp (len l) b in
  take (Z.to_nat (hi - lo)) (drop (Z.to_nat lo) l).

(** [l[a:]] *)
Definition slice_from {A} (l : list A) (a : Z) : list A :=
  drop (Z.to_nat (clamp (len l) a)) l.

(** [l[:b]] *)
Definition slice_to {A} (l : list A) (b : Z) : list A :=
  take (Z.to_nat (clamp (len l) b)) l.

(** The position [l[i]] denotes: negative indices count from the end. *)
Definition index_of {A} (l : list A) (i : Z) : result nat :=
  let j := if i <? 0 then i + len l else i in
  if (0 <=? j) && (j <? len l) then Ok (Z.to_nat j) else Raise IndexError.

(** [l[i]] *)
Definition getitem {A} (l : list A) (i : Z) : result A :=
  bind (index_of l i) (fun j =>
    match l !! j with
    | Some x => Ok x
    | None => Raise IndexError
    end).

(** [l[a:b] = v] on a [bytearray] or a list: the slice is cut out and [v]
    takes its place, whatever its length. *)
Definition setslice {A} (l : list A) (a b : Z) (v : list A) : list A :=
  let lo := clamp (len l) a in
  let hi := Z.max lo (clamp (len l) b) in
  take (Z.to_nat lo) l ++ v ++ drop (Z.to_nat hi) l.

(** [l.pop(j)], keeping the list only. *)
Definition pop {A} (l : list A) (j : Z) : result (list A) :=
  bind (index_of l j) (fun k => Ok (delete k l)).

(** The value of a byte as an [int]. *)
Definition Z_of_byte (b : byte) : Z := Z.of_N (Byte.to_N b).

(** The byte of an [int] in [range(256)]; out of range the low eight bits. *)
Definition byte_of_Z (z : Z) : byte :=
  match Byte.of_N (Z.to_N (z mod 256)) with
  | Some b => b
  | None => x00
  end.

(** [bytearray.append(v)]: [ValueError] unless [v] is in [range(256)]. *)
Definition append_byte (buffer : list byte) (v : Z) : result (list byte) :=
  if (0 <=? v) && (v <? 256) then Ok (buffer ++ [byte_of_Z v])
  else Raise ValueError.

End Py.
Export Py.

#[export] Instance byte_eq_dec : EqDecision byte := Byte.byte_eq_dec.
#[export] Instance result_bind : MBind result := fun A B k m => bind m k.
#[export] Instance result_ret : MRet result := fun A a => Ok a.

(** ** re, as mrcrowbar.utils.grep uses it

    [utils.grep(pattern, source)] compiles the pattern for bytes with DOTALL
    and returns the list of the matches [finditer] yields. The patterns of
    [patch.py] are sequences of bytes, [.], classes, [+] and [{n}] on one of
    these, capturing groups and [(?:a|b)] around them; a pattern is written
    here in its parsed form, the empty list being the empty string. *)

Module re.

Inductive charset : Type :=
| Lit (c : byte)
| Dot
| Class (ranges : list (byte * byte)).

Definition in_charset (c : charset) (x : byte) : bool :=
  match c with
  | Lit c => bool_decide (x = c)
  | Dot => true
  | Class ranges =>
      existsb (fun r => (Z_of_byte (fst r) <=? Z_of_byte x)
                        && (Z_of_byte x <=? Z_of_byte (snd r))) ranges
  end.

Inductive atom : Type :=
| Char (c : charset)
| Plus (c : charset)
| Repeat (n : nat) (c : charset).

Inductive node : Type :=
| Atom (a : atom)
| Group (i : nat) (body : list atom)
| Alt (alts : list (list atom)).

Definition pattern : Type := list node.

(** A literal run of characters. *)
Definition lit (s : string) : pattern :=
  map (fun c => Atom (Char (Lit c))) (list_byte_of_string s).

Record Match : Type := mkMatch {
  subject : list byte;
  span : Z * Z;
  groups : gmap nat (Z * Z)
}.

Definition start (m : Match) : Z := fst (span m).
Definition end_ (m : Match) : Z := snd (span m).

(** [m.group(i)] for a group of the pattern; the source never asks for a
    group that took no part in the match. *)
Definition group (m : Match) (i : nat) : result (list byte) :=
  match groups m !! i with
  | Some (a, e) => Ok (slice (subject m) a e)
  | None => Raise TypeError
  end.

Section Matcher.
Context {R : Type}.

(** [c+], greedy: the longest run first, then one character less at a
    time. [s] is the subject from [pos] on. *)
Fixpoint match_plus (c : charset) (s : list byte) (pos : Z)
    (k : list byte -> Z -> option R) : option R :=
  match s with
  | x :: s' =>
      if in_charset c x then
        match match_plus c s' (pos + 1) k with
        | Some r => Some r
        | None => k s' (pos + 1)
        end
      else None
  | [] => None
  end.

Fixpoint match_repeat (n : nat) (c : charset) (s : list byte) (pos : Z)
    (k : list byte -> Z -> option R) : option R :=
  match n with
  | O => k s pos
  | S n =>
      match s with
      | x :: s' =>
          if in_charset c x then match_repeat n c s' (pos + 1) k else None
      | [] => None
      end
  end.

Definition match_atom (a : atom) (s : list byte) (pos : Z)
    (k : list byte -> Z -> option R) : option R :=
  match a with
  | Char c =>
      match s with
      | x :: s' => if in_charset c x then k s' (pos + 1) else None
      | [] => None
      end
  | Plus c => match_plus c s pos k
  | Repeat n c => match_repeat n c s pos k
  end.

Fixpoint match_atoms (l : list atom) (s : list byte) (pos : Z)
    (k : list byte -> Z -> option R) : option R :=
  match l with
  | [] => k s pos
  | a :: l => match_atom a s pos (fun s' pos' => match_atoms l s' pos' k)
  end.

(** [(?:a|b|...)]: the first alternative that lets the rest match. *)
Fixpoint match_alts (alts : list (list atom)) (s : list byte) (pos : Z)
    (k : list byte -> Z -> option R) : option R :=
  match alts with
  | [] => None
  | a :: alts =>
      match match_atoms a s pos k with
      | Some r => Some r
      | None => match_alts alts s pos k
      end
  end.

Definition match_node (n : node) (s : list byte) (pos : Z)
    (caps : gmap nat (Z * Z))
    (k : list byte -> Z -> gmap nat (Z * Z) -> option R) : option R :=
  match n with
  | Atom a => match_atom a s pos (fun s' pos' => k s' pos' caps)
  | Group i body =>
      match_atoms body s pos
        (fun s' pos' => k s' pos' (<[i := (pos, pos')]> caps))
  | Alt alts => match_alts alts s pos (fun s' pos' => k s' pos' caps)
  end.

Fixpoint match_nodes (p : pattern) (s : list byte) (pos : Z)
    (caps : gmap nat (Z * Z))
    (k : list byte -> Z -> gmap nat (Z * Z) -> option R) : option R :=
  match p with
  | [] => k s pos caps
  | n :: p =>
      match_node n s pos caps
        (fun s' pos' caps' => match_nodes p s' pos' caps' k)
  end.
End Matcher.

(** The match of [p] that starts at [pos], where [s] is [source[pos:]];
    with [must_advance] an empty match does not count. *)
Definition match_here (p : pattern) (source s : list byte) (pos : Z)
    (must_advance : bool) : option Match :=
  match_nodes p s pos ∅
    (fun _ pos' caps =>
       if must_advance && (pos' =? pos) then None
       else Some (mkMatch source (pos, pos') caps)).

(** The matches that start at [pos]: the leftmost one and, when that one is
    empty, the non-empty one the next search finds at the same place. *)
Definition matches_here (p : pattern) (source s : list byte) (pos : Z)
  : list Match :=
  match match_here p source s pos false with
  | None => []
  | Some m =>
      if end_ m =? pos then
        match match_here p source s pos true with
        | Some m' => [m; m']
        | None => [m]
        end
      else [m]
  end.

(** [finditer]: [s] is [source[pos:]], and the search resumes at [resume],
    the end of the last match. *)
Fixpoint scan (p : pattern) (source s : list byte) (pos resume : Z)
  : list Match :=
  let here := if pos <? resume then [] else matches_here p source s pos in
  let resume :=
    match last here with
    | Some m => end_ m
    | None => resume
    end in
  here ++
  match s with
  | [] => []
  | _ :: s' => scan p source s' (pos + 1) resume
  end.

Definition finditer (p : pattern) (source : list byte) : list Match :=
  scan p source source 0 0.

End re.

(** ** mrcrowbar.utils

    The integer helpers unpack a buffer of exactly the width of the integer
    and pack an integer that fits the width; anything else raises. *)

Module utils.

Definition from_uint16_le (b : list byte) : result Z :=
  match b with
  | [b0; b1] => Ok (Z_of_byte b0 + 256 * Z_of_byte b1)
  | _ => Raise StructError
  end.

Definition from_uint32_le (b : list byte) : result Z :=
  match b with
  | [b0; b1; b2; b3] =>
      Ok (Z_of_byte b0 + 256 * Z_of_byte b1
          + 65536 * Z_of_byte b2 + 16777216 * Z_of_byte b3)
  | _ => Raise StructError
  end.

Definition to_uint16_le (v : option Z) : result (list byte) :=
  match v with
  | None => Raise StructError
  | Some v =>
      if (0 <=? v) && (v <? 65536)
      then Ok [byte_of_Z v; byte_of_Z (v / 256)]
      else Raise StructError
  end.

Definition to_uint32_le (v : option Z) : result (list byte) :=
  match v with
  | None => Raise StructError
  | Some v =>
      if (0 <=? v) && (v <? 4294967296)
      then Ok [byte_of_Z v; byte_of_Z (v / 256);
               byte_of_Z (v / 65536); byte_of_Z (v / 16777216)]
      else Raise StructError
  end.

Definition grep (p : re.pattern) (source : list byte) : list re.Match :=
  re.finditer p source.

End utils.

(** ** mrcrowbar.models: blocks of fixed-width fields

    A [Block] class lists its fields in order; an instance holds one
    attribute per field. Importing reads the fields one after the other and
    exporting writes them back. A [Const] field has no attribute: on import
    bytes other than the constant are only logged and the import goes on;
    on export the constant is written. *)

Module mrc.

Inductive field : Type :=
| Const (value : list byte)
| UInt8
| UInt16_LE
| UInt32_LE.

Definition size (fd : field) : Z :=
  match fd with
  | Const value => len value
  | UInt8 => 1
  | UInt16_LE => 2
  | UInt32_LE => 4
  end.

Definition from_bytes (fd : field) (bs : list byte) : result (option Z) :=
  match fd with
  | Const value => Ok None
  | UInt8 =>
      match bs with
      | [x] => Ok (Some (Z_of_byte x))
      | _ => Raise StructError
      end
  | UInt16_LE => v ← utils.from_uint16_le bs; Ok (Some v)
  | UInt32_LE => v ← utils.from_uint32_le bs; Ok (Some v)
  end.

Definition to_bytes (fd : field) (v : option Z) : result (list byte) :=
  match fd with
  | Const value => Ok value
  | UInt8 =>
      match v with
      | Some v => append_byte [] v
      | None => Raise TypeError
      end
  | UInt16_LE => utils.to_uint16_le v
  | UInt32_LE => utils.to_uint32_le v
  end.

Definition Block : Type := list (string * field).

Fixpoint get_size (cls : Block) : Z :=
  match cls with
  | [] => 0
  | (_, fd) :: rest => size fd + get_size rest
  end.

Fixpoint import_data (cls : Block) (buffer : list byte)
  : result (gmap string Z) :=
  match cls with
  | [] => Ok ∅
  | (name, fd) :: rest =>
      v ← from_bytes fd (slice buffer 0 (size fd));
      attrs ← import_data rest (slice_from buffer (size fd));
      Ok (match v with
          | Some v => <[name := v]> attrs
          | None => attrs
          end)
  end.

Fixpoint export_data (cls : Block) (attrs : gmap string Z)
  : result (list byte) :=
  match cls with
  | [] => Ok []
  | (name, fd) :: rest =>
      bs ← to_bytes fd (attrs !! name);
      tl ← export_data rest attrs;
      Ok (bs ++ tl)
  end.

(** A [UInt32_LE(stream=True)] field: dwords until the buffer ends. *)
Fixpoint import_uint32_stream (fuel : nat) (buffer : list byte)
  : result (list Z) :=
  match buffer with
  | [] => Ok []
  | _ =>
      match fuel with
      | O => Raise OutOfFuel
      | S fuel =>
          v ← utils.from_uint32_le (slice buffer 0 4);
          vs ← import_uint32_stream fuel (slice_from buffer 4);
          Ok (v :: vs)
      end
  end.

Fixpoint export_uint32_stream (vs : list Z) : result (list byte) :=
  match vs with
  | [] => Ok []
  | v :: vs =>
      bs ← utils.to_uint32_le (Some v);
      tl ← export_uint32_stream vs;
      Ok (bs ++ tl)
  end.

(** An element of a [BlockField]: a block of the class, or the [Unknown]
    block that stands for bytes the class could not read. *)
Inductive element : Type :=
| Parsed (attrs : gmap string Z)
| Unknown (data : list byte).

(** A [BlockField(cls, stream=True)] field: blocks until the buffer ends.
    Where the class cannot read what is left, as with a last entry cut
    short, an [Unknown] block takes the rest and nothing is raised. *)
Fixpoint import_block_stream (fuel : nat) (cls : Block) (buffer : list byte)
  : result (list element) :=
  match buffer with
  | [] => Ok []
  | _ =>
      match fuel with
      | O => Raise OutOfFuel
      | S fuel =>
          match import_data cls buffer with
          | Ok v =>
              vs ← import_block_stream fuel cls
                     (slice_from buffer (get_size cls));
              Ok (Parsed v :: vs)
          | Raise _ => Ok [Unknown buffer]
          end
      end
  end.

End mrc.

(** ** le.py *)

Module le.

Local Open Scope string_scope.
Local Open Scope list_scope.
Local Open Scope Z_scope.

Definition LEHeader : mrc.Block :=
  [("magic", mrc.Const [x4c; x45]);
   ("b_ord", mrc.UInt8);
   ("w_ord", mrc.UInt8);
   ("format_level", mrc.UInt32_LE);
   ("cpu_type", mrc.UInt16_LE);
   ("os_type", mrc.UInt16_LE);
   ("module_version", mrc.UInt32_LE);
   ("module_flags", mrc.UInt32_LE);
   ("module_num_pages", mrc.UInt32_LE);
   ("eip_obj_num", mrc.UInt32_LE);
   ("eip", mrc.UInt32_LE);
   ("esp_obj_num", mrc.UInt32_LE);
   ("esp", mrc.UInt32_LE);
   ("page_size", mrc.UInt32_LE);
   ("page_offset_shift", mrc.UInt32_LE);
   ("fixup_section_size", mrc.UInt32_LE);
   ("fixup_section_csum", mrc.UInt32_LE);
   ("loader_section_size", mrc.UInt32_LE);
   ("loader_section_csum", mrc.UInt32_LE);
   ("obj_table_offset", mrc.UInt32_LE);
   ("obj_count", mrc.UInt32_LE);
   ("obj_page_table_offset", mrc.UInt32_LE);
   ("obj_iter_pages_offset", mrc.UInt32_LE);
   ("res_table_offset", mrc.UInt32_LE);
   ("res_count", mrc.UInt32_LE);
   ("resident_name_table_offset", mrc.UInt32_LE);
   ("entry_table_offset", mrc.UInt32_LE);
   ("module_directives_offset", mrc.UInt32_LE);
   ("module_directives_count", mrc.UInt32_LE);
   ("fixup_page_table_offset", mrc.UInt32_LE);
   ("fixup_record_table_offset", mrc.UInt32_LE);
   ("import_module_table_offset", mrc.UInt32_LE);
   ("import_module_count", mrc.UInt32_LE);
   ("import_proc_table_offset", mrc.UInt32_LE);
   ("per_page_csum_offset", mrc.UInt32_LE);
   ("data_pages_offset", mrc.UInt32_LE);
   ("preload_pages_count", mrc.UInt32_LE);
   ("nonres_name_table_offset", mrc.UInt32_LE);
   ("nonres_name_table_length", mrc.UInt32_LE);
   ("nonres_name_table_csum", mrc.UInt32_LE);
   ("auto_ds_object_count", mrc.UInt32_LE);
   ("debug_info_offset", mrc.UInt32_LE);
   ("debug_info_length", mrc.UInt32_LE);
   ("instance_preload_count", mrc.UInt32_LE);
   ("instance_demand_count", mrc.UInt32_LE);
   ("heap_size", mrc.UInt32_LE);
   ("stack_size", mrc.UInt32_LE)].

(** [class FixupPageTable]: [offsets = mrc.UInt32_LE(stream=True)] *)
Definition FixupPageTable (buffer : list byte) : result (list Z) :=
  mrc.import_uint32_stream (length buffer) buffer.

Definition ObjectTableEntry : mrc.Block :=
  [("virtual_size", mrc.UInt32_LE);
   ("reloc_base_addr", mrc.UInt32_LE);
   ("object_flags", mrc.UInt16_LE);
   ("unused1", mrc.UInt16_LE);
   ("page_table_index", mrc.UInt32_LE);
   ("page_table_entries", mrc.UInt32_LE);
   ("unused2", mrc.UInt32_LE)].

Definition ObjectTable (buffer : list byte) : result (list mrc.element) :=
  mrc.import_block_stream (length buffer) ObjectTableEntry buffer.

Definition ObjectPageTableEntry : mrc.Block :=
  [("unk", mrc.UInt16_LE); ("value", mrc.UInt16_LE)].

Definition ObjectPageTable (buffer : list byte)
  : result (list mrc.element) :=
  mrc.import_block_stream (length buffer) ObjectPageTableEntry buffer.

(** [class FixupTuple(NamedTuple)] *)
Record FixupTuple : Type := mkFixupTuple {
  id : string;
  src : Z;
  flags : Z;
  objnum : Z;
  srcoff : Z;
  data : option Z
}.

Definition id_in (s : string) (l : list string) : bool :=
  bool_decide (s ∈ l).

(** One turn of the [for] loop of [fixups_encode]. *)
Definition encode_one (buffer : list byte) (f : FixupTuple)
  : result (list byte) :=
  buffer ← append_byte buffer (src f);
  buffer ← append_byte buffer (flags f);
  so ← utils.to_uint16_le (Some (srcoff f));
  let buffer := buffer ++ so in
  buffer ← append_byte buffer (objnum f + 1);
  if id_in (id f) ["fix_32off_16"; "fix_16off_16"; "fix_1632ptr_16"] then
    d ← utils.to_uint16_le (data f); Ok (buffer ++ d)
  else if id_in (id f) ["fix_32off_32"; "fix_16off_32"; "fix_1632ptr_32"] then
    d ← utils.to_uint32_le (data f); Ok (buffer ++ d)
  else if String.eqb (id f) "fix_16sel" then Ok buffer
  else Raise RuntimeError.

Fixpoint encode_loop (buffer : list byte) (fixups : list FixupTuple)
  : result (list byte) :=
  match fixups with
  | [] => Ok buffer
  | f :: rest => buffer ← encode_one buffer f; encode_loop buffer rest
  end.

Definition fixups_encode (fixups : list FixupTuple) : result (list byte) :=
  encode_loop [] fixups.

(** One turn of the [while] loop of [fixups_decode]: the record at
    [fix_ptr] and the position after it. *)
Definition decode_one (buffer : list byte) (fix_ptr : Z)
  : result (FixupTuple * Z) :=
  src ← getitem buffer fix_ptr;
  let src := Z_of_byte src in
  flags ← getitem buffer (fix_ptr + 1);
  let flags := Z_of_byte flags in
  srcoff ← utils.from_uint16_le (slice buffer (fix_ptr + 2) (fix_ptr + 4));
  objnum ← getitem buffer (fix_ptr + 4);
  let objnum := Z_of_byte objnum - 1 in
  let fix_ptr := fix_ptr + 5 in
  if src =? 7 then
    if negb (Z.land flags 16 =? 0) then
      fix_data ← utils.from_uint32_le (slice buffer fix_ptr (fix_ptr + 4));
      Ok (mkFixupTuple "fix_32off_32" src flags objnum srcoff (Some fix_data),
          fix_ptr + 4)
    else
      fix_data ← utils.from_uint16_le (slice buffer fix_ptr (fix_ptr + 2));
      Ok (mkFixupTuple "fix_32off_16" src flags objnum srcoff (Some fix_data),
          fix_ptr + 2)
  else if src =? 5 then
    if negb (Z.land flags 16 =? 0) then
      fix_data ← utils.from_uint32_le (slice buffer fix_ptr (fix_ptr + 4));
      Ok (mkFixupTuple "fix_16off_32" src flags objnum srcoff (Some fix_data),
          fix_ptr + 4)
    else
      fix_data ← utils.from_uint16_le (slice buffer fix_ptr (fix_ptr + 2));
      Ok (mkFixupTuple "fix_16off_16" src flags objnum srcoff (Some fix_data),
          fix_ptr + 2)
  else if src =? 6 then
    if negb (Z.land flags 16 =? 0) then
      fix_data ← utils.from_uint32_le (slice buffer fix_ptr (fix_ptr + 4));
      Ok (mkFixupTuple "fix_1632ptr_32" src flags objnum srcoff (Some fix_data),
          fix_ptr + 4)
    else
      fix_data ← utils.from_uint16_le (slice buffer fix_ptr (fix_ptr + 2));
      Ok (mkFixupTuple "fix_1632ptr_16" src flags objnum srcoff (Some fix_data),
          fix_ptr + 2)
  else if src =? 2 then
    Ok (mkFixupTuple "fix_16sel" src flags objnum srcoff None, fix_ptr)
  else Raise RuntimeError.

(** The [while fix_ptr < len(buffer)] loop; every turn moves [fix_ptr]
    forward, so [length buffer] turns are enough. *)
Fixpoint decode_loop (fuel : nat) (buffer : list byte) (fix_ptr : Z)
    (items : list FixupTuple) : result (list FixupTuple) :=
  if fix_ptr <? len buffer then
    match fuel with
    | O => Raise OutOfFuel
    | S fuel =>
        '(item, fix_ptr) ← decode_one buffer fix_ptr;
        decode_loop fuel buffer fix_ptr (items ++ [item])
    end
  else Ok items.

Definition fixups_decode (buffer : list byte) : result (list FixupTuple) :=
  decode_loop (length buffer) buffer 0 [].

(** [b"..."]: the bytes of an ASCII literal. *)
Definition b (s : string) : list byte := list_byte_of_string s.

(** One turn of the [while] loop of [search_for_le]: the pair to return,
    or the next value of [ptr]. *)
Definition search_step (exe : list byte) (ptr : Z) : result ((Z * Z) + Z) :=
  let header := slice exe ptr (ptr + 64) in
  if bool_decide (slice header 0 2 ∈ [b "MZ"; b "BW"]) then
    relocation_table_offset ← utils.from_uint16_le (slice header 24 26);
    found ←
      (if relocation_table_offset =? 64 then
         code32_start ← utils.from_uint16_le (slice header 60 62);
         if negb (code32_start =? 0) then Ok (Some (ptr, ptr + code32_start))
         else Ok None
       else Ok None);
    match found with
    | Some r => Ok (inl r)
    | None =>
        page_count ← utils.from_uint16_le (slice header 4 6);
        last_page_bytes ← utils.from_uint16_le (slice header 2 4);
        let total_size := Z.shiftl page_count 9 + last_page_bytes in
        let total_size :=
          if bool_decide (slice header 0 2 = b "MZ") then total_size - 512
          else total_size in
        Ok (inr (ptr + total_size))
    end
  else Raise RuntimeError.

Fixpoint search_loop (fuel : nat) (exe : list byte) (ptr : Z)
  : result (Z * Z) :=
  if ptr <? len exe then
    match fuel with
    | O => Raise OutOfFuel
    | S fuel =>
        r ← search_step exe ptr;
        match r with
        | inl found => Ok found
        | inr ptr => search_loop fuel exe ptr
        end
    end
  else Raise RuntimeError.

(** A header can send [ptr] backwards or leave it in place, and then the
    source loops for ever. A run that ends visits no value of [ptr] twice,
    and [ptr] stays above [-len(exe) - 512], so this many turns cover every
    run that ends; [OutOfFuel] stands for the others. *)
Definition search_for_le (exe : list byte) : result (Z * Z) :=
  search_loop (2 * length exe + 513) exe 0.

End le.

(** ** patch.py: detection *)

Module patch.

Local Open Scope string_scope.
Local Open Scope list_scope.
Local Open Scope Z_scope.

Import re.

(** [label_id], the counter of the module, is the state: [create_label()]
    returns its value and leaves one more. *)
Definition create_label (label_id : Z) : Z * Z := (label_id, label_id + 1).

(** [n] calls of [create_label()] one after the other, as the mouselook
    block makes them: the ids returned and the counter left. *)
Fixpoint create_labels (n : nat) (label_id : Z) : list Z * Z :=
  match n with
  | O => ([], label_id)
  | S n =>
      let '(idd, label_id) := create_label label_id in
      let '(rest, label_id) := create_labels n label_id in
      (idd :: rest, label_id)
  end.

(** [bytes.decode("ascii")] *)
Definition decode_ascii (bs : list byte) : result string :=
  if forallb (fun x => Z_of_byte x <? 128) bs
  then Ok (string_of_list_byte bs)
  else Raise UnicodeDecodeError.

Definition crlf_or_lfcr : node := Alt [[Char (Lit x0a); Char (Lit x0d)];
                                     [Char (Lit x0d); Char (Lit x0a)]].

(** [\xda\xc4+\xbf(?:\x0a\x0d|\x0d\x0a)\xb3\x20+([A-Za-z ]+)\x20+\xb3
     (?:\x0a\x0d|\x0d\x0a)\xb3\x20+Version ([0-9\.]+)\x20+\xb3] *)
Definition VERSION_PATTERN : pattern :=
  [Atom (Char (Lit xda)); Atom (Plus (Lit xc4)); Atom (Char (Lit xbf));
   crlf_or_lfcr;
   Atom (Char (Lit xb3)); Atom (Plus (Lit x20));
   Group 1 [Plus (Class [("A"%byte, "Z"%byte); ("a"%byte, "z"%byte);
                         (" "%byte, " "%byte)])];
   Atom (Plus (Lit x20)); Atom (Char (Lit xb3));
   crlf_or_lfcr;
   Atom (Char (Lit xb3)); Atom (Plus (Lit x20))]
  ++ lit "Version "
  ++ [Group 2 [Plus (Class [("0"%byte, "9"%byte); ("."%byte, "."%byte)])];
      Atom (Plus (Lit x20)); Atom (Char (Lit xb3))].

(** [\x00([A-Za-z]+)\x00Retrieving DIGI settings] *)
Definition LANGUAGE_PATTERN : pattern :=
  [Atom (Char (Lit x00));
   Group 1 [Plus (Class [("A"%byte, "Z"%byte); ("a"%byte, "z"%byte)])];
   Atom (Char (Lit x00))]
  ++ lit "Retrieving DIGI settings".

Definition detect_version (page_data : list byte)
  : result (string * string * string) :=
  let result := utils.grep VERSION_PATTERN page_data in
  match result with
  | [] => Raise DataNotFound
  | m :: _ =>
      g ← group m 1;
      game ← decode_ascii g;
      g ← group m 2;
      version ← decode_ascii g;
      let result := utils.grep LANGUAGE_PATTERN page_data in
      language ←
        match result with
        | [] => Ok "UNKNOWN"
        | m :: _ => g ← group m 1; decode_ascii g
        end;
      if negb (bool_decide
                 (game ∈ ["Under a Killing Moon"; "The Pandora Directive"]))
      then Raise DataNotFound
      else Ok (game, version, language)
  end.

Definition find_offset (page_data : list byte) (pattern : pattern)
    (offset : Z) (description : string) : result Z :=
  match pattern with
  | [] => Raise DataNotFound
  | _ =>
      let matches := utils.grep pattern page_data in
      match matches with
      | [] => Raise DataNotFound
      | m :: rest =>
          if 1 <? len matches then Raise DataNotFound
          else Ok (start m + offset)
      end
  end.

Definition find_variable (page_data : list byte) (pattern : pattern)
    (description : string) : result Z :=
  match pattern with
  | [] => Raise DataNotFound
  | _ =>
      let matches := utils.grep pattern page_data in
      match matches with
      | [] => Raise DataNotFound
      | m :: rest =>
          if 1 <? len matches then Raise DataNotFound
          else g ← group m 1; utils.from_uint32_le g
      end
  end.

(** *** iced_x86, as [patch] meets it *)

(** [iced_x86.Code]: the forms [patch.py] names; [INVALID] and the
    several thousand others are [OtherCode]. *)
Inductive Code : Type :=
| ADD_EAX_IMM32 | ADD_R32_RM32 | ADD_RM32_R32 | AND_R8_RM8 | AND_RM8_IMM8
| CDQ | CMP_AL_IMM8 | CMP_R32_RM32 | CMP_RM8_IMM8 | INT_IMM8
| JE_REL8_32 | JGE_REL8_32 | JG_REL8_32 | JLE_REL8_32 | JL_REL8_32
| JMP_REL32_32 | JMP_REL8_32 | JMP_RM32 | JNE_REL8_32
| MOV_AL_MOFFS8 | MOV_EAX_MOFFS32 | MOV_MOFFS32_EAX | MOV_R16_IMM16
| MOV_R32_IMM32 | MOV_R32_RM32 | MOV_R8_RM8 | MOV_RM16_IMM16
| MOV_RM32_IMM32 | MOV_RM32_R32 | NEG_RM32 | NOPD | POP_R32 | PUSH_R32
| RETND | SHL_RM32_1 | SHL_RM32_IMM8 | SUB_EAX_IMM32 | SUB_R32_RM32
| SUB_RM32_R32 | TEST_RM8_IMM8 | XOR_RM32_R32
| OtherCode (n : Z).

(** What [patch] reads of a decoded [Instruction]. *)
Record Instruction : Type := mkInstruction {
  ip : Z;
  code : Code;
  memory_displacement : Z
}.

Definition CODE_OBJ : Z := 0.
Definition DATA_OBJ : Z := 2.

(** *** The patch loop *)

(** [x in range(lo, hi)] *)
Definition in_range (x : Z) (r : Z * Z) : bool :=
  (fst r <=? x) && (x <? snd r).

(** The indices [j] the inner loop collects in [to_remove]; [j] is the
    index of the head of [records]. *)
Fixpoint to_remove (page_offset : Z) (PATCH_RANGE : Z * Z) (j : Z)
    (records : list le.FixupTuple) : list Z :=
  match records with
  | [] => []
  | record :: rest =>
      let src_addr := le.srcoff record + page_offset in
      (if in_range src_addr PATCH_RANGE then [j] else [])
      ++ to_remove page_offset PATCH_RANGE (j + 1) rest
  end.

(** [for j in to_remove: fixup_records[i].pop(j)] *)
Fixpoint pop_all (records : list le.FixupTuple) (js : list Z)
  : result (list le.FixupTuple) :=
  match js with
  | [] => Ok records
  | j :: js => records ← pop records j; pop_all records js
  end.

(** The body of [for i in range(len(fixup_records))], on page [i]. *)
Definition remove_page (page_size : Z) (PATCH_RANGE : Z * Z) (i : Z)
    (records : list le.FixupTuple) : result (list le.FixupTuple) :=
  let page_offset := i * page_size in
  if (page_offset >=? snd PATCH_RANGE)
     || (page_offset + page_size <? fst PATCH_RANGE)
  then Ok records
  else pop_all records (reverse (to_remove page_offset PATCH_RANGE 0 records)).

Fixpoint remove_loop (page_size : Z) (PATCH_RANGE : Z * Z) (i : Z)
    (pages : list (list le.FixupTuple)) : result (list (list le.FixupTuple)) :=
  match pages with
  | [] => Ok []
  | records :: rest =>
      records ← remove_page page_size PATCH_RANGE i records;
      rest ← remove_loop page_size PATCH_RANGE (i + 1) rest;
      Ok (records :: rest)
  end.

Definition remove_fixups (page_size : Z) (PATCH_RANGE : Z * Z)
    (fixup_records : list (list le.FixupTuple))
  : result (list (list le.FixupTuple)) :=
  remove_loop page_size PATCH_RANGE 0 fixup_records.

(** [FixupTuple("fix_32off_32", 0x7, 0x10, objnum, srcoff + delta,
     utils.from_uint32_le(mod_code[instr.ip + delta : instr.ip + delta + 4]))]
    followed by [fixup_records[page].append(fixup)]. *)
Definition append_fixup (fixup_records : list (list le.FixupTuple))
    (mod_code : list byte) (instr : Instruction) (page srcoff : Z)
    (objnum delta : Z) : result (list (list le.FixupTuple)) :=
  d ← utils.from_uint32_le
        (slice mod_code (ip instr + delta) (ip instr + delta + 4));
  let fixup := le.mkFixupTuple "fix_32off_32" 7 16 objnum (srcoff + delta)
                 (Some d) in
  i ← index_of fixup_records page;
  Ok (alter (fun records => records ++ [fixup]) i fixup_records).

(** The body of [for instr in decoder]. *)
Definition add_fixup (page_size mod_offset : Z) (mod_code : list byte)
    (fixup_records : list (list le.FixupTuple)) (instr : Instruction)
  : result (list (list le.FixupTuple)) :=
  let offset := mod_offset + ip instr in
  let code := code instr in
  if page_size =? 0 then Raise ZeroDivisionError else
  let srcoff := offset mod page_size in
  let page := offset / page_size in
  match code with
  | ADD_RM32_R32 | MOV_RM32_IMM32 | AND_R8_RM8 | TEST_RM8_IMM8
  | CMP_R32_RM32 | CMP_RM8_IMM8 | MOV_R8_RM8 | MOV_R32_RM32
  | ADD_R32_RM32 | AND_RM8_IMM8 =>
      append_fixup fixup_records mod_code instr page srcoff DATA_OBJ 2
  | MOV_RM32_R32 | SUB_RM32_R32 =>
      if negb (memory_displacement instr =? 0) then
        append_fixup fixup_records mod_code instr page srcoff DATA_OBJ 2
      else Ok fixup_records
  | MOV_AL_MOFFS8 | MOV_MOFFS32_EAX | MOV_EAX_MOFFS32 =>
      append_fixup fixup_records mod_code instr page srcoff DATA_OBJ 1
  | MOV_RM16_IMM16 =>
      append_fixup fixup_records mod_code instr page srcoff DATA_OBJ 3
  | JMP_RM32 =>
      append_fixup fixup_records mod_code instr page srcoff CODE_OBJ 3
  | _ => Ok fixup_records
  end.

Fixpoint add_fixups (page_size mod_offset : Z) (mod_code : list byte)
    (fixup_records : list (list le.FixupTuple)) (instrs : list Instruction)
  : result (list (list le.FixupTuple)) :=
  match instrs with
  | [] => Ok fixup_records
  | instr :: instrs =>
      fixup_records ←
        add_fixup page_size mod_offset mod_code fixup_records instr;
      add_fixups page_size mod_offset mod_code fixup_records instrs
  end.

(** [page_data[mod_offset : mod_offset + len(mod)] = mod] *)
Definition splice (page_data : list byte) (mod_ : list byte) (mod_offset : Z)
  : list byte :=
  setslice page_data mod_offset (mod_offset + len mod_) mod_.

Section Engine.

(** [Decoder(bitness, data)], iterated: the instructions of [data], the
    first at [ip] 0. *)
Variable Decoder : Z -> list byte -> list Instruction.

(** The body of [for mod_code, mod_offset in CODE_PATCHES]. *)
Definition apply_code_patch (page_size : Z)
    (state : list (list le.FixupTuple) * list byte)
    (code_patch : list byte * Z)
  : result (list (list le.FixupTuple) * list byte) :=
  let '(fixup_records, page_data) := state in
  let '(mod_code, mod_offset) := code_patch in
  let PATCH_RANGE := (mod_offset, mod_offset + len mod_code) in
  fixup_records ← remove_fixups page_size PATCH_RANGE fixup_records;
  let decoder := Decoder 32 mod_code in
  fixup_records ←
    add_fixups page_size mod_offset mod_code fixup_records decoder;
  Ok (fixup_records, splice page_data mod_code mod_offset).

Fixpoint apply_code_patches (page_size : Z)
    (state : list (list le.FixupTuple) * list byte)
    (CODE_PATCHES : list (list byte * Z))
  : result (list (list le.FixupTuple) * list byte) :=
  match CODE_PATCHES with
  | [] => Ok state
  | code_patch :: rest =>
      state ← apply_code_patch page_size state code_patch;
      apply_code_patches page_size state rest
  end.

(** [for mod_data, mod_offset in DATA_PATCHES] *)
Fixpoint apply_data_patches (page_data : list byte)
    (DATA_PATCHES : list (list byte * Z)) : list byte :=
  match DATA_PATCHES with
  | [] => page_data
  | (mod_data, mod_offset) :: rest =>
      apply_data_patches (splice page_data mod_data mod_offset) rest
  end.

(** *** The writer *)

(** [offsets] as the writer rebuilds them: the running total of the
    lengths before each page, then the total. *)
Fixpoint page_offsets (acc : Z) (fixup_output : list (list byte)) : list Z :=
  match fixup_output with
  | [] => [acc]
  | x :: rest => acc :: page_offsets (acc + len x) rest
  end.

(** The header as the writer updates it. *)
Definition update_header (le_header : gmap string Z) (mz_off le_off : Z)
    (fixup_page_table_output fixup_record_table_output
       post_fixup_blob : list byte) : gmap string Z :=
  let le_header :=
    <["fixup_record_table_offset" :=
        le_header !!! "fixup_page_table_offset"
        + len fixup_page_table_output]> le_header in
  let le_header :=
    <["fixup_section_size" :=
        len fixup_page_table_output + len fixup_record_table_output]>
      le_header in
  let le_header := <["fixup_section_csum" := 0]> le_header in
  let le_header :=
    <["import_module_table_offset" :=
        le_header !!! "fixup_page_table_offset"
        + le_header !!! "fixup_section_size"]> le_header in
  let le_header :=
    <["import_proc_table_offset" :=
        le_header !!! "import_module_table_offset"]> le_header in
  <["data_pages_offset" :=
      le_off + le_header !!! "import_module_table_offset"
      + len post_fixup_blob - mz_off]> le_header.

(** The [with open(output, "wb") as out:] block; the result is what the
    file holds when the block ends. *)
Definition write_output (f : list byte) (mz_off le_off : Z)
    (le_header : gmap string Z)
    (fixup_records : list (list le.FixupTuple)) (page_data : list byte)
  : result (list byte) :=
  fixup_output ← mapM le.fixups_encode fixup_records;
  let offsets := page_offsets 0 fixup_output in
  fixup_page_table_output ← mrc.export_uint32_stream offsets;
  let fixup_record_table_output := concat fixup_output in
  let post_fixup_start := le_header !!! "import_module_table_offset" in
  let post_fixup_end :=
    mz_off + le_header !!! "data_pages_offset" - le_off in
  let post_fixup_blob :=
    slice f (le_off + post_fixup_start) (le_off + post_fixup_end) in
  let le_header :=
    update_header le_header mz_off le_off fixup_page_table_output
      fixup_record_table_output post_fixup_blob in
  header_output ← mrc.export_data le.LEHeader le_header;
  let header_size := mrc.get_size le.LEHeader in
  Ok (slice_to f le_off
      ++ header_output
      ++ slice f (le_off + header_size)
           (le_off + le_header !!! "fixup_page_table_offset")
      ++ fixup_page_table_output
      ++ fixup_record_table_output
      ++ post_fixup_blob
      ++ page_data).

(** *** [patch] *)

(** [BlockEncoder(32)] on a list of instructions, encoded at 0. *)
Variable assemble_x86 : list Instruction -> list byte.

(** The code patches the [if mouselook:] block appends, which it builds
    from [page_data], [name] and [invert_y] with [find_variable],
    [find_offset] and [assemble_x86]. *)
Variable mouselook_patches :
  list byte -> string -> bool -> result (list (list byte * Z)).

(** [Instruction.create(code)] *)
Definition Instruction_create (c : Code) : Instruction :=
  mkInstruction 0 c 0.

(** [\xf7\xd8\x83\xc0\x64\x75\x05\xb8\x04\x00\x00\x00] *)
Definition fix_speed_pattern : pattern :=
  map (fun c => Atom (Char (Lit c)))
    [xf7; xd8; x83; xc0; x64; x75; x05; xb8; x04; x00; x00; x00].

Definition credit_data : list byte :=
  le.b "(c) 1993.        " ++ [x0d]
  ++ le.b "Mouselook v1.2 (c) 2025 moralrecordings.    " ++ [x0d]
  ++ le.b "                                ".

(** The slices [f[le_off + fixup_record_table_offset:][offsets[i] :
    offsets[i + 1]]] for [i] in [range(module_num_pages)]. *)
Fixpoint record_slices (table : list byte) (offsets : list Z) (i : Z)
    (count : nat) : result (list (list byte)) :=
  match count with
  | O => Ok []
  | S count =>
      lo ← getitem offsets i;
      hi ← getitem offsets (i + 1);
      rest ← record_slices table offsets (i + 1) count;
      Ok (slice table lo hi :: rest)
  end.

(** [patch(input, output, fix_speed, mouselook, invert_y)], from the
    bytes of the input file to the bytes of the output file. *)
Definition patch (f : list byte) (fix_speed mouselook invert_y : bool)
  : result (list byte) :=
  '(mz_off, le_off) ← le.search_for_le f;
  le_header ← mrc.import_data le.LEHeader (slice_from f le_off);
  fixup_page_table ←
    le.FixupPageTable
      (slice_to (slice_from f (le_off + le_header !!! "fixup_page_table_offset"))
         (4 * (le_header !!! "module_num_pages" + 1)));
  fixup_record_table ←
    record_slices
      (slice_from f (le_off + le_header !!! "fixup_record_table_offset"))
      fixup_page_table 0 (Z.to_nat (le_header !!! "module_num_pages"));
  fixup_records ← mapM le.fixups_decode fixup_record_table;
  object_table ←
    le.ObjectTable
      (slice_to (slice_from f (le_off + le_header !!! "obj_table_offset"))
         (le_header !!! "obj_count" * 24));
  object_page_table ←
    le.ObjectPageTable
      (slice_to (slice_from f (le_off + le_header !!! "obj_page_table_offset"))
         (le_header !!! "module_num_pages" * 4));
  let page_data := slice_from f (mz_off + le_header !!! "data_pages_offset") in
  '(name, version, language) ← detect_version page_data;
  CODE_PATCHES ←
    (if fix_speed then
       fix_speed_offset ←
         find_offset page_data fix_speed_pattern 5 "speed bug code";
       let fix_speed_code :=
         assemble_x86 (replicate 7 (Instruction_create NOPD)) in
       Ok [(fix_speed_code, fix_speed_offset)]
     else Ok []);
  CODE_PATCHES ←
    (if mouselook then
       more ← mouselook_patches page_data name invert_y;
       Ok (CODE_PATCHES ++ more)
     else Ok CODE_PATCHES);
  DATA_PATCHES ←
    (if String.eqb name "Under a Killing Moon" then
       match find_offset page_data (lit "and developed by") 0
               "opening credits" with
       | Ok credit_offset => Ok [(credit_data, credit_offset)]
       | Raise DataNotFound => Ok []
       | Raise e => Raise e
       end
     else Ok []);
  '(fixup_records, page_data) ←
    apply_code_patches (le_header !!! "page_size")
      (fixup_records, page_data) CODE_PATCHES;
  let page_data := apply_data_patches page_data DATA_PATCHES in
  write_output f mz_off le_off le_header fixup_records page_data.

End Engine.

End patch.

(** The title screen of scenario S1, and the same with one space after the
    title. *)
Definition S1_buffer : list byte :=
  [xda; xc4; xc4; xc4; xbf; x0a; x0d; xb3]
  ++ le.b "   Under a Killing Moon   " ++ [xb3; x0a; x0d; xb3]
  ++ le.b "   Version 1.02   " ++ [xb3].

Definition S1_buffer_tight : list byte :=
  [xda; xc4; xc4; xc4; xbf; x0a; x0d; xb3]
  ++ le.b "   Under a Killing Moon " ++ [xb3; x0a; x0d; xb3]
  ++ le.b "   Version 1.02   " ++ [xb3].

Definition S2_buffer : list byte := [x07; x10; x34; x12; x03; xef; xbe; xad; xde].



(** * Statements of the specification *)

(** A valid concatenation of fixup records, by the dispatch rules: a source
    byte 0x7, 0x5 or 0x6 with flags, a 16-bit source offset, the object
    number and a data word of 32 bits if [flags & 0x10] and of 16 bits
    otherwise; a source byte 0x2 with the same and no data word. *)
Fixpoint valid_stream (B : list byte) : bool :=
  match B with
  | [] => true
  | src :: flags :: _ :: _ :: _ :: rest =>
      let src := Z_of_byte src in
      if src =? 2 then valid_stream rest
      else if (src =? 7) || (src =? 5) || (src =? 6) then
        if negb (Z.land (Z_of_byte flags) 16 =? 0) then
          match rest with
          | _ :: _ :: _ :: _ :: rest => valid_stream rest
          | _ => false
          end
        else
          match rest with
          | _ :: _ :: rest => valid_stream rest
          | _ => false
          end
      else false
  | _ => false
  end.

Definition S3_buffer : list byte := [x07; x00; x00; x00; x01; x42; x00].
Definition S4_buffer : list byte := [x02; x00; x00; x00; x01].

(** The record scenario S2 expects, with the data word the spec prints and
    with the data word the buffer holds. *)
Definition S2_record_spec : le.FixupTuple :=
  le.mkFixupTuple "fix_32off_32" 7 16 2 4660 (Some 3735928493).   (* 0xdeadbead *)
Definition S2_record : le.FixupTuple :=
  le.mkFixupTuple "fix_32off_32" 7 16 2 4660 (Some 3735928559).   (* 0xdeadbeef *)

(** The 16-bit field at [off] of a DOS header. *)
Definition header_word (h : list byte) (off : Z) : result Z :=
  utils.from_uint16_le (slice h off (off + 2)).

(** A synthetic image: an MZ stub of 64 bytes whose header says one page
    and 0x40 bytes in the last one, then an MZ header with relocation-table
    offset 0x40 and code32_start 0x40, then four more bytes. *)
Definition outer_stub : list byte :=
  le.b "MZ" ++ [x40; x00; x01; x00] ++ replicate 58 x00.

Definition inner_header : list byte :=
  le.b "MZ" ++ replicate 22 x00 ++ [x40; x00] ++ replicate 34 x00 ++ [x40; x00]
  ++ replicate 2 x00.

Definition nested_image : list byte :=
  outer_stub ++ inner_header ++ [x4c; x45; x00; x00].

(** [after] is [before] with exactly the bytes at [offset .. offset +
    len(payload)) replaced by [payload]. *)
Definition replaces_exactly (before after payload : list byte) (offset : Z)
  : Prop :=
  len after = len before
  /\ slice after offset (offset + len payload) = payload
  /\ forall i, 0 <= i < len before ->
       i < offset \/ offset + len payload <= i ->
       getitem after i = getitem before i.

#[export] Instance Code_eq_dec : EqDecision patch.Code.
Proof. solve_decision. Defined.

(** The table of supported opcode forms: the offset of the operand from the
    start of the instruction and the target object, if the form gets a fixup. *)
Definition operand_rule (instr : patch.Instruction) : option (Z * Z) :=
  let c := patch.code instr in
  if bool_decide
       (c ∈ [patch.ADD_RM32_R32; patch.MOV_RM32_IMM32; patch.AND_R8_RM8;
             patch.TEST_RM8_IMM8; patch.CMP_R32_RM32; patch.CMP_RM8_IMM8;
             patch.MOV_R8_RM8; patch.MOV_R32_RM32; patch.ADD_R32_RM32;
             patch.AND_RM8_IMM8])
  then Some (2, patch.DATA_OBJ)
  else if bool_decide (c ∈ [patch.MOV_RM32_R32; patch.SUB_RM32_R32])
  then (if bool_decide (patch.memory_displacement instr <> 0)
        then Some (2, patch.DATA_OBJ) else None)
  else if bool_decide
            (c ∈ [patch.MOV_AL_MOFFS8; patch.MOV_MOFFS32_EAX;
                  patch.MOV_EAX_MOFFS32])
  then Some (1, patch.DATA_OBJ)
  else if bool_decide (c = patch.MOV_RM16_IMM16) then Some (3, patch.DATA_OBJ)
  else if bool_decide (c = patch.JMP_RM32) then Some (3, patch.CODE_OBJ)
  else None.

(** The little-endian dword at [P[i .. i + 4]]. *)
Definition dword_at (P : list byte) (i : Z) : Z :=
  match utils.from_uint32_le (slice P i (i + 4)) with
  | Ok d => d
  | Raise _ => 0
  end.

(** The page and the record the spec gives a decoded instruction of a
    payload [P] applied at [O]. *)
Definition new_fixup (page_size O : Z) (P : list byte)
    (instr : patch.Instruction) : option (Z * le.FixupTuple) :=
  match operand_rule instr with
  | Some (operand_offset, objnum) =>
      let absolute_offset := O + patch.ip instr in
      Some (absolute_offset / page_size,
            le.mkFixupTuple "fix_32off_32" 7 16 objnum
              (absolute_offset mod page_size + operand_offset)
              (Some (dword_at P (patch.ip instr + operand_offset))))
  | None => None
  end.

(** What the instructions of a payload need for their fixups to go in: a
    place in the payload for the dword and a page for the record. *)
Definition fixups_fit (page_size O : Z) (P : list byte) (pages : Z)
    (instr : patch.Instruction) : Prop :=
  0 <= patch.ip instr
  /\ forall delta objnum,
       operand_rule instr = Some (delta, objnum) ->
       patch.ip instr + delta + 4 <= len P
       /\ (O + patch.ip instr) / page_size < pages.

(** The new records of page [p], in the order of the instructions. *)
Definition new_fixups_on (page_size O : Z) (P : list byte)
    (instrs : list patch.Instruction) (p : nat) : list le.FixupTuple :=
  omap (fun instr =>
          match new_fixup page_size O P instr with
          | Some (page, fixup) =>
              if bool_decide (Z.to_nat page = p) then Some fixup else None
          | None => None
          end) instrs.

(** The records of page [i] the removal step keeps for a patch of [L]
    bytes at [O]: all of them when the page is passed over, otherwise those
    with an absolute address outside the patch range. *)
Definition surviving (page_size O L : Z) (i : Z) (records : list le.FixupTuple)
  : list le.FixupTuple :=
  if (i * page_size >=? O + L) || (i * page_size + page_size <? O)
  then records
  else List.filter
         (fun r => negb (patch.in_range (le.srcoff r + i * page_size) (O, O + L)))
         records.

(** A record synthesized from an instruction of the payload. *)
Definition synthesized (page_size O : Z) (P : list byte)
    (instrs : list patch.Instruction) (r : le.FixupTuple) : Prop :=
  exists instr operand_offset objnum d,
    instr ∈ instrs
    /\ operand_rule instr = Some (operand_offset, objnum)
    /\ utils.from_uint32_le
         (slice P (patch.ip instr + operand_offset)
            (patch.ip instr + operand_offset + 4)) = Ok d
    /\ r = le.mkFixupTuple "fix_32off_32" 7 16 objnum
             ((O + patch.ip instr) mod page_size + operand_offset) (Some d).

(** A decoder for the examples: the one-byte NOP and RET and the two
    moves between EAX and a 32-bit address; any other byte, and a move cut
    short, is an invalid instruction of one byte. *)
Fixpoint Decoder_sample_from (ip : Z) (data : list byte)
  : list patch.Instruction :=
  match data with
  | [] => []
  | x :: rest =>
      let moffs (c : patch.Code) :=
        match rest with
        | d0 :: d1 :: d2 :: d3 :: rest' =>
            patch.mkInstruction ip c
              (Z_of_byte d0 + 256 * Z_of_byte d1
               + 65536 * Z_of_byte d2 + 16777216 * Z_of_byte d3)
            :: Decoder_sample_from (ip + 5) rest'
        | _ =>
            patch.mkInstruction ip (patch.OtherCode 0) 0
            :: Decoder_sample_from (ip + 1) rest
        end in
      if bool_decide (x = x90) then
        patch.mkInstruction ip patch.NOPD 0 :: Decoder_sample_from (ip + 1) rest
      else if bool_decide (x = xc3) then
        patch.mkInstruction ip patch.RETND 0 :: Decoder_sample_from (ip + 1) rest
      else if bool_decide (x = xa1) then moffs patch.MOV_EAX_MOFFS32
      else if bool_decide (x = xa3) then moffs patch.MOV_MOFFS32_EAX
      else
        patch.mkInstruction ip (patch.OtherCode 0) 0
        :: Decoder_sample_from (ip + 1) rest
  end.

Definition Decoder_sample (bitness : Z) (data : list byte)
  : list patch.Instruction :=
  Decoder_sample_from 0 data.

(** A payload for the examples: [mov eax, [0x00052010]; nop; ret]. *)
Definition sample_payload : list byte := [xa1; x10; x20; x05; x00; x90; xc3].

(** Three pages of fixups: one record on page 0, two on page 1, at page
    offsets 0x0f and 0x20, none on page 2. *)
Definition sample_records : list (list le.FixupTuple) :=
  [[le.mkFixupTuple "fix_32off_32" 7 16 2 0x100 (Some 0x1000)];
   [le.mkFixupTuple "fix_32off_32" 7 16 2 0x0f (Some 0x2000);
    le.mkFixupTuple "fix_32off_16" 7 0 0 0x20 (Some 0x30)];
   []].

Definition sample_pages : list byte := replicate 12288 x00.

(** The fixup bytes of three pages, the first with one record whose source
    offset, 0x2000, is beyond the page. *)
Definition far_record_bytes : list (list byte) :=
  [[x07; x10; x00; x20; x03; x00; x10; x00; x00]; []; []].

Definition far_record : le.FixupTuple :=
  le.mkFixupTuple "fix_32off_32" 7 16 2 0x2000 (Some 0x1000).

(** [sample_records] after [sample_payload] has been applied at 4110. *)
Definition sample_records_after : list (list le.FixupTuple) :=
  [[le.mkFixupTuple "fix_32off_32" 7 16 2 0x100 (Some 0x1000)];
   [le.mkFixupTuple "fix_32off_16" 7 0 0 0x20 (Some 0x30);
    le.mkFixupTuple "fix_32off_32" 7 16 2 15 (Some 0x52010)];
   []].

(** The attributes of a block class: the names of its fields that are not
    constants. *)
Fixpoint attr_names (cls : mrc.Block) : list string :=
  match cls with
  | [] => []
  | (name, mrc.Const _) :: rest => attr_names rest
  | (name, _) :: rest => name :: attr_names rest
  end.

(** *** A sample executable

    An MZ header that holds the LE at 0x40; an LE header with one page, a
    loader section of four bytes (the object page table), a fixup page table
    of two entries, the nine bytes of S2 as the records of the page, three
    bytes between the fixup section and the data pages, and data pages with
    a title screen and the credits line. *)

Definition dword (v : Z) : list byte :=
  [byte_of_Z v; byte_of_Z (v / 256); byte_of_Z (v / 65536);
   byte_of_Z (v / 16777216)].

Definition sample_le_header (fixup_section_csum : Z) : list byte :=
  le.b "LE" ++ [x00; x00] ++ dword 0 ++ [x02; x00] ++ [x01; x00]
  ++ concat (map dword
       [0; 0; 1; 0; 0; 0; 0; 4096; 0; 17; fixup_section_csum; 4; 0;
        176; 0; 176; 0; 0; 0; 0; 0; 0; 0;
        180; 188; 197; 0; 197; 0; 264;
        0; 0; 0; 0; 0; 0; 0; 0; 0; 0; 0]).

Definition title_screen (title : string) : list byte :=
  [xda; xc4; xc4; xc4; xbf; x0a; x0d; xb3]
  ++ le.b "   " ++ le.b title ++ le.b " " ++ [xb3; x0a; x0d; xb3]
  ++ le.b "   Version 1.02   " ++ [xb3].

Definition sample_data_pages (title : string) : list byte :=
  title_screen title ++ le.b "and developed by" ++ replicate 100 x20.

Definition sample_exe (fixup_section_csum : Z) (title : string) : list byte :=
  inner_header
  ++ sample_le_header fixup_section_csum
  ++ [x00; x00; x01; x00]
  ++ dword 0 ++ dword 9
  ++ S2_buffer
  ++ [x01; x02; x03]
  ++ sample_data_pages title.

(** No assembler and no mouselook catalog: enough to run [patch] with every
    flag off. *)
Definition no_assembler (instrs : list patch.Instruction) : list byte := [].
Definition no_mouselook (page_data : list byte) (name : string)
    (invert_y : bool) : result (list (list byte * Z)) := Ok [].

Definition patch_sample (f : list byte) : result (list byte) :=
  patch.patch Decoder_sample no_assembler no_mouselook f false false false.

(** The header of a sample executable as [patch] reads it. *)
Definition sample_header (fixup_section_csum : Z) : gmap string Z :=
  match mrc.import_data le.LEHeader (sample_le_header fixup_section_csum) with
  | Ok h => h
  | Raise _ => ∅
  end.

(** The layout the writer itself produces, for a header [h] read at
    [le_off] and a fixup page table [offsets] whose last entry is [total]:
    a zero fixup checksum, the import procedure table at the import module
    table, the record table right after the page table, the import module
    table right after the records, page-table offsets that start at 0 and
    do not decrease, and the sections in order inside the file. *)
Definition canonical (f : list byte) (mz_off le_off : Z) (h : gmap string Z)
    (offsets : list Z) (total : Z) : Prop :=
  h !!! "fixup_section_csum"%string = 0
  /\ h !!! "import_proc_table_offset"%string
     = h !!! "import_module_table_offset"%string
  /\ 0 <= h !!! "module_num_pages"%string
  /\ h !!! "fixup_record_table_offset"%string
     = h !!! "fixup_page_table_offset"%string
       + 4 * (h !!! "module_num_pages"%string + 1)
  /\ h !!! "fixup_section_size"%string
     = 4 * (h !!! "module_num_pages"%string + 1) + total
  /\ h !!! "import_module_table_offset"%string
     = h !!! "fixup_page_table_offset"%string
       + h !!! "fixup_section_size"%string
  /\ mrc.get_size le.LEHeader <= h !!! "fixup_page_table_offset"%string
  /\ 0 <= le_off
  /\ le_off + h !!! "import_module_table_offset"%string
     <= mz_off + h !!! "data_pages_offset"%string <= len f
  /\ head offsets = Some 0
  /\ last offsets = Some total
  /\ Sorted Z.le offsets.

(** The constants of a block class stand in the buffer, each at the place
    of its field. *)
Fixpoint consts_match (cls : mrc.Block) (buffer : list byte) : Prop :=
  match cls with
  | [] => True
  | (_, fd) :: rest =>
      match fd with
      | mrc.Const value => slice buffer 0 (mrc.size fd) = value
      | _ => True
      end
      /\ consts_match rest (slice_from buffer (mrc.size fd))
  end.

(** The header [patch] reads from [f] at [le_off]. *)
Definition header_of (f : list byte) (le_off : Z) : gmap string Z :=
  match mrc.import_data le.LEHeader (slice_from f le_off) with
  | Ok h => h
  | Raise _ => ∅
  end.

(** The sample executable of Under a Killing Moon and what [patch] makes of
    it with every flag off. *)
Definition killing_moon_exe : list byte := sample_exe 0 "Under a Killing Moon".

Definition killing_moon_out : list byte :=
  slice_to killing_moon_exe 264
  ++ patch.splice (sample_data_pages "Under a Killing Moon")
       patch.credit_data 55.

(** *** For the further properties *)

(** The id [fixups_decode] gives a record with source byte [src] and flags
    [flags]. *)
Definition decoded_id (src flags : Z) : option string :=
  let wide := negb (Z.land flags 16 =? 0) in
  if src =? 7 then Some (if wide then "fix_32off_32" else "fix_32off_16")%string
  else if src =? 5 then Some (if wide then "fix_16off_32" else "fix_16off_16")%string
  else if src =? 6
  then Some (if wide then "fix_1632ptr_32" else "fix_1632ptr_16")%string
  else if src =? 2 then Some "fix_16sel"%string
  else None.

(** A record as [fixups_decode] builds them: the id follows from the source
    byte and the flags, and a fix_16sel has no data word. *)
Definition decodable (r : le.FixupTuple) : Prop :=
  decoded_id (le.src r) (le.flags r) = Some (le.id r)
  /\ (le.id r = "fix_16sel"%string -> le.data r = None).

Definition known_ids_16 : list string :=
  ["fix_32off_16"; "fix_16off_16"; "fix_1632ptr_16"]%string.
Definition known_ids_32 : list string :=
  ["fix_32off_32"; "fix_16off_32"; "fix_1632ptr_32"]%string.

(** What [fixups_encode] needs of a record to get past it. *)
Definition encodable (r : le.FixupTuple) : Prop :=
  0 <= le.src r < 256
  /\ 0 <= le.flags r < 256
  /\ 0 <= le.srcoff r < 65536
  /\ 0 <= le.objnum r + 1 < 256
  /\ ((le.id r ∈ known_ids_16
       /\ exists d, le.data r = Some d /\ 0 <= d < 65536)
      \/ (le.id r ∈ known_ids_32
          /\ exists d, le.data r = Some d /\ 0 <= d < 4294967296)
      \/ le.id r = "fix_16sel"%string).

(** A pattern of plain bytes, as [re.lit] builds and as the pattern of
    the speed fix is. *)
Definition literal (bs : list byte) : re.pattern :=
  map (fun c => re.Atom (re.Char (re.Lit c))) bs.

(** A pattern without a capturing group. *)
Definition group_free (p : re.pattern) : Prop :=
  Forall (fun n => match n with re.Group _ _ => False | _ => True end) p.

(** The fields of the header the writer sets. *)
Definition rewritten_fields : list string :=
  ["fixup_record_table_offset"; "fixup_section_size"; "fixup_section_csum";
   "import_module_table_offset"; "import_proc_table_offset";
   "data_pages_offset"]%string.

(** [s] starts with [bs]. *)
Definition starts (bs s : list byte) : bool :=
  bool_decide (take (length bs) s = bs).

(** * Properties *)

(** ** Bytes, indices and slices *)

Lemma Z_of_byte_range (x : byte) : 0 <= Z_of_byte x < 256.
Proof.
  unfold Z_of_byte. pose proof (Byte.to_N_bounded x) as H.
  split; [apply N2Z.is_nonneg|]. apply N2Z.inj_le in H. simpl in H. lia.
Qed.

Lemma byte_of_Z_of_byte (x : byte) (k : Z) :
  byte_of_Z (Z_of_byte x + 256 * k) = x.
Proof.
  unfold byte_of_Z.
  replace ((Z_of_byte x + 256 * k) mod 256) with (Z_of_byte x).
  - unfold Z_of_byte. rewrite N2Z.id, Byte.of_to_N. reflexivity.
  - pose proof (Z_of_byte_range x).
    replace (Z_of_byte x + 256 * k) with (Z_of_byte x + k * 256) by lia.
    rewrite Z.mod_add by lia. symmetry. apply Z.mod_small. lia.
Qed.

Lemma byte_of_Z_of_byte0 (x : byte) : byte_of_Z (Z_of_byte x) = x.
Proof.
  rewrite <- (byte_of_Z_of_byte x 0) at 2. f_equal. lia.
Qed.

Lemma Z_of_byte_of_Z (z : Z) : 0 <= z < 256 -> Z_of_byte (byte_of_Z z) = z.
Proof.
  intros Hz. unfold byte_of_Z, Z_of_byte.
  rewrite Z.mod_small by lia.
  destruct (Byte.of_N (Z.to_N z)) as [x|] eqn:E.
  - apply Byte.to_of_N in E. rewrite E. lia.
  - apply Byte.of_N_None_iff in E. lia.
Qed.

Lemma len_app {A} (l k : list A) : len (l ++ k) = len l + len k.
Proof. unfold len. rewrite length_app. lia. Qed.

Lemma len_nonneg {A} (l : list A) : 0 <= len l.
Proof. unfold len. lia. Qed.

Lemma len_cons {A} (x : A) (l : list A) : len (x :: l) = 1 + len l.
Proof. unfold len. simpl. lia. Qed.

Lemma clamp_inside (n i : Z) : 0 <= i <= n -> clamp n i = i.
Proof. intros H. unfold clamp. destruct (Z.ltb_spec i 0); lia. Qed.

Lemma clamp_beyond (n i : Z) : 0 <= n <= i -> clamp n i = n.
Proof. intros H. unfold clamp. destruct (Z.ltb_spec i 0); lia. Qed.

Lemma clamp_nonneg (n i : Z) : 0 <= i -> clamp n i = Z.min i n.
Proof. intros H. unfold clamp. destruct (Z.ltb_spec i 0); lia. Qed.

Lemma clamp_range (n i : Z) : 0 <= n -> 0 <= clamp n i <= n.
Proof. intros H. unfold clamp. destruct (Z.ltb_spec i 0); lia. Qed.

(** A slice with bounds that are not negative is a [take] of a [drop]. *)
Lemma slice_nonneg {A} (l : list A) (a e : Z) :
  0 <= a -> 0 <= e ->
  slice l a e = take (Z.to_nat (e - a)) (drop (Z.to_nat a) l).
Proof.
  intros Ha He. unfold slice. rewrite !clamp_nonneg by lia.
  pose proof (len_nonneg l) as Hl. unfold len in *.
  destruct (Z.le_gt_cases a (Z.of_nat (length l))) as [Hal|Hal].
  - rewrite (Z.min_l a) by lia.
    destruct (Z.le_gt_cases e (Z.of_nat (length l))) as [Hel|Hel].
    + rewrite Z.min_l by lia. reflexivity.
    + rewrite Z.min_r by lia.
      rewrite !take_ge; [reflexivity| |]; rewrite length_drop; lia.
  - rewrite (Z.min_r a) by lia.
    rewrite !drop_ge by lia. rewrite !take_nil. reflexivity.
Qed.

Lemma slice_from_nonneg {A} (l : list A) (a : Z) :
  0 <= a -> slice_from l a = drop (Z.to_nat a) l.
Proof.
  intros Ha. unfold slice_from. rewrite clamp_nonneg by lia.
  pose proof (len_nonneg l) as Hl. unfold len in *.
  destruct (Z.le_gt_cases a (Z.of_nat (length l))).
  - rewrite Z.min_l by lia. reflexivity.
  - rewrite Z.min_r by lia. rewrite !drop_ge by lia. reflexivity.
Qed.

Lemma slice_to_nonneg {A} (l : list A) (e : Z) :
  0 <= e -> slice_to l e = take (Z.to_nat e) l.
Proof.
  intros He. unfold slice_to. rewrite clamp_nonneg by lia.
  pose proof (len_nonneg l) as Hl. unfold len in *.
  destruct (Z.le_gt_cases e (Z.of_nat (length l))).
  - rewrite Z.min_l by lia. reflexivity.
  - rewrite Z.min_r by lia. rewrite !take_ge by lia. reflexivity.
Qed.

Lemma getitem_nonneg {A} (l : list A) (i : Z) :
  0 <= i ->
  getitem l i = match l !! Z.to_nat i with
                | Some x => Ok x
                | None => Raise IndexError
                end.
Proof.
  intros Hi. unfold getitem, index_of, bind.
  destruct (Z.ltb_spec i 0); [lia|].
  destruct (Z.leb_spec 0 i); [|lia]. simpl.
  destruct (Z.ltb_spec i (len l)) as [Hlt|Hge]; [reflexivity|].
  rewrite lookup_ge_None_2; [reflexivity|]. unfold len in Hge. lia.
Qed.

(** Reading past a prefix. *)
Lemma getitem_app {A} (pre l : list A) (i : Z) :
  0 <= i -> getitem (pre ++ l) (len pre + i) = getitem l i.
Proof.
  intros Hi. pose proof (len_nonneg pre) as Hp.
  rewrite !getitem_nonneg by lia.
  replace (Z.to_nat (len pre + i)) with (length pre + Z.to_nat i)%nat
    by (unfold len; lia).
  rewrite lookup_app_r by lia.
  replace (length pre + Z.to_nat i - length pre)%nat with (Z.to_nat i) by lia.
  reflexivity.
Qed.

Lemma slice_app {A} (pre l : list A) (a e : Z) :
  0 <= a -> 0 <= e ->
  slice (pre ++ l) (len pre + a) (len pre + e) = slice l a e.
Proof.
  intros Ha He. pose proof (len_nonneg pre) as Hp.
  rewrite !slice_nonneg by lia.
  replace (len pre + e - (len pre + a)) with (e - a) by lia.
  replace (Z.to_nat (len pre + a)) with (length pre + Z.to_nat a)%nat
    by (unfold len; lia).
  rewrite drop_app_add'; [reflexivity|lia]. 
Qed.

(** ** The fixup codec *)

Lemma to_uint16_le_from (b0 b1 : byte) :
  utils.to_uint16_le (Some (Z_of_byte b0 + 256 * Z_of_byte b1)) = Ok [b0; b1].
Proof.
  pose proof (Z_of_byte_range b0). pose proof (Z_of_byte_range b1).
  unfold utils.to_uint16_le.
  destruct (Z.leb_spec 0 (Z_of_byte b0 + 256 * Z_of_byte b1)); [|lia].
  destruct (Z.ltb_spec (Z_of_byte b0 + 256 * Z_of_byte b1) 65536); [|lia].
  simpl. rewrite byte_of_Z_of_byte.
  replace ((Z_of_byte b0 + 256 * Z_of_byte b1) / 256) with (Z_of_byte b1)
    by (apply Z.div_unique with (r := Z_of_byte b0); lia).
  rewrite byte_of_Z_of_byte0. reflexivity.
Qed.

Lemma to_uint32_le_from (b0 b1 b2 b3 : byte) :
  utils.to_uint32_le
    (Some (Z_of_byte b0 + 256 * Z_of_byte b1
           + 65536 * Z_of_byte b2 + 16777216 * Z_of_byte b3))
  = Ok [b0; b1; b2; b3].
Proof.
  pose proof (Z_of_byte_range b0). pose proof (Z_of_byte_range b1).
  pose proof (Z_of_byte_range b2). pose proof (Z_of_byte_range b3).
  unfold utils.to_uint32_le.
  set (v := Z_of_byte b0 + 256 * Z_of_byte b1
            + 65536 * Z_of_byte b2 + 16777216 * Z_of_byte b3).
  destruct (Z.leb_spec 0 v); [|lia].
  destruct (Z.ltb_spec v 4294967296); [|lia].
  simpl.
  replace v with (Z_of_byte b0 + 256 * (Z_of_byte b1 + 256 * Z_of_byte b2
                                         + 65536 * Z_of_byte b3)) at 1 by lia.
  rewrite byte_of_Z_of_byte.
  replace (v / 256) with (Z_of_byte b1 + 256 * (Z_of_byte b2 + 256 * Z_of_byte b3))
    by (apply Z.div_unique with (r := Z_of_byte b0); lia).
  rewrite byte_of_Z_of_byte.
  replace (v / 65536) with (Z_of_byte b2 + 256 * Z_of_byte b3)
    by (apply Z.div_unique with (r := Z_of_byte b0 + 256 * Z_of_byte b1); lia).
  rewrite byte_of_Z_of_byte.
  replace (v / 16777216) with (Z_of_byte b3)
    by (apply Z.div_unique
          with (r := Z_of_byte b0 + 256 * Z_of_byte b1 + 65536 * Z_of_byte b2);
        lia).
  rewrite byte_of_Z_of_byte0. reflexivity.
Qed.

Lemma append_byte_of (buffer : list byte) (x : byte) :
  append_byte buffer (Z_of_byte x) = Ok (buffer ++ [x]).
Proof.
  pose proof (Z_of_byte_range x). unfold append_byte.
  destruct (Z.leb_spec 0 (Z_of_byte x)); [|lia].
  destruct (Z.ltb_spec (Z_of_byte x) 256); [|lia].
  simpl. rewrite byte_of_Z_of_byte0. reflexivity.
Qed.

(** [decode_one] reads nothing before [fix_ptr]. *)
Lemma decode_one_app (pre l : list byte) (p : Z) :
  0 <= p ->
  le.decode_one (pre ++ l) (len pre + p)
  = '(t, q) ← le.decode_one l p; Ok (t, len pre + q).
Proof.
  intros Hp. unfold le.decode_one.
  replace (len pre + p + 1) with (len pre + (p + 1)) by lia.
  replace (len pre + p + 2) with (len pre + (p + 2)) by lia.
  replace (len pre + p + 4) with (len pre + (p + 4)) by lia.
  replace (len pre + p + 5 + 4) with (len pre + (p + 5 + 4)) by lia.
  replace (len pre + p + 5 + 2) with (len pre + (p + 5 + 2)) by lia.
  replace (len pre + p + 5) with (len pre + (p + 5)) by lia.
  rewrite !getitem_app, !slice_app by lia.
  unfold mbind, result_bind, bind.
  repeat match goal with
         | |- context [getitem ?b ?i] => destruct (getitem b i); try reflexivity
         | |- context [utils.from_uint16_le ?b] =>
             destruct (utils.from_uint16_le b); try reflexivity
         | |- context [utils.from_uint32_le ?b] =>
             destruct (utils.from_uint32_le b); try reflexivity
         | |- context [Z.eqb ?a ?b] => destruct (Z.eqb a b); simpl
         end;
  repeat f_equal; lia.
Qed.

Lemma decode_one_app0 (pre l : list byte) :
  le.decode_one (pre ++ l) (len pre)
  = '(t, q) ← le.decode_one l 0; Ok (t, len pre + q).
Proof.
  rewrite <- (decode_one_app pre l 0) by lia. f_equal. lia.
Qed.

Lemma encode_one_16 (buf : list byte) (i : string)
    (src flags lo hi obj d0 d1 : byte) :
  le.id_in i ["fix_32off_16"; "fix_16off_16"; "fix_1632ptr_16"]%string = true ->
  le.encode_one buf
    (le.mkFixupTuple i (Z_of_byte src) (Z_of_byte flags) (Z_of_byte obj - 1)
       (Z_of_byte lo + 256 * Z_of_byte hi)
       (Some (Z_of_byte d0 + 256 * Z_of_byte d1)))
  = Ok (buf ++ [src; flags; lo; hi; obj; d0; d1]).
Proof.
  intros Hi. unfold le.encode_one. cbn [le.src le.flags le.srcoff le.objnum le.id le.data].
  rewrite Hi, Z.sub_add, !append_byte_of. cbn [mbind result_bind bind].
  rewrite !append_byte_of. cbn [mbind result_bind bind].
  rewrite !to_uint16_le_from. cbn [mbind result_bind bind].
  rewrite append_byte_of. cbn [mbind result_bind bind].
  rewrite <- !app_assoc. reflexivity.
Qed.

Lemma encode_one_32 (buf : list byte) (i : string)
    (src flags lo hi obj d0 d1 d2 d3 : byte) :
  le.id_in i ["fix_32off_16"; "fix_16off_16"; "fix_1632ptr_16"]%string = false ->
  le.id_in i ["fix_32off_32"; "fix_16off_32"; "fix_1632ptr_32"]%string = true ->
  le.encode_one buf
    (le.mkFixupTuple i (Z_of_byte src) (Z_of_byte flags) (Z_of_byte obj - 1)
       (Z_of_byte lo + 256 * Z_of_byte hi)
       (Some (Z_of_byte d0 + 256 * Z_of_byte d1
              + 65536 * Z_of_byte d2 + 16777216 * Z_of_byte d3)))
  = Ok (buf ++ [src; flags; lo; hi; obj; d0; d1; d2; d3]).
Proof.
  intros Hn Hi. unfold le.encode_one. cbn [le.src le.flags le.srcoff le.objnum le.id le.data].
  rewrite Hn, Hi, Z.sub_add, !append_byte_of. cbn [mbind result_bind bind].
  rewrite !append_byte_of. cbn [mbind result_bind bind].
  rewrite to_uint16_le_from, to_uint32_le_from. cbn [mbind result_bind bind].
  rewrite append_byte_of. cbn [mbind result_bind bind].
  rewrite <- !app_assoc. reflexivity.
Qed.

Lemma encode_one_sel (buf : list byte) (src flags lo hi obj : byte) (d : option Z) :
  le.encode_one buf
    (le.mkFixupTuple "fix_16sel" (Z_of_byte src) (Z_of_byte flags)
       (Z_of_byte obj - 1) (Z_of_byte lo + 256 * Z_of_byte hi) d)
  = Ok (buf ++ [src; flags; lo; hi; obj]).
Proof.
  unfold le.encode_one. cbn [le.src le.flags le.srcoff le.objnum le.id le.data].
  rewrite Z.sub_add, !append_byte_of. cbn [mbind result_bind bind].
  rewrite !append_byte_of. cbn [mbind result_bind bind].
  rewrite to_uint16_le_from. cbn [mbind result_bind bind].
  rewrite append_byte_of. cbn [mbind result_bind bind].
  change (le.id_in "fix_16sel" ["fix_32off_16"; "fix_16off_16"; "fix_1632ptr_16"]%string)
    with false.
  change (le.id_in "fix_16sel" ["fix_32off_32"; "fix_16off_32"; "fix_1632ptr_32"]%string)
    with false.
  change ("fix_16sel" =? "fix_16sel")%string with true.
  cbn iota. rewrite <- !app_assoc. reflexivity.
Qed.

Lemma id_in_true (s : string) (l : list string) : s ∈ l -> le.id_in s l = true.
Proof. intros H. unfold le.id_in. apply bool_decide_eq_true_2, H. Qed.

Ltac decode_at0 :=
  unfold le.decode_one;
  rewrite !getitem_nonneg, !slice_nonneg by lia;
  simpl.

Lemma codec_round_trip_from (fuel : nat) :
  forall (B pre : list byte) (items : list le.FixupTuple) (buf : list byte),
    valid_stream B = true ->
    (length B <= fuel)%nat ->
    exists recs,
      le.decode_loop fuel (pre ++ B) (len pre) items = Ok (items ++ recs)
      /\ le.encode_loop buf recs = Ok (buf ++ B).
Proof.
  induction fuel as [|fuel IH]; intros B pre items buf HB Hlen.
  - destruct B; [|simpl in Hlen; lia].
    exists []. simpl. rewrite !app_nil_r, Z.ltb_irrefl. auto.
  - destruct B as [|src [|flags [|lo [|hi [|obj rest]]]]]; try discriminate.
    { exists []. simpl. rewrite !app_nil_r, Z.ltb_irrefl. auto. }
    cbn [le.decode_loop].
    destruct (Z.ltb_spec (len pre) (len (pre ++ src :: flags :: lo :: hi :: obj :: rest)))
      as [_|Hge]; [|rewrite len_app, !len_cons in Hge; pose proof (len_nonneg rest); lia].
    rewrite decode_one_app0.
    cbn [valid_stream] in HB.
    decode_at0.
    change (Z.to_nat (0 + 5 + 4 - (0 + 5))) with 4%nat.
    change (Z.to_nat (0 + 5 + 2 - (0 + 5))) with 2%nat.
    rewrite drop_0.
    assert (Hstep : forall (r : list byte) (t : le.FixupTuple) (rest' : list byte),
               rest = drop 5 r ++ rest' ->
               take 5 r = [src; flags; lo; hi; obj] ->
               (length r >= 5)%nat ->
               valid_stream rest' = true ->
               le.encode_one buf t = Ok (buf ++ r) ->
               exists recs,
                 le.decode_loop fuel
                   (pre ++ src :: flags :: lo :: hi :: obj :: rest)
                   (len pre + len r) (items ++ [t]) = Ok (items ++ recs)
                 /\ le.encode_loop buf recs
                    = Ok (buf ++ src :: flags :: lo :: hi :: obj :: rest)).
    { intros r t rest' Hrest Hr5 Hr Hv He.
      assert (Hsplit : src :: flags :: lo :: hi :: obj :: rest = r ++ rest').
      { rewrite <- (take_drop 5 r) at 1. rewrite Hr5, Hrest. reflexivity. }
      rewrite Hsplit.
      destruct (IH rest' (pre ++ r) (items ++ [t]) (buf ++ r) Hv) as (recs & Hd & Hen).
      { apply (f_equal length) in Hsplit. rewrite length_app in Hsplit.
        simpl in Hsplit, Hlen. lia. }
      exists (t :: recs). split.
      - rewrite <- len_app. rewrite (app_assoc pre r rest'), Hd.
        rewrite <- app_assoc. reflexivity.
      - cbn [le.encode_loop]. rewrite He. cbn [mbind result_bind bind].
        rewrite Hen, <- app_assoc. reflexivity. }
    destruct (Z.eqb_spec (Z_of_byte src) 2) as [E2|E2].
    { rewrite E2. cbn [Z.eqb Pos.eqb mbind result_bind bind].
      replace 5 with (len [src; flags; lo; hi; obj]) by reflexivity.
      replace 2 with (Z_of_byte src) by exact E2.
      apply (Hstep [src; flags; lo; hi; obj] _ rest); auto.
      rewrite E2. rewrite <- E2. apply encode_one_sel. }
    destruct (Z.land (Z_of_byte flags) 16 =? 0) eqn:EF; cbn [negb] in *.
    + destruct rest as [|d0 [|d1 rest']];
        try (destruct ((Z_of_byte src =? 7) || (Z_of_byte src =? 5)
                       || (Z_of_byte src =? 6)); discriminate).
      cbn [take utils.from_uint16_le mbind result_bind bind].
      destruct (Z_of_byte src =? 7); [|destruct (Z_of_byte src =? 5);
        [|destruct (Z_of_byte src =? 6); [|discriminate]]];
      cbn [orb mbind result_bind bind] in *;
      replace (0 + 5 + 2) with (len [src; flags; lo; hi; obj; d0; d1])
        by reflexivity;
      apply (Hstep [src; flags; lo; hi; obj; d0; d1] _ rest'); auto;
      try (simpl; lia);
      apply encode_one_16; reflexivity.
    + destruct rest as [|d0 [|d1 [|d2 [|d3 rest']]]];
        try (destruct ((Z_of_byte src =? 7) || (Z_of_byte src =? 5)
                       || (Z_of_byte src =? 6)); discriminate).
      cbn [take utils.from_uint32_le mbind result_bind bind].
      destruct (Z_of_byte src =? 7); [|destruct (Z_of_byte src =? 5);
        [|destruct (Z_of_byte src =? 6); [|discriminate]]];
      cbn [orb mbind result_bind bind] in *;
      replace (0 + 5 + 4) with (len [src; flags; lo; hi; obj; d0; d1; d2; d3])
        by reflexivity;
      apply (Hstep [src; flags; lo; hi; obj; d0; d1; d2; d3] _ rest'); auto;
      try (simpl; lia);
      apply encode_one_32; reflexivity.
Qed.

(** C1: for every byte stream [B] that is a valid concatenation of fixup
    records, [fixups_decode B] returns a list of records and
    [fixups_encode] of that list is [B] again. *)
Theorem fixup_codec_round_trip (B : list byte) :
  valid_stream B = true ->
  exists fixups,
    le.fixups_decode B = Ok fixups /\ le.fixups_encode fixups = Ok B.
Proof.
  intros HB.
  destruct (codec_round_trip_from (length B) B [] [] [] HB) as (recs & Hd & He);
    [lia|].
  exists recs. split; [exact Hd | exact He].
Qed.

Lemma fixup_codec_round_trip_witness :
  valid_stream (S2_buffer ++ S3_buffer ++ S4_buffer) = true
  /\ exists fixups,
       le.fixups_decode (S2_buffer ++ S3_buffer ++ S4_buffer) = Ok fixups
       /\ le.fixups_encode fixups = Ok (S2_buffer ++ S3_buffer ++ S4_buffer).
Proof.
  split; [reflexivity|].
  apply (fixup_codec_round_trip (S2_buffer ++ S3_buffer ++ S4_buffer)).
  reflexivity.
Defined.

(** C8, as the spec states it, fails: the record decoded from the buffer of
    S2 does not carry the data word 0xdeadbead. *)
Lemma S2_data_counterexample :
  le.fixups_decode S2_buffer <> Ok [S2_record_spec].
Proof. vm_compute. discriminate. Qed.

(** C8, amended: [fixups_decode] of the nine bytes 07 10 34 12 03 ef be ad de
    is exactly one record of kind fix_32off_32 with srcoff 0x1234, objnum 2
    and data 0xdeadbeef, and [fixups_encode] of that list is the nine bytes. *)
Theorem S2_decode_encode :
  le.fixups_decode S2_buffer = Ok [S2_record]
  /\ le.id S2_record = "fix_32off_32"%string
  /\ le.srcoff S2_record = 0x1234
  /\ le.objnum S2_record = 2
  /\ le.data S2_record = Some 0xdeadbeef
  /\ le.fixups_encode [S2_record] = Ok S2_buffer.
Proof. vm_compute. repeat split. Qed.

(** ** Detection *)

(** C9, as the spec states it, fails: the empty pattern has exactly one match
    in the empty buffer, and [find_offset] raises instead of returning its
    start. *)
Lemma find_offset_empty_pattern_counterexample :
  exists m,
    utils.grep [] [] = [m]
    /\ patch.find_offset [] [] 0 "label"
       <> Ok (re.start m + 0)
    /\ patch.find_offset [] [] 0 "label" = Raise DataNotFound.
Proof.
  exists (re.mkMatch [] (0, 0) ∅). vm_compute. repeat split. discriminate.
Qed.

(** C9, amended: for every page buffer, pattern, base delta and label,
    [find_offset] raises [DataNotFound] when the pattern is empty; for a
    pattern that is not empty it returns [match.start() + base_delta] when
    the pattern has exactly one match in the buffer and raises
    [DataNotFound] when it has no match or more than one. *)
Theorem find_offset_spec (page_data : list byte) (pattern : re.pattern)
    (offset : Z) (description : string) :
  (pattern = [] ->
   patch.find_offset page_data pattern offset description = Raise DataNotFound)
  /\ (forall m, pattern <> [] -> utils.grep pattern page_data = [m] ->
      patch.find_offset page_data pattern offset description
      = Ok (re.start m + offset))
  /\ (utils.grep pattern page_data = [] ->
      patch.find_offset page_data pattern offset description = Raise DataNotFound)
  /\ ((1 < length (utils.grep pattern page_data))%nat ->
      patch.find_offset page_data pattern offset description = Raise DataNotFound).
Proof.
  unfold patch.find_offset. repeat split.
  - intros ->. reflexivity.
  - intros m Hp Hm. destruct pattern as [|n p]; [congruence|].
    rewrite Hm. reflexivity.
  - intros Hm. destruct pattern; [reflexivity|]. rewrite Hm. reflexivity.
  - intros Hm. destruct pattern; [reflexivity|].
    destruct (utils.grep _ _) as [|m [|m' rest]] eqn:E; simpl in Hm; try lia.
    unfold len. simpl length.
    destruct (Z.ltb_spec 1 (Z.of_nat (S (S (length rest))))); [reflexivity|lia].
Qed.

Lemma find_offset_spec_witness :
  re.lit "ab" <> []
  /\ utils.grep (re.lit "ab") (le.b "xxab") = [re.mkMatch (le.b "xxab") (2, 4) ∅]
  /\ patch.find_offset (le.b "xxab") (re.lit "ab") 5 "label" = Ok 7.
Proof.
  assert (Hp : re.lit "ab" <> []) by discriminate.
  assert (Hm : utils.grep (re.lit "ab") (le.b "xxab")
               = [re.mkMatch (le.b "xxab") (2, 4) ∅]) by (vm_compute; reflexivity).
  split; [exact Hp|]. split; [exact Hm|].
  destruct (find_offset_spec (le.b "xxab") (re.lit "ab") 5 "label")
    as (_ & H & _).
  exact (H _ Hp Hm).
Defined.

(** C7: on the title screen of scenario S1 the title group of the version
    pattern takes two of the three spaces after the title, the name is not
    one of the two games, and [detect_version] raises. *)
Theorem detect_version_S1 :
  (exists m, utils.grep patch.VERSION_PATTERN S1_buffer = [m]
             /\ re.group m 1 = Ok (le.b "Under a Killing Moon  "))
  /\ patch.detect_version S1_buffer = Raise DataNotFound.
Proof.
  split.
  - eexists. split; vm_compute; reflexivity.
  - vm_compute. reflexivity.
Qed.

(** With one space after the title the scenario gives the triple. *)
Lemma detect_version_S1_tight :
  patch.detect_version S1_buffer_tight
  = Ok ("Under a Killing Moon", "1.02", "UNKNOWN")%string.
Proof. vm_compute. reflexivity. Qed.

(** ** The LE locator *)

Lemma slice_slice_0 {A} (l : list A) (n a e : Z) :
  0 <= a -> a <= e -> e <= n ->
  slice (slice l 0 n) a e = slice l a e.
Proof.
  intros Ha Hae Hen. rewrite !slice_nonneg by lia.
  rewrite drop_0, Z.sub_0_r.
  rewrite !take_drop_commute, take_take.
  rewrite Nat.min_l by lia. reflexivity.
Qed.

Lemma slice_app_head {A} (l k : list A) (n : Z) :
  0 <= n <= len l -> slice (l ++ k) 0 n = slice l 0 n.
Proof.
  intros Hn. rewrite !slice_nonneg by lia. rewrite !drop_0.
  apply take_app_le. unfold len in Hn. lia.
Qed.

Lemma slice_all {A} (l : list A) : slice l 0 (len l) = l.
Proof.
  pose proof (len_nonneg l).
  rewrite slice_nonneg by lia. rewrite drop_0, Z.sub_0_r.
  apply take_ge. unfold len. lia.
Qed.

(** C6, as the spec states it, fails: on the synthetic image the first
    component of the result is the offset of the inner header, 64, not the
    offset of the outer stub, 0. *)
Lemma search_for_le_outer_counterexample :
  slice nested_image 0 2 = le.b "MZ"
  /\ slice nested_image 64 66 = le.b "MZ"
  /\ header_word (slice nested_image 64 128) 0x18 = Ok 0x40
  /\ header_word (slice nested_image 64 128) 0x3c = Ok 64
  /\ le.search_for_le nested_image <> Ok (0, 64 + 64)
  /\ le.search_for_le nested_image = Ok (64, 64 + 64).
Proof. vm_compute. repeat split. discriminate. Qed.

Lemma search_step_found (exe : list byte) (ptr : Z) (header : list byte)
    (code32_start : Z) :
  slice exe ptr (ptr + 64) = header ->
  slice header 0 2 ∈ [le.b "MZ"; le.b "BW"] ->
  header_word header 0x18 = Ok 0x40 ->
  header_word header 0x3c = Ok code32_start ->
  code32_start <> 0 ->
  le.search_step exe ptr = Ok (inl (ptr, ptr + code32_start)).
Proof.
  unfold header_word. intros Hh Hm Hr Hc Hz. unfold le.search_step.
  rewrite Hh. rewrite bool_decide_eq_true_2 by exact Hm.
  change (24 + 2) with 26 in Hr. change (60 + 2) with 62 in Hc.
  rewrite Hr. cbn [mbind result_bind bind Z.eqb Pos.eqb].
  rewrite Hc. cbn [mbind result_bind bind].
  destruct (Z.eqb_spec code32_start 0); [contradiction|]. reflexivity.
Qed.

Lemma search_step_skip_MZ (exe : list byte) (ptr : Z) (header : list byte)
    (page_count last_page_bytes : Z) :
  slice exe ptr (ptr + 64) = header ->
  slice header 0 2 = le.b "MZ" ->
  (64 <= length header)%nat ->
  header_word header 0x18 <> Ok 0x40 \/ header_word header 0x3c = Ok 0 ->
  header_word header 4 = Ok page_count ->
  header_word header 2 = Ok last_page_bytes ->
  le.search_step exe ptr
  = Ok (inr (ptr + (Z.shiftl page_count 9 + last_page_bytes - 512))).
Proof.
  unfold header_word. intros Hh Hm Hl Hn Hp Hb. unfold le.search_step.
  rewrite Hh, Hm.
  rewrite bool_decide_eq_true_2 by (apply list_elem_of_here).
  rewrite bool_decide_eq_true_2 by reflexivity.
  change (24 + 2) with 26 in Hn. change (60 + 2) with 62 in Hn.
  change (4 + 2) with 6 in Hp. change (2 + 2) with 4 in Hb.
  assert (Hfound :
    (utils.from_uint16_le (slice header 24 26)
     ≫= λ relocation_table_offset : Z,
       (if relocation_table_offset =? 64
        then utils.from_uint16_le (slice header 60 62)
             ≫= λ code32_start : Z,
               if negb (code32_start =? 0)
               then Ok (Some (ptr, ptr + code32_start)) else Ok None
        else Ok None)
       ≫= λ found : option (Z * Z),
         match found with
         | Some r => Ok (inl r)
         | None =>
             utils.from_uint16_le (slice header 4 6)
             ≫= λ page_count0 : Z,
               utils.from_uint16_le (slice header 2 4)
               ≫= λ last_page_bytes0 : Z,
                 Ok (inr (ptr + (Z.shiftl page_count0 9 + last_page_bytes0 - 512)))
         end)
    = Ok (inr (ptr + (Z.shiftl page_count 9 + last_page_bytes - 512)))
    :> result ((Z * Z) + Z)).
  { assert (Hlen : forall a, 0 <= a -> a + 2 <= 64 ->
                     length (slice header a (a + 2)) = 2%nat).
    { intros a Ha Ha2. rewrite slice_nonneg by lia.
      rewrite length_take, length_drop. lia. }
    assert (Hok : forall a, 0 <= a -> a + 2 <= 64 ->
                    exists v, utils.from_uint16_le (slice header a (a + 2)) = Ok v).
    { intros a Ha Ha2. specialize (Hlen a Ha Ha2).
      destruct (slice header a (a + 2)) as [|x [|y [|z t]]]; try discriminate.
      eexists. reflexivity. }
    destruct (Hok 24 ltac:(lia) ltac:(lia)) as [r Hr].
    destruct (Hok 60 ltac:(lia) ltac:(lia)) as [c Hc].
    change (24 + 2) with 26 in Hr. change (60 + 2) with 62 in Hc.
    rewrite Hr in *. cbn [mbind result_bind bind].
    destruct (Z.eqb_spec r 64) as [->|Hne].
    - rewrite Hc in *. cbn [mbind result_bind bind].
      destruct Hn as [Hn|Hn]; [congruence|]. injection Hn as ->.
      cbn [Z.eqb negb mbind result_bind bind].
      rewrite Hp, Hb. reflexivity.
    - cbn [mbind result_bind bind]. rewrite Hp, Hb. reflexivity. }
  exact Hfound.
Qed.

(** C6, amended: for every image made of an outer MZ stub that does not
    itself hold the LE (its relocation-table offset is not 0x40 or its
    code32_start is zero) and whose header gives its size as the offset of
    the inner header, followed by an inner MZ header with relocation-table
    offset 0x40 and a nonzero code32_start, [search_for_le] returns
    [(inner_mz_off, inner_mz_off + code32_start)]. *)
Theorem search_for_le_nested (outer inner rest : list byte)
    (page_count last_page_bytes code32_start : Z) :
  (64 <= length outer)%nat ->
  slice outer 0 2 = le.b "MZ" ->
  header_word outer 0x18 <> Ok 0x40 \/ header_word outer 0x3c = Ok 0 ->
  header_word outer 4 = Ok page_count ->
  header_word outer 2 = Ok last_page_bytes ->
  Z.shiftl page_count 9 + last_page_bytes - 512 = len outer ->
  length inner = 64%nat ->
  slice inner 0 2 = le.b "MZ" ->
  header_word inner 0x18 = Ok 0x40 ->
  header_word inner 0x3c = Ok code32_start ->
  code32_start <> 0 ->
  let inner_mz_off := len outer in
  le.search_for_le (outer ++ inner ++ rest)
  = Ok (inner_mz_off, inner_mz_off + code32_start).
Proof.
  intros Hlo Hmo Hno Hpc Hlpb Hsz Hli Hmi Hri Hci Hnz inner_mz_off.
  subst inner_mz_off. unfold le.search_for_le.
  set (exe := outer ++ inner ++ rest).
  assert (Hexe : len exe = len outer + 64 + len rest).
  { unfold exe. rewrite !len_app. unfold len at 2. rewrite Hli. lia. }
  pose proof (len_nonneg rest) as Hrest.
  assert (Hout : 64 <= len outer) by (unfold len; lia).
  replace (2 * length exe + 513)%nat with (S (S (2 * length exe + 511))) by lia.
  cbn [le.search_loop].
  destruct (Z.ltb_spec 0 (len exe)); [|lia].
  rewrite (search_step_skip_MZ exe 0 (slice outer 0 64) page_count last_page_bytes).
  - cbn [mbind result_bind bind]. rewrite Hsz, Z.add_0_l.
    destruct (Z.ltb_spec (len outer) (len exe)); [|lia].
    rewrite (search_step_found exe (len outer) inner code32_start); auto.
    + unfold exe.
      replace (len outer) with (len outer + 0) at 1 by lia.
      rewrite slice_app by lia.
      rewrite slice_app_head by (unfold len; lia).
      replace 64 with (len inner) by (unfold len; lia). apply slice_all.
    + rewrite Hmi. apply list_elem_of_here.
  - unfold exe. apply slice_app_head. lia.
  - rewrite slice_slice_0 by lia. exact Hmo.
  - rewrite slice_nonneg by lia. rewrite length_take, length_drop.
    change (Z.to_nat (64 - 0)) with 64%nat. change (Z.to_nat 0) with 0%nat. lia.
  - unfold header_word in *. rewrite !slice_slice_0 by lia. exact Hno.
  - unfold header_word in *. rewrite !slice_slice_0 by lia. exact Hpc.
  - unfold header_word in *. rewrite !slice_slice_0 by lia. exact Hlpb.
Qed.

Lemma search_for_le_nested_witness :
  le.search_for_le nested_image = Ok (64, 64 + 64).
Proof.
  apply (search_for_le_nested outer_stub inner_header [x4c; x45; x00; x00] 1 64 64).
  - vm_compute. lia.
  - reflexivity.
  - left. vm_compute. discriminate.
  - reflexivity.
  - reflexivity.
  - reflexivity.
  - reflexivity.
  - reflexivity.
  - reflexivity.
  - reflexivity.
  - lia.
Defined.


(** ** The splice *)

Lemma splice_inside (page_data payload : list byte) (offset : Z) :
  0 <= offset -> offset + len payload <= len page_data ->
  patch.splice page_data payload offset
  = take (Z.to_nat offset) page_data ++ payload
    ++ drop (Z.to_nat (offset + len payload)) page_data.
Proof.
  intros Ho Hl. pose proof (len_nonneg payload).
  unfold patch.splice, setslice.
  rewrite !clamp_inside by lia. rewrite Z.max_r by lia. reflexivity.
Qed.

Lemma splice_replaces_exactly (page_data payload : list byte) (offset : Z) :
  0 <= offset -> offset + len payload <= len page_data ->
  replaces_exactly page_data (patch.splice page_data payload offset)
    payload offset.
Proof.
  intros Ho Hl. pose proof (len_nonneg payload) as Hp.
  rewrite splice_inside by lia. unfold replaces_exactly, len in *.
  repeat split.
  - rewrite !length_app, length_take, length_drop. lia.
  - rewrite slice_nonneg by lia.
    rewrite drop_app_length'
      by (rewrite length_take; lia).
    replace (offset + Z.of_nat (length payload) - offset)
      with (Z.of_nat (length payload)) by lia.
    rewrite Nat2Z.id. apply take_app_length.
  - intros i Hi Hout. rewrite !getitem_nonneg by lia.
    destruct Hout as [Hlt|Hge].
    + rewrite lookup_app_l by (rewrite length_take; lia).
      rewrite lookup_take_lt by lia. reflexivity.
    + rewrite app_assoc.
      rewrite lookup_app_r
        by (rewrite length_app, length_take; lia).
      rewrite lookup_drop. rewrite length_app, length_take.
      replace (Z.to_nat (offset + Z.of_nat (length payload))
               + (Z.to_nat i
                  - (Z.to_nat offset `min` length page_data + length payload)))%nat
        with (Z.to_nat i) by lia.
      reflexivity.
Qed.

(** C10: for every CodePatch or DataPatch whose range lies inside the
    data-pages buffer, the buffer after the patch has the same length, holds
    the payload in the range and equals the buffer before it everywhere
    else; a DataPatch always goes through, and so does the splice of a
    CodePatch once its fixup steps have. *)
Theorem patch_replaces_exactly
    (Decoder : Z -> list byte -> list patch.Instruction) (page_size : Z)
    (fixup_records : list (list le.FixupTuple))
    (page_data payload : list byte) (offset : Z) :
  0 <= offset -> offset + len payload <= len page_data ->
  replaces_exactly page_data
    (patch.apply_data_patches page_data [(payload, offset)]) payload offset
  /\ forall fixup_records' page_data',
       patch.apply_code_patch Decoder page_size (fixup_records, page_data)
         (payload, offset) = Ok (fixup_records', page_data') ->
       replaces_exactly page_data page_data' payload offset.
Proof.
  intros Ho Hl. split.
  - cbn [patch.apply_data_patches]. apply splice_replaces_exactly; assumption.
  - intros recs' pd' H. unfold patch.apply_code_patch in H.
    destruct (patch.remove_fixups _ _ _) as [kept|e];
      cbn [mbind result_bind bind] in H; [|discriminate].
    destruct (patch.add_fixups _ _ _ _ _) as [added|e];
      cbn [mbind result_bind bind] in H; [|discriminate].
    injection H as _ <-. apply splice_replaces_exactly; assumption.
Qed.

(** ** Removing the fixups of the patched range *)

Lemma pop_all_app (records : list le.FixupTuple) (js ks : list Z) :
  patch.pop_all records (js ++ ks)
  = records' ← patch.pop_all records js; patch.pop_all records' ks.
Proof.
  revert records. induction js as [|j js IH]; intros records; [reflexivity|].
  cbn [app patch.pop_all]. destruct (pop records j) as [r|e]; [|reflexivity].
  cbn [mbind result_bind bind]. apply IH.
Qed.

Lemma pop_middle (pre : list le.FixupTuple) (r : le.FixupTuple)
    (post : list le.FixupTuple) :
  pop (pre ++ r :: post) (len pre) = Ok (pre ++ post).
Proof.
  unfold pop, index_of. pose proof (len_nonneg pre). pose proof (len_nonneg post).
  destruct (Z.ltb_spec (len pre) 0); [lia|].
  rewrite len_app, len_cons.
  destruct (Z.leb_spec 0 (len pre)); [|lia].
  destruct (Z.ltb_spec (len pre) (len pre + (1 + len post))); [|lia].
  cbn [andb bind]. unfold len. rewrite Nat2Z.id.
  f_equal. rewrite delete_middle. reflexivity.
Qed.

(** Popping the collected indices from the last to the first leaves the
    records that were not collected. *)
Lemma pop_all_to_remove (page_offset : Z) (R : Z * Z)
    (records pre : list le.FixupTuple) :
  patch.pop_all (pre ++ records)
    (reverse (patch.to_remove page_offset R (len pre) records))
  = Ok (pre ++ List.filter
                 (fun r => negb (patch.in_range (le.srcoff r + page_offset) R))
                 records).
Proof.
  revert pre. induction records as [|r rest IH]; intros pre; [reflexivity|].
  cbn [patch.to_remove List.filter].
  rewrite reverse_app, pop_all_app.
  replace (pre ++ r :: rest) with ((pre ++ [r]) ++ rest)
    by (rewrite <- app_assoc; reflexivity).
  replace (len pre + 1) with (len (pre ++ [r]))
    by (rewrite len_app; reflexivity).
  rewrite IH. cbn [mbind result_bind bind].
  rewrite <- app_assoc. cbn [app].
  destruct (patch.in_range (le.srcoff r + page_offset) R); cbn [negb].
  - cbn [reverse rev_append patch.pop_all]. unfold reverse. cbn [rev_append patch.pop_all].
    rewrite pop_middle. reflexivity.
  - reflexivity.
Qed.

Lemma remove_page_surviving (page_size O L i : Z) (records : list le.FixupTuple) :
  patch.remove_page page_size (O, O + L) i records
  = Ok (surviving page_size O L i records).
Proof.
  unfold patch.remove_page, surviving. cbn [fst snd].
  destruct ((i * page_size >=? O + L) || (i * page_size + page_size <? O));
    [reflexivity|].
  apply (pop_all_to_remove (i * page_size) (O, O + L) records []).
Qed.

Lemma remove_loop_surviving (page_size O L : Z)
    (pages : list (list le.FixupTuple)) (i : Z) :
  patch.remove_loop page_size (O, O + L) i pages
  = Ok (imap (fun k => surviving page_size O L (i + Z.of_nat k)) pages).
Proof.
  revert i. induction pages as [|records rest IH]; intros i; [reflexivity|].
  cbn [patch.remove_loop]. rewrite remove_page_surviving.
  cbn [mbind result_bind bind]. rewrite IH. cbn [mbind result_bind bind imap].
  f_equal. f_equal.
  - f_equal. lia.
  - apply imap_ext. intros k x _. cbn. f_equal. lia.
Qed.

Lemma remove_fixups_surviving (page_size O L : Z)
    (fixup_records : list (list le.FixupTuple)) :
  patch.remove_fixups page_size (O, O + L) fixup_records
  = Ok (imap (fun k => surviving page_size O L (Z.of_nat k)) fixup_records).
Proof.
  unfold patch.remove_fixups. rewrite remove_loop_surviving. reflexivity.
Qed.

Lemma surviving_outside (page_size O L i : Z) (records : list le.FixupTuple)
    (r : le.FixupTuple) :
  r ∈ surviving page_size O L i records ->
  r ∈ records
  /\ (0 <= le.srcoff r <= page_size ->
      ~ (O <= i * page_size + le.srcoff r < O + L)).
Proof.
  unfold surviving. intros Hr.
  destruct (Z.geb_spec (i * page_size) (O + L)) as [Hge|Hlt]; cbn [orb] in Hr.
  { split; [exact Hr|lia]. }
  destruct (Z.ltb_spec (i * page_size + page_size) O) as [Hbelow|Hin].
  { split; [exact Hr|lia]. }
  apply list_elem_of_In, filter_In in Hr. destruct Hr as [Hr Hout].
  split; [apply list_elem_of_In, Hr|]. intros _.
  unfold patch.in_range in Hout. cbn [fst snd] in Hout.
  destruct (Z.leb_spec O (le.srcoff r + i * page_size));
    destruct (Z.ltb_spec (le.srcoff r + i * page_size) (O + L));
    cbn in Hout; try discriminate; lia.
Qed.

(** ** Synthesizing the new fixups *)

(** The [match] of the patch loop is the table of the spec. *)
Lemma add_fixup_rule (page_size O : Z) (P : list byte)
    (fixup_records : list (list le.FixupTuple)) (instr : patch.Instruction) :
  page_size <> 0 ->
  patch.add_fixup page_size O P fixup_records instr
  = match operand_rule instr with
    | Some (operand_offset, objnum) =>
        patch.append_fixup fixup_records P instr
          ((O + patch.ip instr) / page_size) ((O + patch.ip instr) mod page_size)
          objnum operand_offset
    | None => Ok fixup_records
    end.
Proof.
  intros Hps. unfold patch.add_fixup, operand_rule.
  destruct (Z.eqb_spec page_size 0) as [|_]; [contradiction|].
  destruct instr as [ip c md]. cbn [patch.code patch.ip patch.memory_displacement].
  destruct c; try reflexivity;
    (destruct (Z.eqb_spec md 0) as [->|Hmd]; cbn [negb]; [reflexivity|]);
    rewrite (bool_decide_eq_true_2 (md <> 0)) by exact Hmd; reflexivity.
Qed.

Lemma append_fixup_ok (fixup_records : list (list le.FixupTuple))
    (P : list byte) (instr : patch.Instruction) (page srcoff objnum delta : Z) :
  0 <= patch.ip instr + delta ->
  patch.ip instr + delta + 4 <= len P ->
  0 <= page < len fixup_records ->
  patch.append_fixup fixup_records P instr page srcoff objnum delta
  = Ok (alter
          (fun records =>
             records ++ [le.mkFixupTuple "fix_32off_32" 7 16 objnum
                           (srcoff + delta)
                           (Some (dword_at P (patch.ip instr + delta)))])
          (Z.to_nat page) fixup_records).
Proof.
  intros Hlo Hhi Hpage. unfold patch.append_fixup, dword_at.
  assert (Hlen : length (slice P (patch.ip instr + delta)
                           (patch.ip instr + delta + 4)) = 4%nat).
  { rewrite slice_nonneg by lia. rewrite length_take, length_drop.
    unfold len in Hhi. lia. }
  destruct (slice P _ _) as [|b0 [|b1 [|b2 [|b3 [|b4 t]]]]]; try discriminate.
  cbn [utils.from_uint32_le mbind result_bind bind].
  unfold index_of.
  destruct (Z.ltb_spec page 0); [lia|].
  destruct (Z.leb_spec 0 page); [|lia].
  destruct (Z.ltb_spec page (len fixup_records)); [|lia].
  reflexivity.
Qed.

Lemma operand_rule_range (instr : patch.Instruction) (delta objnum : Z) :
  operand_rule instr = Some (delta, objnum) -> 1 <= delta <= 3.
Proof.
  unfold operand_rule. intros H.
  repeat match type of H with
         | (if ?c then _ else _) = _ => destruct c
         end;
  try discriminate; injection H as <- _; lia.
Qed.

Lemma add_fixups_new (page_size O : Z) (P : list byte) :
  0 < page_size -> 0 <= O ->
  forall (instrs : list patch.Instruction)
         (fixup_records : list (list le.FixupTuple)),
    Forall (fixups_fit page_size O P (len fixup_records)) instrs ->
    exists fixup_records',
      patch.add_fixups page_size O P fixup_records instrs = Ok fixup_records'
      /\ length fixup_records' = length fixup_records
      /\ forall p,
           fixup_records' !! p
           = (fun l => l ++ new_fixups_on page_size O P instrs p)
               <$> fixup_records !! p.
Proof.
  intros Hps HO. induction instrs as [|instr rest IH]; intros recs Hfit.
  - exists recs. repeat split. intros p. cbn [new_fixups_on omap list_omap].
    destruct (recs !! p); cbn; [rewrite app_nil_r|]; reflexivity.
  - apply Forall_cons in Hfit. destruct Hfit as [[Hip Hrule] Hfit].
    cbn [patch.add_fixups]. rewrite add_fixup_rule by lia.
    unfold new_fixups_on. cbn [omap list_omap]. unfold new_fixup at 1.
    destruct (operand_rule instr) as [[delta objnum]|] eqn:E.
    + destruct (Hrule delta objnum eq_refl) as [Hdw Hpg].
      pose proof (operand_rule_range _ _ _ E) as Hd.
      assert (Hpage : 0 <= (O + patch.ip instr) / page_size)
        by (apply Z.div_pos; lia).
      rewrite append_fixup_ok by lia. cbn [mbind result_bind bind].
      set (page := Z.to_nat ((O + patch.ip instr) / page_size)).
      set (fixup := le.mkFixupTuple _ _ _ _ _ _).
      destruct (IH (alter (fun records => records ++ [fixup]) page recs))
        as (recs' & Hrun & Hlen & Hlook).
      { unfold len. rewrite length_alter. exact Hfit. }
      exists recs'. split; [exact Hrun|]. split.
      { rewrite Hlen. apply length_alter. }
      intros p. rewrite Hlook.
      destruct (decide (page = p)) as [<-|Hne].
      * rewrite list_lookup_alter_eq. rewrite bool_decide_eq_true_2 by reflexivity.
        destruct (recs !! page); cbn; [|reflexivity].
        rewrite <- app_assoc. reflexivity.
      * rewrite list_lookup_alter_ne by exact Hne.
        rewrite bool_decide_eq_false_2 by exact Hne. reflexivity.
    + cbn [mbind result_bind bind]. apply IH. exact Hfit.
Qed.

Lemma synthesized_cons (page_size O : Z) (P : list byte)
    (instr : patch.Instruction) (instrs : list patch.Instruction)
    (r : le.FixupTuple) :
  synthesized page_size O P instrs r ->
  synthesized page_size O P (instr :: instrs) r.
Proof.
  intros (i & d & o & v & Hin & H). exists i, d, o, v.
  split; [apply list_elem_of_further, Hin|exact H].
Qed.

(** Whenever the loop over the decoded instructions ends, it has only
    appended records, each synthesized from one of the instructions. *)
Lemma add_fixups_appends (page_size O : Z) (P : list byte) :
  forall (instrs : list patch.Instruction)
         (fixup_records fixup_records' : list (list le.FixupTuple)),
    patch.add_fixups page_size O P fixup_records instrs = Ok fixup_records' ->
    length fixup_records' = length fixup_records
    /\ forall k l,
         fixup_records !! k = Some l ->
         exists new,
           fixup_records' !! k = Some (l ++ new)
           /\ Forall (synthesized page_size O P instrs) new.
Proof.
  induction instrs as [|instr rest IH]; intros recs recs' Hrun.
  - injection Hrun as <-. split; [reflexivity|]. intros k l Hl.
    exists []. rewrite app_nil_r. split; [exact Hl|constructor].
  - cbn [patch.add_fixups] in Hrun.
    destruct (Z.eq_dec page_size 0) as [->|Hps].
    { unfold patch.add_fixup in Hrun. cbn in Hrun. discriminate. }
    rewrite add_fixup_rule in Hrun by exact Hps.
    destruct (operand_rule instr) as [[delta objnum]|] eqn:E.
    + unfold patch.append_fixup in Hrun.
      destruct (utils.from_uint32_le _) as [d|e] eqn:Ed;
        cbn [mbind result_bind bind] in Hrun; [|discriminate].
      destruct (index_of recs _) as [i|e];
        cbn [mbind result_bind bind] in Hrun; [|discriminate].
      set (fixup := le.mkFixupTuple _ _ _ _ _ _) in Hrun.
      destruct (IH _ _ Hrun) as [Hlen Hlook]. split.
      { rewrite Hlen. apply length_alter. }
      intros k l Hl.
      assert (Hsyn : synthesized page_size O P (instr :: rest) fixup).
      { exists instr, delta, objnum, d. split; [apply list_elem_of_here|].
        split; [exact E|]. split; [exact Ed|reflexivity]. }
      destruct (decide (i = k)) as [<-|Hne].
      * destruct (Hlook i (l ++ [fixup])) as (new & Hnew & Hall).
        { rewrite list_lookup_alter_eq, Hl. reflexivity. }
        exists (fixup :: new). split.
        { rewrite Hnew, <- app_assoc. reflexivity. }
        constructor; [exact Hsyn|].
        eapply Forall_impl; [exact Hall|]. intros r. apply synthesized_cons.
      * destruct (Hlook k l) as (new & Hnew & Hall).
        { rewrite list_lookup_alter_ne by exact Hne. exact Hl. }
        exists new. split; [exact Hnew|].
        eapply Forall_impl; [exact Hall|]. intros r. apply synthesized_cons.
    + cbn [mbind result_bind bind] in Hrun.
      destruct (IH _ _ Hrun) as [Hlen Hlook]. split; [exact Hlen|].
      intros k l Hl. destruct (Hlook k l Hl) as (new & Hnew & Hall).
      exists new. split; [exact Hnew|].
      eapply Forall_impl; [exact Hall|]. intros r. apply synthesized_cons.
Qed.

(** C2: when the patch engine applies a CodePatch with payload [P] at
    absolute offset [O] (with room in the payload for every operand dword
    and a page for every record), it goes through, and page [p] then holds
    the records the removal step kept followed by one new fix_32off_32
    record, src 0x7, flags 0x10, for every decoded instruction of the
    supported table whose page [(O + ip) / page_size] is [p], with
    [srcoff = (O + ip) mod page_size + operand_offset], the object of the
    table and the dword at [P[ip + operand_offset ..]] as data, in the order
    of the instructions, and nothing for any other instruction. *)
Theorem code_patch_new_fixups
    (Decoder : Z -> list byte -> list patch.Instruction) (page_size : Z)
    (fixup_records : list (list le.FixupTuple)) (page_data P : list byte)
    (O : Z) :
  0 < page_size -> 0 <= O ->
  Forall (fixups_fit page_size O P (len fixup_records)) (Decoder 32 P) ->
  exists fixup_records',
    patch.apply_code_patch Decoder page_size (fixup_records, page_data) (P, O)
    = Ok (fixup_records', patch.splice page_data P O)
    /\ length fixup_records' = length fixup_records
    /\ forall p records,
         fixup_records !! p = Some records ->
         fixup_records' !! p
         = Some (surviving page_size O (len P) (Z.of_nat p) records
                 ++ new_fixups_on page_size O P (Decoder 32 P) p).
Proof.
  intros Hps HO Hfit. unfold patch.apply_code_patch.
  rewrite remove_fixups_surviving. cbn [mbind result_bind bind].
  set (kept := imap _ fixup_records).
  destruct (add_fixups_new page_size O P Hps HO (Decoder 32 P) kept)
    as (recs' & Hrun & Hlen & Hlook).
  { unfold kept, len. rewrite length_imap. exact Hfit. }
  exists recs'. rewrite Hrun. cbn [mbind result_bind bind].
  split; [reflexivity|]. split.
  { rewrite Hlen. unfold kept. apply length_imap. }
  intros p records Hp. rewrite Hlook. unfold kept.
  rewrite list_lookup_imap, Hp. reflexivity.
Qed.

Lemma code_patch_new_fixups_witness :
  exists fixup_records',
    patch.apply_code_patch Decoder_sample 4096 (sample_records, sample_pages)
      (sample_payload, 4110)
    = Ok (fixup_records', patch.splice sample_pages sample_payload 4110)
    /\ fixup_records' !! 1%nat
       = Some [le.mkFixupTuple "fix_32off_16" 7 0 0 0x20 (Some 0x30);
               le.mkFixupTuple "fix_32off_32" 7 16 2 15 (Some 0x52010)].
Proof.
  destruct (code_patch_new_fixups Decoder_sample 4096 sample_records
              sample_pages sample_payload 4110) as (recs' & Hrun & _ & Hlook).
  - lia.
  - lia.
  - change (Decoder_sample 32 sample_payload)
      with [patch.mkInstruction 0 patch.MOV_EAX_MOFFS32 0x52010;
            patch.mkInstruction 5 patch.NOPD 0;
            patch.mkInstruction 6 patch.RETND 0].
    repeat apply Forall_cons_2; try apply Forall_nil_2;
      (split; [cbn [patch.ip]; lia|]); intros delta objnum H; vm_compute in H;
      try discriminate H; injection H as <- <-;
      (split; [vm_compute; discriminate|vm_compute; reflexivity]).
  - exists recs'. split; [exact Hrun|].
    rewrite (Hlook 1%nat _ eq_refl). vm_compute. reflexivity.
Defined.

(** ** The patched range *)

(** C3, as the spec states it, fails: page 0 holds a decoded record with
    source offset 0x2000, absolute address 0x2000; a patch of one byte at
    0x2000 passes page 0 over, since [0 + 4096 < 0x2000], and the record
    is still there afterwards, inside the patched range. *)
Lemma far_record_counterexample :
  mapM le.fixups_decode far_record_bytes = Ok [[far_record]; []; []]
  /\ patch.apply_code_patch Decoder_sample 4096
       ([[far_record]; []; []], sample_pages) ([x90], 0x2000)
     = Ok ([[far_record]; []; []], patch.splice sample_pages [x90] 0x2000)
  /\ 0x2000 <= 0 * 4096 + le.srcoff far_record < 0x2000 + len [x90].
Proof.
  split; [vm_compute; reflexivity|].
  split; [vm_compute; reflexivity|].
  split; [vm_compute; discriminate|vm_compute; reflexivity].
Qed.

(** C3, amended: after the patch engine applies a CodePatch of payload
    length L at absolute offset O, every page holds the records the removal
    step kept of its original ones, followed by newly synthesized records
    only; no kept record whose source offset lies between 0 and [page_size]
    has its absolute address [page_index * page_size + srcoff] in
    [[O, O + L)]. *)
Theorem patched_range_removal
    (Decoder : Z -> list byte -> list patch.Instruction) (page_size : Z)
    (fixup_records fixup_records' : list (list le.FixupTuple))
    (page_data page_data' P : list byte) (O : Z) :
  patch.apply_code_patch Decoder page_size (fixup_records, page_data) (P, O)
  = Ok (fixup_records', page_data') ->
  length fixup_records' = length fixup_records
  /\ forall i records,
       fixup_records !! i = Some records ->
       exists new,
         fixup_records' !! i
         = Some (surviving page_size O (len P) (Z.of_nat i) records ++ new)
         /\ Forall (synthesized page_size O P (Decoder 32 P)) new
         /\ forall r,
              r ∈ surviving page_size O (len P) (Z.of_nat i) records ->
              r ∈ records
              /\ (0 <= le.srcoff r <= page_size ->
                  ~ (O <= Z.of_nat i * page_size + le.srcoff r < O + len P)).
Proof.
  intros Hrun. unfold patch.apply_code_patch in Hrun.
  rewrite remove_fixups_surviving in Hrun. cbn [mbind result_bind bind] in Hrun.
  destruct (patch.add_fixups _ _ _ _ _) as [recs'|e] eqn:Hadd;
    cbn [mbind result_bind bind] in Hrun; [|discriminate].
  injection Hrun as <- _.
  destruct (add_fixups_appends _ _ _ _ _ _ Hadd) as [Hlen Hlook].
  split. { rewrite Hlen. apply length_imap. }
  intros i records Hi.
  destruct (Hlook i (surviving page_size O (len P) (Z.of_nat i) records))
    as (new & Hnew & Hall).
  { rewrite list_lookup_imap, Hi. reflexivity. }
  exists new. split; [exact Hnew|]. split; [exact Hall|].
  intros r. apply surviving_outside.
Qed.

Lemma patched_range_removal_witness :
  patch.apply_code_patch Decoder_sample 4096 (sample_records, sample_pages)
    (sample_payload, 4110)
  = Ok (sample_records_after, patch.splice sample_pages sample_payload 4110)
  /\ exists new,
       sample_records_after !! 1%nat
       = Some ([le.mkFixupTuple "fix_32off_16" 7 0 0 0x20 (Some 0x30)] ++ new)
       /\ Forall (synthesized 4096 4110 sample_payload
                    (Decoder_sample 32 sample_payload)) new.
Proof.
  assert (Hrun :
    patch.apply_code_patch Decoder_sample 4096 (sample_records, sample_pages)
      (sample_payload, 4110)
    = Ok (sample_records_after, patch.splice sample_pages sample_payload 4110))
    by (vm_compute; reflexivity).
  split; [exact Hrun|].
  destruct (patched_range_removal Decoder_sample 4096 sample_records _
              sample_pages _ sample_payload 4110 Hrun) as [_ H].
  destruct (H 1%nat _ eq_refl) as (new & Hnew & Hall & _).
  exists new. split; [exact Hnew|exact Hall].
Defined.

Lemma patch_replaces_exactly_witness :
  replaces_exactly sample_pages
    (patch.apply_data_patches sample_pages [(sample_payload, 4110)])
    sample_payload 4110
  /\ replaces_exactly sample_pages
       (patch.splice sample_pages sample_payload 4110) sample_payload 4110.
Proof.
  destruct (patch_replaces_exactly Decoder_sample 4096 sample_records
              sample_pages sample_payload 4110) as [Hd Hc].
  - lia.
  - vm_compute. discriminate.
  - split; [exact Hd|].
    apply (Hc sample_records_after). vm_compute. reflexivity.
Defined.

(** ** Blocks *)

Lemma Z_of_byte_of_Z_mod (z : Z) : Z_of_byte (byte_of_Z z) = z mod 256.
Proof.
  unfold byte_of_Z.
  pose proof (Z.mod_pos_bound z 256 ltac:(lia)) as Hm.
  destruct (Byte.of_N (Z.to_N (z mod 256))) as [x|] eqn:E.
  - apply Byte.to_of_N in E. unfold Z_of_byte. rewrite E. lia.
  - apply Byte.of_N_None_iff in E. lia.
Qed.

Lemma from_to_uint16 (v : Z) (bs : list byte) :
  utils.to_uint16_le (Some v) = Ok bs ->
  utils.from_uint16_le bs = Ok v /\ length bs = 2%nat.
Proof.
  unfold utils.to_uint16_le.
  destruct (Z.leb_spec 0 v); [|discriminate].
  destruct (Z.ltb_spec v 65536); [|discriminate].
  cbn [andb]. intros H'. injection H' as <-. split; [|reflexivity].
  cbn [utils.from_uint16_le]. rewrite !Z_of_byte_of_Z_mod. f_equal.
  Z.div_mod_to_equations. lia.
Qed.

Lemma from_to_uint32 (v : Z) (bs : list byte) :
  utils.to_uint32_le (Some v) = Ok bs ->
  utils.from_uint32_le bs = Ok v /\ length bs = 4%nat.
Proof.
  unfold utils.to_uint32_le.
  destruct (Z.leb_spec 0 v); [|discriminate].
  destruct (Z.ltb_spec v 4294967296); [|discriminate].
  cbn [andb]. intros H'. injection H' as <-. split; [|reflexivity].
  cbn [utils.from_uint32_le]. rewrite !Z_of_byte_of_Z_mod. f_equal.
  Z.div_mod_to_equations. lia.
Qed.

Lemma to_uint16_None (bs : list byte) : utils.to_uint16_le None <> Ok bs.
Proof. discriminate. Qed.

Lemma to_uint32_None (bs : list byte) : utils.to_uint32_le None <> Ok bs.
Proof. discriminate. Qed.

(** What a field writes is as wide as the field and reads back. *)
Lemma field_from_to (fd : mrc.field) (v : option Z) (bs : list byte) :
  mrc.to_bytes fd v = Ok bs ->
  len bs = mrc.size fd
  /\ mrc.from_bytes fd bs
     = Ok (match fd with mrc.Const _ => None | _ => v end)
  /\ match fd with mrc.Const _ => True | _ => is_Some v end.
Proof.
  destruct fd as [value| | |]; cbn [mrc.to_bytes mrc.from_bytes mrc.size].
  - intros H. injection H as <-. auto.
  - destruct v as [v|]; [|discriminate]. unfold append_byte.
    destruct (Z.leb_spec 0 v); [|discriminate].
    destruct (Z.ltb_spec v 256); [|discriminate].
    cbn [andb app]. intros H'. injection H' as <-.
    rewrite Z_of_byte_of_Z by lia. repeat split. eexists; reflexivity.
  - destruct v as [v|]; [|discriminate]. intros H.
    destruct (from_to_uint16 _ _ H) as [-> Hl]. cbn [mbind result_bind bind].
    unfold len. rewrite Hl. repeat split. eexists; reflexivity.
  - destruct v as [v|]; [|discriminate]. intros H.
    destruct (from_to_uint32 _ _ H) as [-> Hl]. cbn [mbind result_bind bind].
    unfold len. rewrite Hl. repeat split. eexists; reflexivity.
Qed.

Lemma slice_head_app {A} (l k : list A) : slice (l ++ k) 0 (len l) = l.
Proof.
  pose proof (len_nonneg l).
  rewrite slice_app_head by lia. apply slice_all.
Qed.

Lemma slice_from_app {A} (l k : list A) : slice_from (l ++ k) (len l) = k.
Proof.
  pose proof (len_nonneg l). rewrite slice_from_nonneg by lia.
  unfold len. rewrite Nat2Z.id. apply drop_app_length.
Qed.

Lemma slice_from_app_len {A} (l k : list A) (n : Z) :
  len l = n -> slice_from (l ++ k) n = k.
Proof. intros <-. apply slice_from_app. Qed.

(** A block read back from what [export_data] wrote has the attributes that
    were written. *)
Lemma import_export (cls : mrc.Block) (attrs : gmap string Z) :
  forall bs rest,
    mrc.export_data cls attrs = Ok bs ->
    len bs = mrc.get_size cls
    /\ exists attrs',
         mrc.import_data cls (bs ++ rest) = Ok attrs'
         /\ forall name, name ∈ attr_names cls ->
                         attrs' !! name = attrs !! name.
Proof.
  induction cls as [|[name fd] cls IH]; intros bs rest Hex.
  - injection Hex as <-. split; [reflexivity|]. exists ∅.
    split; [reflexivity|]. intros name Hin. inversion Hin.
  - cbn [mrc.export_data] in Hex.
    destruct (mrc.to_bytes fd (attrs !! name)) as [b1|e] eqn:Eb;
      cbn [mbind result_bind bind] in Hex; [|discriminate].
    destruct (mrc.export_data cls attrs) as [tl|e] eqn:Et;
      cbn [mbind result_bind bind] in Hex; [|discriminate].
    injection Hex as <-.
    destruct (field_from_to _ _ _ Eb) as (Hlen & Hfrom & Hsome).
    destruct (IH tl rest eq_refl) as (Htl & attrs' & Him & Hlook).
    split. { rewrite len_app. cbn [mrc.get_size]. lia. }
    cbn [mrc.import_data]. rewrite <- Hlen, <- app_assoc.
    rewrite slice_head_app, slice_from_app, Hfrom, Him.
    cbn [mbind result_bind bind].
    eexists. split; [reflexivity|]. intros n Hin.
    destruct fd as [value| | |]; cbn [attr_names] in Hin;
      [apply Hlook, Hin| | |];
      (destruct Hsome as [v Hv]; rewrite Hv;
       destruct (decide (name = n)) as [<-|Hne];
       [rewrite lookup_insert_eq; symmetry; exact Hv|];
       rewrite lookup_insert_ne by exact Hne;
       apply Hlook; apply elem_of_cons in Hin; destruct Hin; congruence).
Qed.

(** ** The writer *)

Ltac header_lookup :=
  repeat first
    [ rewrite lookup_insert_eq
    | rewrite lookup_insert_ne by discriminate
    | rewrite lookup_total_insert_eq
    | rewrite lookup_total_insert_ne by discriminate ].

Lemma update_header_lookup (h : gmap string Z) (mz_off le_off : Z)
    (pt rt blob : list byte) :
  let h' := patch.update_header h mz_off le_off pt rt blob in
  let fpt := h !!! "fixup_page_table_offset"%string in
  h' !! "fixup_record_table_offset"%string = Some (fpt + len pt)
  /\ h' !! "fixup_section_size"%string = Some (len pt + len rt)
  /\ h' !! "fixup_section_csum"%string = Some 0
  /\ h' !! "import_module_table_offset"%string = Some (fpt + (len pt + len rt))
  /\ h' !! "import_proc_table_offset"%string = Some (fpt + (len pt + len rt))
  /\ h' !! "data_pages_offset"%string
     = Some (le_off + (fpt + (len pt + len rt)) + len blob - mz_off)
  /\ h' !! "fixup_page_table_offset"%string
     = h !! "fixup_page_table_offset"%string.
Proof.
  unfold patch.update_header. cbv zeta. repeat split; header_lookup; reflexivity.
Qed.

Lemma export_attrs_some (cls : mrc.Block) (attrs : gmap string Z)
    (bs : list byte) :
  mrc.export_data cls attrs = Ok bs ->
  forall name, name ∈ attr_names cls -> is_Some (attrs !! name).
Proof.
  revert bs. induction cls as [|[n fd] cls IH]; intros bs Hex name Hin;
    [inversion Hin|].
  cbn [mrc.export_data] in Hex.
  destruct (mrc.to_bytes fd (attrs !! n)) as [b1|e] eqn:Eb;
    cbn [mbind result_bind bind] in Hex; [|discriminate].
  destruct (mrc.export_data cls attrs) as [tl|e] eqn:Et;
    cbn [mbind result_bind bind] in Hex; [|discriminate].
  destruct (field_from_to _ _ _ Eb) as (_ & _ & Hsome).
  destruct fd as [value| | |]; cbn [attr_names] in Hin;
    [eapply IH; eauto| | |];
    (apply elem_of_cons in Hin; destruct Hin as [->|Hin];
     [exact Hsome|eapply IH; eauto]).
Qed.

Ltac header_name := apply (bool_decide_unpack _); vm_compute; exact I.

(** C5: when the writer has rebuilt the output, the LE header read back
    from the output at [le_off] has [fixup_record_table_offset =
    fixup_page_table_offset + len(page table bytes)], [fixup_section_size =
    len(page table bytes) + len(record bytes)], [import_module_table_offset
    = fixup_page_table_offset + fixup_section_size],
    [import_proc_table_offset = import_module_table_offset],
    [data_pages_offset = le_off + import_module_table_offset +
    len(post_fixup_blob) - mz_off] and [fixup_section_csum = 0], where
    [post_fixup_blob], the bytes of the input from the original
    [import_module_table_offset] to the original [data_pages_offset],
    stands in the output as it was, between the records and the pages. *)
Theorem header_offset_consistency (f : list byte) (mz_off le_off : Z)
    (le_header : gmap string Z) (fixup_records : list (list le.FixupTuple))
    (page_data out : list byte) :
  0 <= le_off <= len f ->
  patch.write_output f mz_off le_off le_header fixup_records page_data = Ok out ->
  exists fixup_output page_table_bytes emitted fixup_page_table_offset,
    let record_bytes := concat fixup_output in
    let fixup_section_size := len page_table_bytes + len record_bytes in
    let import_module_table_offset :=
      fixup_page_table_offset + fixup_section_size in
    let post_fixup_blob :=
      slice f (le_off + le_header !!! "import_module_table_offset"%string)
        (mz_off + le_header !!! "data_pages_offset"%string) in
    mapM le.fixups_encode fixup_records = Ok fixup_output
    /\ mrc.export_uint32_stream (patch.page_offsets 0 fixup_output)
       = Ok page_table_bytes
    /\ mrc.import_data le.LEHeader (slice_from out le_off) = Ok emitted
    /\ le_header !! "fixup_page_table_offset"%string
       = Some fixup_page_table_offset
    /\ emitted !! "fixup_page_table_offset"%string
       = Some fixup_page_table_offset
    /\ emitted !! "fixup_record_table_offset"%string
       = Some (fixup_page_table_offset + len page_table_bytes)
    /\ emitted !! "fixup_section_size"%string = Some fixup_section_size
    /\ emitted !! "import_module_table_offset"%string
       = Some import_module_table_offset
    /\ emitted !! "import_proc_table_offset"%string
       = Some import_module_table_offset
    /\ emitted !! "data_pages_offset"%string
       = Some (le_off + import_module_table_offset + len post_fixup_blob
               - mz_off)
    /\ emitted !! "fixup_section_csum"%string = Some 0
    /\ exists head,
         out = head ++ page_table_bytes ++ record_bytes ++ post_fixup_blob
               ++ page_data.
Proof.
  intros Hle Hrun. unfold patch.write_output in Hrun.
  destruct (mapM le.fixups_encode fixup_records) as [fixup_output|e] eqn:Eout;
    cbn [mbind result_bind bind] in Hrun; [|discriminate].
  destruct (mrc.export_uint32_stream _) as [pt|e] eqn:Ept;
    cbn [mbind result_bind bind] in Hrun; [|discriminate].
  replace (le_off + (mz_off + le_header !!! "data_pages_offset"%string - le_off))
    with (mz_off + le_header !!! "data_pages_offset"%string) in Hrun by lia.
  set (blob := slice f (le_off + le_header !!! "import_module_table_offset"%string)
                 (mz_off + le_header !!! "data_pages_offset"%string)) in *.
  set (h' := patch.update_header le_header mz_off le_off pt
               (concat fixup_output) blob) in *.
  destruct (mrc.export_data le.LEHeader h') as [hdr|e] eqn:Ehdr;
    cbn [mbind result_bind bind] in Hrun; [|discriminate].
  injection Hrun as <-.
  match goal with
  | |- context [hdr ++ ?t] =>
      destruct (import_export le.LEHeader h' hdr t Ehdr)
        as (_ & emitted & Him & Hlook)
  end.
  destruct (update_header_lookup le_header mz_off le_off pt
              (concat fixup_output) blob)
    as (Hfrt & Hfss & Hcsum & Himto & Hipto & Hdpo & Hfpt).
  fold h' in Hfrt, Hfss, Hcsum, Himto, Hipto, Hdpo, Hfpt.
  assert (Hsome : is_Some (le_header !! "fixup_page_table_offset"%string)).
  { rewrite <- Hfpt.
    apply (export_attrs_some le.LEHeader h' hdr Ehdr). header_name. }
  destruct Hsome as [fpt Efpt].
  assert (Etot : le_header !!! "fixup_page_table_offset"%string = fpt).
  { rewrite lookup_total_alt, Efpt. reflexivity. }
  rewrite Etot in *.
  exists fixup_output, pt, emitted, fpt. cbv zeta.
  split; [reflexivity|]. split; [exact Ept|].
  split.
  { pose proof (len_nonneg f).
    rewrite (slice_from_app_len _ _ le_off); [exact Him|].
    rewrite slice_to_nonneg by lia. unfold len in *.
    rewrite length_take. lia. }
  split; [exact Efpt|].
  rewrite !Hlook by header_name.
  rewrite Hfpt, Hfrt, Hfss, Hcsum, Himto, Hipto, Hdpo.
  split; [exact Efpt|]. repeat (split; [reflexivity|]).
  eexists. rewrite !app_assoc. reflexivity.
Qed.


Lemma header_offset_consistency_witness :
  patch.write_output (sample_exe 1 "The Pandora Directive") 0 64
    (sample_header 1) [[S2_record]] (sample_data_pages "The Pandora Directive")
  = Ok (sample_exe 0 "The Pandora Directive")
  /\ exists emitted,
       mrc.import_data le.LEHeader
         (slice_from (sample_exe 0 "The Pandora Directive") 64) = Ok emitted
       /\ emitted !! "fixup_section_csum"%string = Some 0
       /\ emitted !! "fixup_section_size"%string = Some 17
       /\ emitted !! "import_module_table_offset"%string = Some (180 + 17).
Proof.
  assert (Hrun :
    patch.write_output (sample_exe 1 "The Pandora Directive") 0 64
      (sample_header 1) [[S2_record]] (sample_data_pages "The Pandora Directive")
    = Ok (sample_exe 0 "The Pandora Directive")) by (vm_compute; reflexivity).
  split; [exact Hrun|].
  assert (Hle : 0 <= 64 <= len (sample_exe 1 "The Pandora Directive"))
    by (vm_compute; split; discriminate).
  destruct (header_offset_consistency _ _ _ _ _ _ _ Hle Hrun)
    as (fo & pt & emitted & fpt & H).
  cbv zeta in H.
  destruct H as (Hfo & Hpt & Him & Hfpt & _ & _ & Hfss & Himto & _ & _ & Hcsum & _).
  vm_compute in Hfo. injection Hfo as <-.
  vm_compute in Hpt. injection Hpt as <-.
  vm_compute in Hfpt. injection Hfpt as <-.
  exists emitted. split; [exact Him|]. split; [exact Hcsum|].
  split; [exact Hfss|exact Himto].
Defined.


(** ** Slices of one buffer *)

Lemma slice_split {A} (l : list A) (a m e : Z) :
  0 <= a <= m -> m <= e -> slice l a m ++ slice l m e = slice l a e.
Proof.
  intros Ha He. rewrite !slice_nonneg by lia.
  replace (Z.to_nat m) with (Z.to_nat a + Z.to_nat (m - a))%nat by lia.
  rewrite <- drop_drop, take_take_drop. f_equal. lia.
Qed.

Lemma slice_to_slice {A} (l : list A) (e : Z) : 0 <= e -> slice_to l e = slice l 0 e.
Proof.
  intros He. rewrite slice_to_nonneg, slice_nonneg by lia.
  rewrite drop_0, Z.sub_0_r. reflexivity.
Qed.

Lemma slice_of_slice_from {A} (l : list A) (a x y : Z) :
  0 <= a -> 0 <= x -> 0 <= y ->
  slice (slice_from l a) x y = slice l (a + x) (a + y).
Proof.
  intros Ha Hx Hy. rewrite slice_from_nonneg, !slice_nonneg by lia.
  rewrite drop_drop. f_equal; [lia|]. f_equal. lia.
Qed.

Lemma slice_to_slice_from {A} (l : list A) (a n : Z) :
  0 <= a -> 0 <= n -> slice_to (slice_from l a) n = slice l a (a + n).
Proof.
  intros Ha Hn. rewrite slice_to_slice by lia.
  rewrite slice_of_slice_from by lia. f_equal. lia.
Qed.

Lemma slice_to_from {A} (l : list A) (a : Z) :
  0 <= a -> slice_to l a ++ slice_from l a = l.
Proof.
  intros Ha. rewrite slice_to_nonneg, slice_from_nonneg by lia.
  apply take_drop.
Qed.

Lemma len_slice {A} (l : list A) (a e : Z) :
  0 <= a <= e -> e <= len l -> len (slice l a e) = e - a.
Proof.
  intros Ha He. rewrite slice_nonneg by lia. unfold len in *.
  rewrite length_take, length_drop. lia.
Qed.

(** ** Blocks read from a buffer *)

Lemma to_from_uint16 (bs : list byte) (v : Z) :
  utils.from_uint16_le bs = Ok v ->
  utils.to_uint16_le (Some v) = Ok bs /\ len bs = 2.
Proof.
  destruct bs as [|b0 [|b1 [|b2 t]]]; try discriminate.
  intros H. injection H as <-. split; [apply to_uint16_le_from|reflexivity].
Qed.

Lemma to_from_uint32 (bs : list byte) (v : Z) :
  utils.from_uint32_le bs = Ok v ->
  utils.to_uint32_le (Some v) = Ok bs /\ len bs = 4.
Proof.
  destruct bs as [|b0 [|b1 [|b2 [|b3 [|b4 t]]]]]; try discriminate.
  intros H. injection H as <-. split; [apply to_uint32_le_from|reflexivity].
Qed.

(** What a field reads is as wide as the field and is written back; a
    constant reads anything. *)
Lemma field_to_from (fd : mrc.field) (bs : list byte) (v : option Z) :
  mrc.from_bytes fd bs = Ok v ->
  match fd with
  | mrc.Const _ => v = None
  | _ => len bs = mrc.size fd /\ is_Some v /\ mrc.to_bytes fd v = Ok bs
  end.
Proof.
  destruct fd as [value| | |]; cbn [mrc.to_bytes mrc.from_bytes mrc.size].
  - intros H. injection H as <-. reflexivity.
  - destruct bs as [|x [|y t]]; try discriminate.
    intros H. injection H as <-. split; [reflexivity|].
    split; [eexists; reflexivity|]. apply (append_byte_of [] x).
  - destruct (utils.from_uint16_le bs) as [z|e] eqn:E; [|discriminate].
    cbn [mbind result_bind bind]. intros H. injection H as <-.
    destruct (to_from_uint16 _ _ E) as [Ht Hl].
    split; [exact Hl|]. split; [eexists; reflexivity|exact Ht].
  - destruct (utils.from_uint32_le bs) as [z|e] eqn:E; [|discriminate].
    cbn [mbind result_bind bind]. intros H. injection H as <-.
    destruct (to_from_uint32 _ _ E) as [Ht Hl].
    split; [exact Hl|]. split; [eexists; reflexivity|exact Ht].
Qed.

(** [export_data] looks at the attributes of the class only. *)
Lemma export_ext (cls : mrc.Block) (a1 a2 : gmap string Z) :
  (forall name, name ∈ attr_names cls -> a1 !! name = a2 !! name) ->
  mrc.export_data cls a1 = mrc.export_data cls a2.
Proof.
  induction cls as [|[n fd] cls IH]; intros Hagree; [reflexivity|].
  cbn [mrc.export_data].
  rewrite IH.
  - destruct fd as [value| | |]; cbn [mrc.to_bytes]; try reflexivity;
      rewrite (Hagree n) by (cbn [attr_names]; apply list_elem_of_here);
      reflexivity.
  - intros name Hin. apply Hagree.
    destruct fd; cbn [attr_names]; [exact Hin| | |];
      apply list_elem_of_further, Hin.
Qed.

Lemma import_attrs (cls : mrc.Block) :
  forall buf attrs,
    mrc.import_data cls buf = Ok attrs ->
    forall name, name ∈ attr_names cls -> is_Some (attrs !! name).
Proof.
  induction cls as [|[n fd] cls IH]; intros buf attrs Hi name Hin;
    [inversion Hin|].
  cbn [mrc.import_data] in Hi.
  destruct (mrc.from_bytes fd _) as [v|e] eqn:Ev;
    cbn [mbind result_bind bind] in Hi; [|discriminate].
  destruct (mrc.import_data cls _) as [a|e] eqn:Ea;
    cbn [mbind result_bind bind] in Hi; [|discriminate].
  injection Hi as <-.
  pose proof (field_to_from _ _ _ Ev) as Hv.
  destruct fd as [value| | |]; cbn [attr_names] in Hin.
  - rewrite Hv. eapply IH; eauto.
  - destruct Hv as (_ & [z ->] & _).
    destruct (decide (n = name)) as [->|Hne]; [rewrite lookup_insert_eq; eauto|].
    rewrite lookup_insert_ne by exact Hne.
    apply elem_of_cons in Hin. destruct Hin as [->|Hin]; [congruence|].
    eapply IH; eauto.
  - destruct Hv as (_ & [z ->] & _).
    destruct (decide (n = name)) as [->|Hne]; [rewrite lookup_insert_eq; eauto|].
    rewrite lookup_insert_ne by exact Hne.
    apply elem_of_cons in Hin. destruct Hin as [->|Hin]; [congruence|].
    eapply IH; eauto.
  - destruct Hv as (_ & [z ->] & _).
    destruct (decide (n = name)) as [->|Hne]; [rewrite lookup_insert_eq; eauto|].
    rewrite lookup_insert_ne by exact Hne.
    apply elem_of_cons in Hin. destruct Hin as [->|Hin]; [congruence|].
    eapply IH; eauto.
Qed.

(** A block written back is the bytes it was read from. *)
Lemma export_import (cls : mrc.Block) :
  NoDup (attr_names cls) ->
  forall buf attrs,
    consts_match cls buf ->
    mrc.import_data cls buf = Ok attrs ->
    mrc.get_size cls <= len buf
    /\ mrc.export_data cls attrs = Ok (slice buf 0 (mrc.get_size cls)).
Proof.
  induction cls as [|[n fd] cls IH]; intros Hnd buf attrs Hc Hi.
  - cbn [mrc.get_size mrc.export_data]. split; [apply len_nonneg|].
    rewrite slice_nonneg by lia. reflexivity.
  - cbn [consts_match] in Hc. destruct Hc as [Hc0 Hc].
    cbn [mrc.import_data] in Hi.
    destruct (mrc.from_bytes fd _) as [v|e] eqn:Ev;
      cbn [mbind result_bind bind] in Hi; [|discriminate].
    destruct (mrc.import_data cls _) as [a|e] eqn:Ea;
      cbn [mbind result_bind bind] in Hi; [|discriminate].
    injection Hi as <-.
    pose proof (field_to_from _ _ _ Ev) as Hv0.
    assert (Hlen : len (slice buf 0 (mrc.size fd)) = mrc.size fd).
    { destruct fd; [rewrite Hc0; reflexivity|apply Hv0..]. }
    assert (Hv : match fd with
                 | mrc.Const _ =>
                     v = None
                     /\ forall w,
                          mrc.to_bytes fd w = Ok (slice buf 0 (mrc.size fd))
                 | _ =>
                     is_Some v
                     /\ mrc.to_bytes fd v = Ok (slice buf 0 (mrc.size fd))
                 end).
    { destruct fd;
        [split; [exact Hv0|intros w; rewrite Hc0; reflexivity]|apply Hv0..]. }
    clear Hv0 Hc0.
    assert (Hsz : 0 <= mrc.size fd) by (rewrite <- Hlen; apply len_nonneg).
    assert (Hfit : mrc.size fd <= len buf).
    { rewrite <- Hlen. rewrite slice_nonneg by lia. unfold len.
      rewrite length_take, length_drop. lia. }
    assert (Hnd' : NoDup (attr_names cls)).
    { destruct fd; cbn [attr_names] in Hnd; [exact Hnd| | |];
        apply NoDup_cons in Hnd; apply Hnd. }
    destruct (IH Hnd' _ _ Hc Ea) as [Hrest Hex].
    assert (Hrest_nonneg : 0 <= mrc.get_size cls).
    { clear. induction cls as [|[? fd] cls IHc]; cbn [mrc.get_size]; [lia|].
      assert (0 <= mrc.size fd)
        by (destruct fd; cbn [mrc.size]; [apply len_nonneg|lia..]).
      lia. }
    assert (Hlenfrom : len (slice_from buf (mrc.size fd)) = len buf - mrc.size fd).
    { rewrite slice_from_nonneg by lia. unfold len in *.
      rewrite length_drop. lia. }
    cbn [mrc.get_size mrc.export_data]. split; [lia|].
    rewrite slice_of_slice_from in Hex by lia.
    rewrite Z.add_0_r in Hex.
    assert (Hexa :
      mrc.export_data cls
        (match v with Some v0 => <[n:=v0]> a | None => a end)
      = Ok (slice buf (mrc.size fd) (mrc.size fd + mrc.get_size cls))).
    { rewrite <- Hex. apply export_ext. intros name Hin.
      destruct v as [v0|]; [|reflexivity].
      apply lookup_insert_ne. intros ->.
      destruct fd; cbn [attr_names] in Hnd;
        [destruct Hv as [Hv _]; discriminate| | |];
        apply NoDup_cons in Hnd; destruct Hnd as [Hnot _]; contradiction. }
    rewrite Hexa.
    assert (Hhead :
      mrc.to_bytes fd
        ((match v with Some v0 => <[n:=v0]> a | None => a end) !! n)
      = Ok (slice buf 0 (mrc.size fd))).
    { destruct fd as [value| | |].
      - destruct Hv as [_ Hv]. apply Hv.
      - destruct Hv as [[z ->] Hv]. rewrite lookup_insert_eq. exact Hv.
      - destruct Hv as [[z ->] Hv]. rewrite lookup_insert_eq. exact Hv.
      - destruct Hv as [[z ->] Hv]. rewrite lookup_insert_eq. exact Hv. }
    rewrite Hhead. cbn [mbind result_bind bind].
    rewrite slice_split by lia. reflexivity.
Qed.

(** The dwords of a page table written back are the bytes they came from. *)
Lemma export_import_uint32_stream (fuel : nat) :
  forall (bs : list byte) (vs : list Z),
    mrc.import_uint32_stream fuel bs = Ok vs ->
    mrc.export_uint32_stream vs = Ok bs /\ len bs = 4 * len vs.
Proof.
  induction fuel as [|fuel IH]; intros bs vs H.
  - destruct bs; [|discriminate]. injection H as <-. auto.
  - destruct bs as [|x t]; [injection H as <-; auto|].
    cbn [mrc.import_uint32_stream] in H.
    destruct (utils.from_uint32_le _) as [v|e] eqn:Ev;
      cbn [mbind result_bind bind] in H; [|discriminate].
    destruct (mrc.import_uint32_stream fuel _) as [vs'|e] eqn:Evs;
      cbn [mbind result_bind bind] in H; [|discriminate].
    injection H as <-.
    destruct (to_from_uint32 _ _ Ev) as [Ht Hl].
    destruct (IH _ _ Evs) as [Hex Hlen].
    cbn [mrc.export_uint32_stream]. rewrite Ht, Hex.
    cbn [mbind result_bind bind].
    rewrite slice_from_nonneg in * by lia.
    rewrite slice_nonneg in * by lia. rewrite drop_0 in *.
    change (Z.to_nat (4 - 0)) with 4%nat in *.
    change (Z.to_nat 4) with 4%nat in *.
    rewrite take_drop. split; [reflexivity|].
    rewrite <- (take_drop 4 (x :: t)) at 1. rewrite len_app, Hl, Hlen.
    rewrite len_cons. lia.
Qed.

(** ** Decoding, then encoding *)

(** When [fixups_decode] returns, the buffer is a valid stream. *)
Lemma decode_loop_valid (fuel : nat) :
  forall (B pre : list byte) (items recs : list le.FixupTuple),
    le.decode_loop fuel (pre ++ B) (len pre) items = Ok recs ->
    valid_stream B = true.
Proof.
  induction fuel as [|fuel IH]; intros B pre items recs H.
  - destruct B; [reflexivity|]. cbn [le.decode_loop] in H.
    rewrite len_app, len_cons in H. pose proof (len_nonneg B).
    destruct (Z.ltb_spec (len pre) (len pre + (1 + len B))); [discriminate|lia].
  - destruct B as [|src B1]; [reflexivity|].
    cbn [le.decode_loop] in H.
    destruct (Z.ltb_spec (len pre) (len (pre ++ src :: B1))) as [_|Hge];
      [|rewrite len_app, len_cons in Hge; pose proof (len_nonneg B1); lia].
    rewrite decode_one_app0 in H.
    destruct (le.decode_one (src :: B1) 0) as [[t q]|e] eqn:Eone;
      cbn [mbind result_bind bind] in H; [|discriminate].
    revert Eone. unfold le.decode_one.
    rewrite !getitem_nonneg, !slice_nonneg by lia.
    change (Z.to_nat (0 + 5 + 4 - (0 + 5))) with 4%nat.
    change (Z.to_nat (0 + 5 + 2 - (0 + 5))) with 2%nat.
    change (Z.to_nat (0 + 4 - (0 + 2))) with 2%nat.
    change (Z.to_nat (0 + 5)) with 5%nat.
    change (Z.to_nat (0 + 4)) with 4%nat.
    change (Z.to_nat (0 + 2)) with 2%nat.
    change (Z.to_nat (0 + 1)) with 1%nat.
    change (Z.to_nat 0) with 0%nat.
    destruct B1 as [|flags [|lo [|hi [|obj rest]]]];
      cbn [lookup list_lookup take drop utils.from_uint16_le
           mbind result_bind bind]; try discriminate.
    cbn [valid_stream].
    assert (Hnext : forall (r rest' : list byte) (t' : le.FixupTuple),
              src :: flags :: lo :: hi :: obj :: rest = r ++ rest' ->
              Ok (t', len r) = Ok (t, q) ->
              valid_stream rest' = true).
    { intros r rest' t' Hsplit Ht. injection Ht as -> <-.
      rewrite Hsplit, app_assoc, <- len_app in H.
      apply (IH _ _ _ _ H). }
    destruct (Z.eqb_spec (Z_of_byte src) 7) as [E7|N7];
      [|destruct (Z.eqb_spec (Z_of_byte src) 5) as [E5|N5];
        [|destruct (Z.eqb_spec (Z_of_byte src) 6) as [E6|N6]]].
    4: { destruct (Z.eqb_spec (Z_of_byte src) 2) as [E2|N2]; [|discriminate].
         intros Ht. apply (Hnext [src; flags; lo; hi; obj] rest _ eq_refl Ht). }
    all: destruct (Z.eqb_spec (Z_of_byte src) 2) as [E2|_]; [lia|].
    all: cbn [orb].
    all: destruct (Z.land (Z_of_byte flags) 16 =? 0); cbn [negb].
    all: try (destruct rest as [|d0 [|d1 rest']];
              cbn [take utils.from_uint16_le mbind result_bind bind];
              try discriminate;
              intros Ht;
              apply (Hnext [src; flags; lo; hi; obj; d0; d1] rest' _ eq_refl Ht)).
    all: destruct rest as [|d0 [|d1 [|d2 [|d3 rest']]]];
         cbn [take utils.from_uint32_le mbind result_bind bind];
         try discriminate;
         intros Ht;
         apply (Hnext [src; flags; lo; hi; obj; d0; d1; d2; d3] rest' _ eq_refl Ht).
Qed.

Lemma decode_encode (B : list byte) (recs : list le.FixupTuple) :
  le.fixups_decode B = Ok recs -> le.fixups_encode recs = Ok B.
Proof.
  intros Hd.
  pose proof (decode_loop_valid (length B) B [] [] recs Hd) as Hv.
  destruct (codec_round_trip_from (length B) B [] [] [] Hv ltac:(lia))
    as (recs' & Hd' & He).
  unfold le.fixups_decode in Hd. cbn [app len length] in Hd'.
  change (len []) with 0 in Hd'. cbn [app] in Hd, Hd'.
  rewrite Hd in Hd'. injection Hd' as ->. exact He.
Qed.

Lemma mapM_decode_encode (xs : list (list byte))
    (recs : list (list le.FixupTuple)) :
  mapM le.fixups_decode xs = Ok recs -> mapM le.fixups_encode recs = Ok xs.
Proof.
  revert recs. induction xs as [|x xs IH]; intros recs H.
  - injection H as <-. reflexivity.
  - cbn [mapM] in H.
    destruct (le.fixups_decode x) as [r|e] eqn:Ex;
      cbn [mbind result_bind bind] in H; [|discriminate].
    destruct (mapM le.fixups_decode xs) as [rs|e] eqn:Exs;
      cbn [mbind result_bind bind mret result_ret] in H; [|discriminate].
    injection H as <-. cbn [mapM].
    rewrite (decode_encode _ _ Ex), (IH _ eq_refl). reflexivity.
Qed.

(** ** The fixup tables of a canonical image *)

Lemma sorted_head_le_last (o : Z) (rest : list Z) (total : Z) :
  Sorted Z.le (o :: rest) -> last (o :: rest) = Some total -> o <= total.
Proof.
  revert o. induction rest as [|o1 rest IH]; intros o Hs Hl.
  - injection Hl as <-. lia.
  - apply Sorted_inv in Hs. destruct Hs as [Hs Hhd].
    apply HdRel_inv in Hhd. specialize (IH o1 Hs Hl). lia.
Qed.

(** The records of the pages, cut at non-decreasing offsets, are one run of
    the table, and their lengths give the offsets back. *)
Lemma record_slices_sorted (table : list byte) :
  forall (rest pre : list Z) (o total : Z) (xs : list (list byte)),
    patch.record_slices table (pre ++ o :: rest) (len pre) (length rest) = Ok xs ->
    Sorted Z.le (o :: rest) ->
    last (o :: rest) = Some total ->
    0 <= o -> total <= len table ->
    concat xs = slice table o total
    /\ patch.page_offsets o xs = o :: rest.
Proof.
  induction rest as [|o1 rest IH]; intros pre o total xs H Hs Hl Ho Ht.
  - injection H as <-. injection Hl as <-. cbn [concat patch.page_offsets].
    split; [|reflexivity]. rewrite slice_nonneg by lia.
    rewrite Z.sub_diag. reflexivity.
  - cbn [length patch.record_slices] in H.
    pose proof (len_nonneg pre) as Hp.
    replace (len pre) with (len pre + 0) in H at 1 by lia.
    rewrite !getitem_app in H by lia.
    rewrite !getitem_nonneg in H by lia.
    cbn [Z.to_nat lookup list_lookup mbind result_bind bind] in H.
    change (Z.to_nat 1) with 1%nat in H.
    cbn [Pos.to_nat Pos.iter_op Init.Nat.add lookup list_lookup
         mbind result_bind bind] in H.
    replace (pre ++ o :: o1 :: rest) with ((pre ++ [o]) ++ o1 :: rest) in H
      by (rewrite <- app_assoc; reflexivity).
    replace (len pre + 1) with (len (pre ++ [o])) in H
      by (rewrite len_app; reflexivity).
    destruct (patch.record_slices table _ _ _) as [xs'|e] eqn:Exs;
      cbn [mbind result_bind bind] in H; [|discriminate].
    injection H as <-.
    pose proof Hs as Hs0.
    apply Sorted_inv in Hs. destruct Hs as [Hs Hhd]. apply HdRel_inv in Hhd.
    assert (Hl' : last (o1 :: rest) = Some total) by exact Hl.
    pose proof (sorted_head_le_last _ _ _ Hs Hl') as Hle.
    destruct (IH _ _ _ _ Exs Hs Hl' ltac:(lia) Ht) as [Hc Hp'].
    cbn [concat patch.page_offsets]. rewrite Hc. split.
    + apply slice_split; lia.
    + rewrite len_slice by lia.
      replace (o + (o1 - o)) with o1 by lia. rewrite Hp'. reflexivity.
Qed.



Lemma lookup_total_Some (h : gmap string Z) (name : string) :
  is_Some (h !! name) -> h !! name = Some (h !!! name).
Proof. intros [v Hv]. rewrite lookup_total_alt, Hv. reflexivity. Qed.

Lemma update_header_other (h : gmap string Z) (mz_off le_off : Z)
    (pt rt blob : list byte) (name : string) :
  name ∉ ["fixup_record_table_offset"; "fixup_section_size";
          "fixup_section_csum"; "import_module_table_offset";
          "import_proc_table_offset"; "data_pages_offset"]%string ->
  patch.update_header h mz_off le_off pt rt blob !! name = h !! name.
Proof.
  intros Hn. unfold patch.update_header. cbv zeta.
  repeat (rewrite lookup_insert_ne;
          [|intros <-; apply Hn; apply (bool_decide_unpack _); vm_compute;
            exact I]).
  reflexivity.
Qed.

Lemma LEHeader_names_NoDup : NoDup (attr_names le.LEHeader).
Proof. apply (bool_decide_unpack _). vm_compute. exact I. Qed.

(** On a canonical image the writer puts back every byte before the data
    pages. *)
(** The one constant of the header is its magic. *)
Lemma LEHeader_consts (buffer : list byte) :
  slice buffer 0 2 = le.b "LE" -> consts_match le.LEHeader buffer.
Proof.
  intros H. unfold le.LEHeader. cbn [consts_match]. split; [exact H|].
  repeat (split; [exact I|]). exact I.
Qed.

Lemma write_output_canonical (f : list byte) (mz_off le_off : Z)
    (h : gmap string Z) (offsets : list Z) (total : Z)
    (xs : list (list byte)) (recs : list (list le.FixupTuple))
    (page_data : list byte) :
  slice (slice_from f le_off) 0 2 = le.b "LE" ->
  mrc.import_data le.LEHeader (slice_from f le_off) = Ok h ->
  le.FixupPageTable
    (slice_to (slice_from f (le_off + h !!! "fixup_page_table_offset"%string))
       (4 * (h !!! "module_num_pages"%string + 1))) = Ok offsets ->
  patch.record_slices
    (slice_from f (le_off + h !!! "fixup_record_table_offset"%string))
    offsets 0 (Z.to_nat (h !!! "module_num_pages"%string)) = Ok xs ->
  mapM le.fixups_decode xs = Ok recs ->
  canonical f mz_off le_off h offsets total ->
  patch.write_output f mz_off le_off h recs page_data
  = Ok (slice_to f (mz_off + h !!! "data_pages_offset"%string) ++ page_data).
Proof.
  intros Hmagic Him Hpt Hxs Hdec
    (Hcsum & Hproc & Hn & Hfrt & Hfss & Himto & Hloader & Hle & Hdata
     & Hhead & Hlast & Hsorted).
  set (n := h !!! "module_num_pages"%string) in *.
  set (fpt := h !!! "fixup_page_table_offset"%string) in *.
  set (frt := h !!! "fixup_record_table_offset"%string) in *.
  set (fss := h !!! "fixup_section_size"%string) in *.
  set (imto := h !!! "import_module_table_offset"%string) in *.
  set (dpo := h !!! "data_pages_offset"%string) in *.
  change (mrc.get_size le.LEHeader) with 176 in Hloader.
  destruct offsets as [|o rest]; [discriminate|].
  injection Hhead as ->.
  pose proof (sorted_head_le_last _ _ _ Hsorted Hlast) as Htotal.
  pose proof (len_nonneg f) as Hf.
  (* the page table *)
  rewrite slice_to_slice_from in Hpt by lia.
  unfold le.FixupPageTable in Hpt.
  destruct (export_import_uint32_stream _ _ _ Hpt) as [Hexpt Hlenpt].
  rewrite len_slice in Hlenpt by lia.
  assert (Hrest : length rest = Z.to_nat n).
  { rewrite len_cons in Hlenpt. unfold len in Hlenpt. lia. }
  (* the records *)
  rewrite <- Hrest in Hxs.
  assert (Htable : len (slice_from f (le_off + frt)) = len f - (le_off + frt)).
  { rewrite slice_from_nonneg by lia. unfold len in *.
    rewrite length_drop. lia. }
  destruct (record_slices_sorted _ rest [] 0 total xs Hxs Hsorted Hlast
              ltac:(lia) ltac:(lia)) as [Hconcat Hoffsets].
  rewrite slice_of_slice_from in Hconcat by lia.
  rewrite Z.add_0_r in Hconcat.
  replace (le_off + frt + total) with (le_off + imto) in Hconcat by lia.
  pose proof (mapM_decode_encode _ _ Hdec) as Henc.
  (* the header *)
  destruct (export_import _ LEHeader_names_NoDup _ _
              (LEHeader_consts _ Hmagic) Him) as [Hsize Hexh].
  change (mrc.get_size le.LEHeader) with 176 in Hsize, Hexh.
  rewrite slice_of_slice_from in Hexh by lia.
  rewrite Z.add_0_r in Hexh.
  assert (Hlenfrom : len (slice_from f le_off) = len f - le_off).
  { rewrite slice_from_nonneg by lia. unfold len in *.
    rewrite length_drop. lia. }
  pose proof (import_attrs _ _ _ Him) as Hattrs.
  unfold patch.write_output.
  rewrite Henc. cbn [mbind result_bind bind].
  rewrite Hoffsets, Hexpt. cbn [mbind result_bind bind].
  fold imto dpo.
  replace (le_off + (mz_off + dpo - le_off)) with (mz_off + dpo) by lia.
  set (ptb := slice f (le_off + fpt) (le_off + fpt + 4 * (n + 1))) in *.
  set (blob := slice f (le_off + imto) (mz_off + dpo)).
  set (h' := patch.update_header h mz_off le_off ptb (concat xs) blob).
  assert (Hlenptb : len ptb = 4 * (n + 1)).
  { unfold ptb. rewrite len_slice by lia. lia. }
  assert (Hlenrec : len (concat xs) = total).
  { rewrite Hconcat, len_slice by lia. lia. }
  assert (Hlenblob : len blob = mz_off + dpo - (le_off + imto)).
  { unfold blob. rewrite len_slice by lia. lia. }
  destruct (update_header_lookup h mz_off le_off ptb (concat xs) blob)
    as (Ufrt & Ufss & Ucsum & Uimto & Uipto & Udpo & Ufpt).
  fold h' fpt in Ufrt, Ufss, Ucsum, Uimto, Uipto, Udpo, Ufpt.
  assert (Hagree : forall name, name ∈ attr_names le.LEHeader ->
                                h' !! name = h !! name).
  { intros name Hin.
    destruct (decide (name ∈ ["fixup_record_table_offset"; "fixup_section_size";
                              "fixup_section_csum"; "import_module_table_offset";
                              "import_proc_table_offset"; "data_pages_offset"]%string))
      as [Hsix|Hother]; [|apply update_header_other, Hother].
    rewrite (lookup_total_Some h name) by (apply Hattrs, Hin).
    repeat (apply elem_of_cons in Hsix; destruct Hsix as [->|Hsix]);
      [rewrite Ufrt|rewrite Ufss|rewrite Ucsum|rewrite Uimto|rewrite Uipto
      |rewrite Udpo|inversion Hsix];
      f_equal; fold frt fss imto dpo; rewrite ?Hcsum, ?Hproc; fold imto; lia. }
  rewrite (export_ext _ _ _ Hagree), Hexh. cbn [mbind result_bind bind].
  assert (Hfpt' : h' !!! "fixup_page_table_offset"%string = fpt).
  { unfold fpt. rewrite !lookup_total_alt, Ufpt. reflexivity. }
  rewrite Hfpt'. change (mrc.get_size le.LEHeader) with 176.
  f_equal. rewrite Hconcat.
  rewrite !app_assoc. f_equal.
  rewrite slice_to_slice by lia. rewrite (slice_to_slice f (mz_off + dpo)) by lia.
  unfold ptb, blob.
  replace (le_off + fpt + 4 * (n + 1)) with (le_off + frt) by lia.
  rewrite !slice_split by lia. reflexivity.
Qed.

(** ** The null patch *)

(** C4, as the spec states it, fails: the sample executable with a fixup
    checksum of 1, which is The Pandora Directive and so gets no credit
    string, comes out with the checksum zeroed. *)
Lemma null_patch_checksum_counterexample :
  patch_sample (sample_exe 1 "The Pandora Directive")
  = Ok (sample_exe 0 "The Pandora Directive")
  /\ sample_exe 0 "The Pandora Directive" <> sample_exe 1 "The Pandora Directive".
Proof.
  split; [vm_compute; reflexivity|].
  intros H. apply (f_equal (fun l => l !! 116%nat)) in H.
  vm_compute in H. discriminate H.
Qed.

(** The magic of the header is not checked either: the sample executable
    with XX in the place of LE goes through and comes out with LE. *)
Lemma null_patch_magic_rewritten :
  patch_sample
    (patch.splice (sample_exe 0 "The Pandora Directive") (le.b "XX") 64)
  = Ok (sample_exe 0 "The Pandora Directive").
Proof. vm_compute. reflexivity. Qed.

(** An object table cut short by the end of the file does not stop the
    patcher either: the sample executable with one object whose entry
    starts ten bytes before the end of the file goes through. *)
Lemma null_patch_short_object_table :
  le.ObjectTable
    (slice_from (sample_exe 0 "The Pandora Directive")
       (len (sample_exe 0 "The Pandora Directive") - 10))
  = Ok [mrc.Unknown (replicate 10 x20)]
  /\ is_ok
       (patch_sample
          (patch.splice
             (patch.splice (sample_exe 0 "The Pandora Directive")
                (dword (len (sample_exe 0 "The Pandora Directive") - 74)) 128)
             (dword 1) 132)) = true.
Proof. split; vm_compute; reflexivity. Qed.

(** A stream of blocks never raises: what the class cannot read becomes an
    [Unknown] block. *)
Lemma import_block_stream_ok (cls : mrc.Block) :
  0 < mrc.get_size cls ->
  forall (fuel : nat) (buffer : list byte),
    (length buffer <= fuel)%nat ->
    is_ok (mrc.import_block_stream fuel cls buffer) = true.
Proof.
  intros Hsz. induction fuel as [|fuel IH]; intros buffer Hf.
  - destruct buffer; [reflexivity|simpl in Hf; lia].
  - destruct buffer as [|x buffer]; [reflexivity|].
    cbn [mrc.import_block_stream].
    destruct (mrc.import_data cls (x :: buffer)); [|reflexivity].
    assert (Hrest : (length (slice_from (x :: buffer) (mrc.get_size cls))
                     <= fuel)%nat).
    { rewrite slice_from_nonneg by lia. rewrite length_drop.
      simpl in Hf |- *. lia. }
    specialize (IH _ Hrest).
    destruct (mrc.import_block_stream fuel cls _); [reflexivity|discriminate].
Qed.

Lemma ObjectTable_ok (buffer : list byte) :
  is_ok (le.ObjectTable buffer) = true.
Proof.
  apply import_block_stream_ok; [reflexivity|]. apply Nat.le_refl.
Qed.

Lemma ObjectPageTable_ok (buffer : list byte) :
  is_ok (le.ObjectPageTable buffer) = true.
Proof.
  apply import_block_stream_ok; [reflexivity|]. apply Nat.le_refl.
Qed.

(** [find_offset] raises nothing but [DataNotFound]. *)
Lemma find_offset_raises (page_data : list byte) (p : re.pattern)
    (offset : Z) (description : string) (e : exn) :
  patch.find_offset page_data p offset description = Raise e ->
  e = DataNotFound.
Proof.
  unfold patch.find_offset. destruct p as [|nd p]; [congruence|].
  destruct (utils.grep (nd :: p) page_data) as [|m rest]; [congruence|].
  destruct (1 <? len (m :: rest)); congruence.
Qed.

(** C4, amended: running the patcher with all optional flags disabled on an
    executable that starts its header with LE and whose header and fixup
    tables already have the layout the writer produces, whose fixup records
    decode and whose title screen names one of the two games, goes through
    and gives an output byte-identical to the input, except for the
    credit-string replacement: for Under a Killing Moon, when the credits
    line is found, the data pages of the output are those of the input
    with the credit string spliced in at the line. *)
Theorem null_patch_identity
    (Decoder : Z -> list byte -> list patch.Instruction)
    (assemble_x86 : list patch.Instruction -> list byte)
    (mouselook_patches :
       list byte -> string -> bool -> result (list (list byte * Z)))
    (f : list byte) (mz_off le_off : Z) (h : gmap string Z)
    (offsets : list Z) (total : Z) (xs : list (list byte))
    (recs : list (list le.FixupTuple)) (name version language : string) :
  le.search_for_le f = Ok (mz_off, le_off) ->
  slice (slice_from f le_off) 0 2 = le.b "LE" ->
  mrc.import_data le.LEHeader (slice_from f le_off) = Ok h ->
  le.FixupPageTable
    (slice_to (slice_from f (le_off + h !!! "fixup_page_table_offset"%string))
       (4 * (h !!! "module_num_pages"%string + 1))) = Ok offsets ->
  patch.record_slices
    (slice_from f (le_off + h !!! "fixup_record_table_offset"%string))
    offsets 0 (Z.to_nat (h !!! "module_num_pages"%string)) = Ok xs ->
  mapM le.fixups_decode xs = Ok recs ->
  canonical f mz_off le_off h offsets total ->
  let data_pages := mz_off + h !!! "data_pages_offset"%string in
  let page_data := slice_from f data_pages in
  patch.detect_version page_data = Ok (name, version, language) ->
  exists out,
    patch.patch Decoder assemble_x86 mouselook_patches f false false false
    = Ok out
    /\ (name <> "Under a Killing Moon"%string -> out = f)
    /\ (name = "Under a Killing Moon"%string ->
        match patch.find_offset page_data (re.lit "and developed by") 0
                "opening credits" with
        | Ok credit_offset =>
            out = slice_to f data_pages
                  ++ patch.splice page_data patch.credit_data credit_offset
        | Raise _ => out = f
        end).
Proof.
  intros Hsearch Hmagic Him Hpt Hxs Hdec Hcan data_pages page_data Hver.
  pose proof Hcan as Hcan'.
  assert (Hwrite : forall pd,
            patch.write_output f mz_off le_off h recs pd
            = Ok (slice_to f data_pages ++ pd)).
  { intros pd. apply (write_output_canonical _ _ _ _ offsets total xs);
      assumption. }
  assert (Hnonneg : 0 <= data_pages).
  { destruct Hcan as (_ & _ & _ & _ & _ & Himto & Hloader & Hle & Hdata & _).
    change (mrc.get_size le.LEHeader) with 176 in Hloader.
    destruct Hcan' as (_ & _ & Hn & _ & Hfss & _ & _ & _ & _ & Hhead & Hlast & Hsorted).
    unfold data_pages.
    destruct offsets as [|o rest]; [discriminate|]. injection Hhead as ->.
    pose proof (sorted_head_le_last _ _ _ Hsorted Hlast). lia. }
  assert (Hsame : slice_to f data_pages ++ page_data = f)
    by (apply slice_to_from; exact Hnonneg).
  unfold patch.patch.
  rewrite Hsearch. cbn [mbind result_bind bind].
  rewrite Him. cbn [mbind result_bind bind].
  rewrite Hpt. cbn [mbind result_bind bind].
  rewrite Hxs. cbn [mbind result_bind bind].
  rewrite Hdec. cbn [mbind result_bind bind].
  pose proof (ObjectTable_ok
                (slice_to
                   (slice_from f (le_off + h !!! "obj_table_offset"%string))
                   (h !!! "obj_count"%string * 24))) as Hot.
  destruct (le.ObjectTable _) as [object_table|e]; [|discriminate].
  cbn [mbind result_bind bind].
  pose proof (ObjectPageTable_ok
                (slice_to
                   (slice_from f
                      (le_off + h !!! "obj_page_table_offset"%string))
                   (h !!! "module_num_pages"%string * 4))) as Hopt.
  destruct (le.ObjectPageTable _) as [object_page_table|e]; [|discriminate].
  cbn [mbind result_bind bind].
  fold data_pages page_data. rewrite Hver.
  cbn [mbind result_bind bind patch.apply_code_patches].
  destruct (String.eqb_spec name "Under a Killing Moon") as [->|Hname].
  - destruct (patch.find_offset page_data (re.lit "and developed by") 0 _)
      as [credit_offset|e] eqn:Hfind.
    + cbn [mbind result_bind bind patch.apply_data_patches].
      rewrite Hwrite. eexists. split; [reflexivity|].
      split; [congruence|]. intros _. reflexivity.
    + rewrite (find_offset_raises _ _ _ _ _ Hfind).
      cbn [mbind result_bind bind patch.apply_data_patches].
      rewrite Hwrite, Hsame. exists f. split; [reflexivity|].
      split; [congruence|]. intros _. reflexivity.
  - cbn [mbind result_bind bind patch.apply_data_patches].
    rewrite Hwrite, Hsame. exists f. split; [reflexivity|].
    split; [reflexivity|]. intros ->. contradiction.
Qed.

Lemma header_of_ok (f : list byte) (le_off : Z) :
  is_ok (mrc.import_data le.LEHeader (slice_from f le_off)) = true ->
  mrc.import_data le.LEHeader (slice_from f le_off) = Ok (header_of f le_off).
Proof.
  unfold header_of.
  destruct (mrc.import_data le.LEHeader (slice_from f le_off));
    [reflexivity|discriminate].
Qed.

Lemma killing_moon_run :
  patch.patch Decoder_sample no_assembler no_mouselook killing_moon_exe
    false false false = Ok killing_moon_out.
Proof. vm_compute. reflexivity. Qed.

Lemma killing_moon_le : le.search_for_le killing_moon_exe = Ok (0, 64).
Proof. vm_compute. reflexivity. Qed.

Lemma killing_moon_magic :
  slice (slice_from killing_moon_exe 64) 0 2 = le.b "LE".
Proof. vm_compute. reflexivity. Qed.

Lemma killing_moon_header :
  mrc.import_data le.LEHeader (slice_from killing_moon_exe 64)
  = Ok (header_of killing_moon_exe 64).
Proof. apply header_of_ok. vm_compute. reflexivity. Qed.

Lemma killing_moon_page_table :
  le.FixupPageTable
    (slice_to
       (slice_from killing_moon_exe
          (64 + header_of killing_moon_exe 64
                !!! "fixup_page_table_offset"%string))
       (4 * (header_of killing_moon_exe 64 !!! "module_num_pages"%string + 1)))
  = Ok [0; 9].
Proof. vm_compute. reflexivity. Qed.

Lemma killing_moon_record_slices :
  patch.record_slices
    (slice_from killing_moon_exe
       (64 + header_of killing_moon_exe 64
             !!! "fixup_record_table_offset"%string))
    [0; 9] 0
    (Z.to_nat (header_of killing_moon_exe 64 !!! "module_num_pages"%string))
  = Ok [S2_buffer].
Proof. vm_compute. reflexivity. Qed.

Lemma killing_moon_records :
  mapM le.fixups_decode [S2_buffer] = Ok [[S2_record]].
Proof. vm_compute. reflexivity. Qed.

Lemma killing_moon_canonical :
  canonical killing_moon_exe 0 64 (header_of killing_moon_exe 64) [0; 9] 9.
Proof.
  unfold canonical.
  repeat (split; [vm_compute; try reflexivity; try discriminate|]).
  - discriminate.
  - repeat constructor. vm_compute. discriminate.
Qed.

Lemma killing_moon_version :
  patch.detect_version
    (slice_from killing_moon_exe
       (0 + header_of killing_moon_exe 64 !!! "data_pages_offset"%string))
  = Ok ("Under a Killing Moon", "1.02", "UNKNOWN")%string.
Proof. vm_compute. reflexivity. Qed.

Lemma killing_moon_credits :
  patch.find_offset
    (slice_from killing_moon_exe
       (0 + header_of killing_moon_exe 64 !!! "data_pages_offset"%string))
    (re.lit "and developed by") 0 "opening credits" = Ok 55.
Proof. vm_compute. reflexivity. Qed.

Lemma null_patch_identity_witness :
  exists out,
    patch_sample killing_moon_exe = Ok out
    /\ out
       = slice_to killing_moon_exe
           (0 + header_of killing_moon_exe 64 !!! "data_pages_offset"%string)
         ++ patch.splice
              (slice_from killing_moon_exe
                 (0 + header_of killing_moon_exe 64
                      !!! "data_pages_offset"%string))
              patch.credit_data 55.
Proof.
  destruct (null_patch_identity Decoder_sample no_assembler no_mouselook
              killing_moon_exe 0 64 (header_of killing_moon_exe 64) [0; 9] 9
              [S2_buffer] [[S2_record]]
              "Under a Killing Moon" "1.02" "UNKNOWN"
              killing_moon_le killing_moon_magic killing_moon_header
              killing_moon_page_table killing_moon_record_slices
              killing_moon_records killing_moon_canonical killing_moon_version)
    as (out & Hrun & _ & Hcredit).
  specialize (Hcredit eq_refl).
  rewrite killing_moon_credits in Hcredit.
  exists out. split; [exact Hrun|exact Hcredit].
Defined.

(** * Further properties of the code *)

(** ** The fixup codec, both ways *)

Lemma byte_repr (z : Z) : 0 <= z < 256 -> exists x : byte, z = Z_of_byte x.
Proof. intros H. exists (byte_of_Z z). symmetry. apply Z_of_byte_of_Z, H. Qed.

Lemma append_byte_inv (buf buf' : list byte) (v : Z) :
  append_byte buf v = Ok buf' -> exists x : byte, v = Z_of_byte x /\ buf' = buf ++ [x].
Proof.
  unfold append_byte.
  destruct (Z.leb_spec 0 v); destruct (Z.ltb_spec v 256); simpl; try discriminate.
  intros [= <-]. exists (byte_of_Z v). split; [|reflexivity].
  symmetry. apply Z_of_byte_of_Z. lia.
Qed.

Lemma to_uint16_inv (v : option Z) (bs : list byte) :
  utils.to_uint16_le v = Ok bs ->
  exists b0 b1 : byte, v = Some (Z_of_byte b0 + 256 * Z_of_byte b1) /\ bs = [b0; b1].
Proof.
  destruct v as [v|]; [|discriminate]. intros H.
  destruct (from_to_uint16 v bs H) as [Hf Hl].
  destruct bs as [|b0 [|b1 [|? ?]]]; try discriminate.
  exists b0, b1. split; [|reflexivity]. simpl in Hf. congruence.
Qed.

Lemma to_uint32_inv (v : option Z) (bs : list byte) :
  utils.to_uint32_le v = Ok bs ->
  exists b0 b1 b2 b3 : byte,
    v = Some (Z_of_byte b0 + 256 * Z_of_byte b1
              + 65536 * Z_of_byte b2 + 16777216 * Z_of_byte b3)
    /\ bs = [b0; b1; b2; b3].
Proof.
  destruct v as [v|]; [|discriminate]. intros H.
  destruct (from_to_uint32 v bs H) as [Hf Hl].
  destruct bs as [|b0 [|b1 [|b2 [|b3 [|? ?]]]]]; try discriminate.
  exists b0, b1, b2, b3. split; [|reflexivity]. simpl in Hf. congruence.
Qed.


(** X1: whenever [fixups_decode] returns, on any buffer at all, the buffer
    is a valid concatenation of fixup records and [fixups_encode] of the
    records returned is the buffer again; on every other buffer
    [fixups_decode] raises. *)
Theorem fixups_encode_inverts_decode (B : list byte) (recs : list le.FixupTuple) :
  le.fixups_decode B = Ok recs ->
  valid_stream B = true /\ le.fixups_encode recs = Ok B.
Proof.
  intros H. split.
  - apply (decode_loop_valid (length B) B [] [] recs). exact H.
  - apply decode_encode, H.
Qed.

Lemma fixups_encode_inverts_decode_witness :
  le.fixups_decode (S3_buffer ++ S4_buffer)
  = Ok [le.mkFixupTuple "fix_32off_16" 7 0 0 0 (Some 66);
        le.mkFixupTuple "fix_16sel" 2 0 0 0 None]
  /\ valid_stream (S3_buffer ++ S4_buffer) = true
  /\ le.fixups_encode [le.mkFixupTuple "fix_32off_16" 7 0 0 0 (Some 66);
                       le.mkFixupTuple "fix_16sel" 2 0 0 0 None]
     = Ok (S3_buffer ++ S4_buffer).
Proof.
  split; [reflexivity|].
  apply (fixups_encode_inverts_decode (S3_buffer ++ S4_buffer)). reflexivity.
Defined.


(** What one turn of the encoder appends, and that the decoder reads it
    back. *)
Lemma encode_one_decode_one (buf buf' : list byte) (r : le.FixupTuple) :
  decodable r ->
  le.encode_one buf r = Ok buf' ->
  exists bs,
    buf' = buf ++ bs
    /\ 5 <= len bs
    /\ forall post, le.decode_one (bs ++ post) 0 = Ok (r, len bs).
Proof.
  destruct r as [i s f o so d]. unfold decodable. cbn [le.src le.flags le.id le.data].
  intros [Hid Hsel] He. unfold le.encode_one in He.
  cbn [le.src le.flags le.id le.data le.srcoff le.objnum] in He.
  destruct (append_byte buf s) as [b1|] eqn:E1; [|discriminate].
  apply append_byte_inv in E1 as (xs & -> & ->).
  cbn [mbind result_bind bind] in He.
  destruct (append_byte _ f) as [b2|] eqn:E2; [|discriminate].
  apply append_byte_inv in E2 as (xf & -> & ->).
  cbn [mbind result_bind bind] in He.
  destruct (utils.to_uint16_le (Some so)) as [b3|] eqn:E3; [|discriminate].
  apply to_uint16_inv in E3 as (lo & hi & [= ->] & ->).
  cbn [mbind result_bind bind] in He.
  destruct (append_byte _ (o + 1)) as [b4|] eqn:E4; [|discriminate].
  apply append_byte_inv in E4 as (xo & Ho & ->).
  assert (o = Z_of_byte xo - 1) as -> by lia. clear Ho.
  cbn [mbind result_bind bind] in He.
  unfold decoded_id in Hid.
  assert (Hrd : forall post rest,
             le.decode_one ([xs; xf; lo; hi; xo] ++ rest ++ post) 0
             = let src := Z_of_byte xs in
               let flags := Z_of_byte xf in
               let srcoff := Z_of_byte lo + 256 * Z_of_byte hi in
               let objnum := Z_of_byte xo - 1 in
               if src =? 7 then
                 if negb (Z.land flags 16 =? 0) then
                   fix_data ← utils.from_uint32_le (take 4 (rest ++ post));
                   Ok (le.mkFixupTuple "fix_32off_32" src flags objnum srcoff (Some fix_data), 9)
                 else
                   fix_data ← utils.from_uint16_le (take 2 (rest ++ post));
                   Ok (le.mkFixupTuple "fix_32off_16" src flags objnum srcoff (Some fix_data), 7)
               else if src =? 5 then
                 if negb (Z.land flags 16 =? 0) then
                   fix_data ← utils.from_uint32_le (take 4 (rest ++ post));
                   Ok (le.mkFixupTuple "fix_16off_32" src flags objnum srcoff (Some fix_data), 9)
                 else
                   fix_data ← utils.from_uint16_le (take 2 (rest ++ post));
                   Ok (le.mkFixupTuple "fix_16off_16" src flags objnum srcoff (Some fix_data), 7)
               else if src =? 6 then
                 if negb (Z.land flags 16 =? 0) then
                   fix_data ← utils.from_uint32_le (take 4 (rest ++ post));
                   Ok (le.mkFixupTuple "fix_1632ptr_32" src flags objnum srcoff (Some fix_data), 9)
                 else
                   fix_data ← utils.from_uint16_le (take 2 (rest ++ post));
                   Ok (le.mkFixupTuple "fix_1632ptr_16" src flags objnum srcoff (Some fix_data), 7)
               else if src =? 2 then
                 Ok (le.mkFixupTuple "fix_16sel" src flags objnum srcoff None, 5)
               else Raise RuntimeError).
  { intros post rest. decode_at0. rewrite drop_0.
    change (Z.to_nat (0 + 5 + 4 - (0 + 5))) with 4%nat.
    change (Z.to_nat (0 + 5 + 2 - (0 + 5))) with 2%nat.
    reflexivity. }
  cbv zeta in Hrd.
  destruct (Z_of_byte xs =? 7) eqn:E7;
    [|destruct (Z_of_byte xs =? 5) eqn:E5;
      [|destruct (Z_of_byte xs =? 6) eqn:E6;
        [|destruct (Z_of_byte xs =? 2) eqn:E2; [|discriminate]]]];
    destruct (negb (Z.land (Z_of_byte xf) 16 =? 0)) eqn:EF;
    injection Hid as <-;
    repeat match type of He with
           | context [le.id_in ?a ?b] =>
               let v := eval vm_compute in (le.id_in a b) in
               change (le.id_in a b) with v in He
           | context [String.eqb ?a ?b] =>
               let v := eval vm_compute in (String.eqb a b) in
               change (String.eqb a b) with v in He
           end;
    cbn iota in He.
  all: try (destruct (utils.to_uint32_le d) as [bd|] eqn:Ed; [|discriminate];
            apply to_uint32_inv in Ed as (d0 & d1 & d2 & d3 & -> & ->);
            injection He as <-;
            exists [xs; xf; lo; hi; xo; d0; d1; d2; d3];
            split; [rewrite <- !app_assoc; reflexivity|];
            split; [unfold len; simpl; lia|];
            intros post; specialize (Hrd post [d0; d1; d2; d3]);
            simpl in Hrd |- *; exact Hrd).
  all: try (destruct (utils.to_uint16_le d) as [bd|] eqn:Ed; [|discriminate];
            apply to_uint16_inv in Ed as (d0 & d1 & -> & ->);
            injection He as <-;
            exists [xs; xf; lo; hi; xo; d0; d1];
            split; [rewrite <- !app_assoc; reflexivity|];
            split; [unfold len; simpl; lia|];
            intros post; specialize (Hrd post [d0; d1]);
            simpl in Hrd |- *; exact Hrd).
  all: rewrite (Hsel eq_refl); injection He as <-;
       exists [xs; xf; lo; hi; xo];
       (split; [rewrite <- !app_assoc; reflexivity|]);
       (split; [unfold len; simpl; lia|]);
       intros post; specialize (Hrd post []);
       simpl in Hrd |- *; exact Hrd.
Qed.

Lemma encode_loop_decode_loop (recs : list le.FixupTuple) :
  Forall decodable recs ->
  forall (buf out : list byte),
    le.encode_loop buf recs = Ok out ->
    exists B,
      out = buf ++ B
      /\ forall (fuel : nat) (pre : list byte) (items : list le.FixupTuple),
           (length B <= fuel)%nat ->
           le.decode_loop fuel (pre ++ B) (len pre) items = Ok (items ++ recs).
Proof.
  induction 1 as [|r recs Hr _ IH]; intros buf out He.
  - injection He as <-. exists []. split; [rewrite app_nil_r; reflexivity|].
    intros fuel pre items _. rewrite !app_nil_r.
    destruct fuel; simpl; rewrite Z.ltb_irrefl; reflexivity.
  - cbn [le.encode_loop] in He.
    destruct (le.encode_one buf r) as [buf1|] eqn:E1; [|discriminate].
    cbn [mbind result_bind bind] in He.
    destruct (encode_one_decode_one _ _ _ Hr E1) as (bs & -> & H5 & Hd).
    destruct (IH _ _ He) as (B & -> & HB).
    exists (bs ++ B). split; [rewrite app_assoc; reflexivity|].
    intros fuel pre items Hfuel.
    rewrite length_app in Hfuel. unfold len in H5.
    destruct fuel as [|fuel]; [lia|].
    cbn [le.decode_loop].
    destruct (Z.ltb_spec (len pre) (len (pre ++ bs ++ B))) as [_|Hge];
      [|rewrite !len_app in Hge; pose proof (len_nonneg B); unfold len in *; lia].
    rewrite decode_one_app0, Hd. cbn [mbind result_bind bind].
    rewrite <- len_app, (app_assoc pre bs B), HB by lia.
    rewrite <- app_assoc. reflexivity.
Qed.

(** X2: when [fixups_encode] returns for a list of records each of which
    carries the id [fixups_decode] gives its source byte and flags (and no
    data word if it is a fix_16sel), [fixups_decode] of the bytes returns
    the same list of records. *)
Theorem fixups_decode_encode (recs : list le.FixupTuple) (B : list byte) :
  Forall decodable recs ->
  le.fixups_encode recs = Ok B ->
  le.fixups_decode B = Ok recs.
Proof.
  intros Hr He.
  destruct (encode_loop_decode_loop recs Hr [] B He) as (B' & -> & HB).
  apply (HB (length ([] ++ B')) [] []). reflexivity.
Qed.

Lemma fixups_decode_encode_witness :
  Forall decodable [S2_record; le.mkFixupTuple "fix_16sel" 2 0 1 16 None]
  /\ le.fixups_encode [S2_record; le.mkFixupTuple "fix_16sel" 2 0 1 16 None]
     = Ok (S2_buffer ++ [x02; x00; x10; x00; x02])
  /\ le.fixups_decode (S2_buffer ++ [x02; x00; x10; x00; x02])
     = Ok [S2_record; le.mkFixupTuple "fix_16sel" 2 0 1 16 None].
Proof.
  assert (H : Forall decodable [S2_record; le.mkFixupTuple "fix_16sel" 2 0 1 16 None]).
  { repeat apply Forall_cons_2; [| |apply Forall_nil_2];
      (split; [reflexivity|]); cbn; [discriminate|reflexivity]. }
  split; [exact H|]. split; [reflexivity|].
  apply (fixups_decode_encode _ _ H). reflexivity.
Defined.

Lemma encode_one_buf (buf : list byte) (r : le.FixupTuple) :
  le.encode_one buf r = x ← le.encode_one [] r; Ok (buf ++ x).
Proof.
  destruct r as [i s f o so d]. unfold le.encode_one, append_byte.
  cbn [le.src le.flags le.id le.data le.srcoff le.objnum].
  destruct ((0 <=? s) && (s <? 256)); [|reflexivity].
  cbn [mbind result_bind bind].
  destruct ((0 <=? f) && (f <? 256)); [|reflexivity].
  cbn [mbind result_bind bind].
  destruct (utils.to_uint16_le (Some so)); [|reflexivity].
  cbn [mbind result_bind bind].
  destruct ((0 <=? o + 1) && (o + 1 <? 256)); [|reflexivity].
  cbn [mbind result_bind bind].
  destruct (le.id_in i _).
  { destruct (utils.to_uint16_le d); [|reflexivity].
    cbn [mbind result_bind bind]. rewrite <- !app_assoc. reflexivity. }
  destruct (le.id_in i _).
  { destruct (utils.to_uint32_le d); [|reflexivity].
    cbn [mbind result_bind bind]. rewrite <- !app_assoc. reflexivity. }
  destruct (String.eqb i _); [|reflexivity].
  cbn [mbind result_bind bind]. rewrite <- !app_assoc. reflexivity.
Qed.

Lemma encode_loop_buf (recs : list le.FixupTuple) :
  forall buf,
    le.encode_loop buf recs = x ← le.encode_loop [] recs; Ok (buf ++ x).
Proof.
  induction recs as [|r recs IH]; intros buf.
  - simpl. rewrite app_nil_r. reflexivity.
  - cbn [le.encode_loop]. rewrite encode_one_buf.
    destruct (le.encode_one [] r) as [x|]; [|reflexivity].
    cbn [mbind result_bind bind].
    rewrite (IH (buf ++ x)), (IH x).
    destruct (le.encode_loop [] recs) as [y|]; [|reflexivity].
    cbn [mbind result_bind bind]. rewrite app_assoc. reflexivity.
Qed.

Lemma encode_loop_app (a b : list le.FixupTuple) :
  forall buf,
    le.encode_loop buf (a ++ b) = buf' ← le.encode_loop buf a; le.encode_loop buf' b.
Proof.
  induction a as [|r a IH]; intros buf; [reflexivity|].
  cbn [app le.encode_loop].
  destruct (le.encode_one buf r); [|reflexivity].
  cbn [mbind result_bind bind]. apply IH.
Qed.

(** X3: [fixups_encode] of two lists of records one after the other is
    the bytes of the first followed by the bytes of the second, and it
    raises what the first list raises, or else what the second raises. *)
Theorem fixups_encode_app (a b : list le.FixupTuple) :
  le.fixups_encode (a ++ b)
  = x ← le.fixups_encode a; y ← le.fixups_encode b; Ok (x ++ y).
Proof.
  unfold le.fixups_encode. rewrite encode_loop_app.
  destruct (le.encode_loop [] a) as [x|]; [|reflexivity].
  cbn [mbind result_bind bind]. apply encode_loop_buf.
Qed.

Lemma encode_one_encodable (buf buf' : list byte) (r : le.FixupTuple) :
  le.encode_one buf r = Ok buf' ->
  encodable r /\ 5 <= len buf' - len buf <= 9.
Proof.
  destruct r as [i s f o so d]. unfold encodable, le.encode_one.
  cbn [le.src le.flags le.id le.data le.srcoff le.objnum]. intros He.
  destruct (append_byte buf s) as [b1|] eqn:E1; [|discriminate].
  apply append_byte_inv in E1 as (xs & -> & ->).
  cbn [mbind result_bind bind] in He.
  destruct (append_byte _ (f)) as [b2|] eqn:E2; [|discriminate].
  apply append_byte_inv in E2 as (xf & -> & ->).
  cbn [mbind result_bind bind] in He.
  destruct (utils.to_uint16_le (Some so)) as [b3|] eqn:E3; [|discriminate].
  apply to_uint16_inv in E3 as (lo & hi & [= ->] & ->).
  cbn [mbind result_bind bind] in He.
  destruct (append_byte _ (o + 1)) as [b4|] eqn:E4; [|discriminate].
  apply append_byte_inv in E4 as (xo & -> & ->).
  cbn [mbind result_bind bind] in He.
  pose proof (Z_of_byte_range xs). pose proof (Z_of_byte_range xf).
  pose proof (Z_of_byte_range lo). pose proof (Z_of_byte_range hi).
  pose proof (Z_of_byte_range xo).
  fold known_ids_16 known_ids_32 in He. unfold le.id_in in He.
  destruct (bool_decide_reflect (i ∈ known_ids_16)) as [H16|_].
  { destruct (utils.to_uint16_le d) as [bd|] eqn:Ed; [|discriminate].
    apply to_uint16_inv in Ed as (d0 & d1 & -> & ->).
    injection He as <-.
    pose proof (Z_of_byte_range d0). pose proof (Z_of_byte_range d1).
    split; [repeat (split; [lia|]);
            left; split; [exact H16|eexists; split; [reflexivity|lia]]|].
    rewrite !len_app. unfold len. simpl. lia. }
  destruct (bool_decide_reflect (i ∈ known_ids_32)) as [H32|_].
  { destruct (utils.to_uint32_le d) as [bd|] eqn:Ed; [|discriminate].
    apply to_uint32_inv in Ed as (d0 & d1 & d2 & d3 & -> & ->).
    injection He as <-.
    pose proof (Z_of_byte_range d0). pose proof (Z_of_byte_range d1).
    pose proof (Z_of_byte_range d2). pose proof (Z_of_byte_range d3).
    split; [repeat (split; [lia|]);
            right; left; split; [exact H32|eexists; split; [reflexivity|lia]]|].
    rewrite !len_app. unfold len. simpl. lia. }
  destruct (String.eqb_spec i "fix_16sel") as [->|_]; [|discriminate].
  injection He as <-.
  split; [repeat (split; [lia|]); right; right; reflexivity|].
  rewrite !len_app. unfold len. simpl. lia.
Qed.

Lemma encode_loop_encodable (recs : list le.FixupTuple) :
  forall buf out,
    le.encode_loop buf recs = Ok out ->
    Forall encodable recs
    /\ 5 * len recs <= len out - len buf <= 9 * len recs.
Proof.
  induction recs as [|r recs IH]; intros buf out He.
  - injection He as <-. split; [constructor|]. unfold len. simpl. lia.
  - cbn [le.encode_loop] in He.
    destruct (le.encode_one buf r) as [b1|] eqn:E1; [|discriminate].
    cbn [mbind result_bind bind] in He.
    destruct (encode_one_encodable _ _ _ E1) as [Hr H1].
    destruct (IH _ _ He) as [Hrs H2].
    split; [constructor; assumption|]. rewrite len_cons. lia.
Qed.

(** X4: [fixups_encode] returns only for records whose source byte and
    flags are in range(256), whose source offset fits 16 bits, whose object
    number plus one is in range(256), and whose id is one of the seven
    known ids with a data word of the width the id names; every record
    takes between 5 and 9 bytes of the result. *)
Theorem fixups_encode_encodable (recs : list le.FixupTuple) (B : list byte) :
  le.fixups_encode recs = Ok B ->
  Forall encodable recs /\ 5 * len recs <= len B <= 9 * len recs.
Proof.
  intros He. destruct (encode_loop_encodable recs [] B He) as [H1 H2].
  split; [exact H1|]. change (len []) with 0 in H2. lia.
Qed.

Lemma fixups_encode_encodable_witness :
  le.fixups_encode [S2_record] = Ok S2_buffer
  /\ Forall encodable [S2_record]
  /\ 5 * len [S2_record] <= len S2_buffer <= 9 * len [S2_record].
Proof.
  split; [reflexivity|].
  apply (fixups_encode_encodable [S2_record] S2_buffer). reflexivity.
Defined.

(** X5: on a buffer of at least five bytes whose first byte is none of
    0x2, 0x5, 0x6 and 0x7, [fixups_decode] raises RuntimeError. *)
Theorem fixups_decode_unknown_source (B : list byte) (src : byte) :
  5 <= len B ->
  getitem B 0 = Ok src ->
  Z_of_byte src ∉ [2; 5; 6; 7] ->
  le.fixups_decode B = Raise RuntimeError.
Proof.
  intros H5 H0 Hsrc.
  destruct B as [|s [|f [|lo [|hi [|o rest]]]]];
    try (unfold len in H5; simpl in H5; lia).
  injection H0 as ->.
  unfold le.fixups_decode.
  cbn [length le.decode_loop].
  destruct (Z.ltb_spec 0 (len (src :: f :: lo :: hi :: o :: rest))) as [_|Hge];
    [|lia].
  decode_at0.
  destruct (Z.eqb_spec (Z_of_byte src) 7) as [E|_];
    [exfalso; apply Hsrc; rewrite E; set_solver|].
  destruct (Z.eqb_spec (Z_of_byte src) 5) as [E|_];
    [exfalso; apply Hsrc; rewrite E; set_solver|].
  destruct (Z.eqb_spec (Z_of_byte src) 6) as [E|_];
    [exfalso; apply Hsrc; rewrite E; set_solver|].
  destruct (Z.eqb_spec (Z_of_byte src) 2) as [E|_];
    [exfalso; apply Hsrc; rewrite E; set_solver|].
  reflexivity.
Qed.

Lemma fixups_decode_unknown_source_witness :
  le.fixups_decode [x08; x10; x34; x12; x03; xef; xbe; xad; xde]
  = Raise RuntimeError.
Proof.
  apply (fixups_decode_unknown_source _ x08).
  - vm_compute. discriminate.
  - reflexivity.
  - apply (bool_decide_unpack _). vm_compute. exact I.
Defined.

(** ** The LE locator *)

Lemma from_uint16_range (bs : list byte) (v : Z) :
  utils.from_uint16_le bs = Ok v -> 0 <= v < 65536.
Proof.
  destruct bs as [|b0 [|b1 [|? ?]]]; try discriminate. intros [= <-].
  pose proof (Z_of_byte_range b0). pose proof (Z_of_byte_range b1). lia.
Qed.

Lemma search_for_le_no_magic (exe : list byte) :
  slice exe 0 2 ∉ [le.b "MZ"; le.b "BW"] ->
  le.search_for_le exe = Raise RuntimeError.
Proof.
  intros H. unfold le.search_for_le.
  replace (2 * length exe + 513)%nat with (S (2 * length exe + 512)) by lia.
  cbn [le.search_loop].
  destruct (0 <? len exe); [|reflexivity].
  unfold le.search_step.
  rewrite slice_slice_0 by lia.
  rewrite bool_decide_eq_false_2 by exact H. reflexivity.
Qed.

(** X6: on a file whose first two bytes are neither MZ nor BW, the empty
    file among them, [search_for_le] raises RuntimeError, and so does
    [patch], whatever the flags, before it reads anything else. *)
Theorem search_for_le_not_executable (exe : list byte) :
  slice exe 0 2 ∉ [le.b "MZ"; le.b "BW"] ->
  le.search_for_le exe = Raise RuntimeError
  /\ forall (Decoder : Z -> list byte -> list patch.Instruction)
            (assemble_x86 : list patch.Instruction -> list byte)
            (mouselook_patches :
               list byte -> string -> bool -> result (list (list byte * Z)))
            (fix_speed mouselook invert_y : bool),
       patch.patch Decoder assemble_x86 mouselook_patches exe fix_speed
         mouselook invert_y = Raise RuntimeError.
Proof.
  intros H. pose proof (search_for_le_no_magic exe H) as Hs.
  split; [exact Hs|]. intros. unfold patch.patch. rewrite Hs. reflexivity.
Qed.

Lemma search_for_le_not_executable_witness :
  le.search_for_le (le.b "PK" ++ inner_header) = Raise RuntimeError
  /\ patch_sample (le.b "PK" ++ inner_header) = Raise RuntimeError.
Proof.
  destruct (search_for_le_not_executable (le.b "PK" ++ inner_header))
    as [H1 H2].
  - apply (bool_decide_unpack _). vm_compute. exact I.
  - split; [exact H1|]. apply H2.
Defined.

Lemma search_step_inl (exe : list byte) (ptr mz_off le_off : Z) :
  le.search_step exe ptr = Ok (inl (mz_off, le_off)) ->
  let header := slice exe mz_off (mz_off + 64) in
  mz_off = ptr
  /\ slice header 0 2 ∈ [le.b "MZ"; le.b "BW"]
  /\ utils.from_uint16_le (slice header 24 26) = Ok 64
  /\ utils.from_uint16_le (slice header 60 62) = Ok (le_off - mz_off)
  /\ 0 < le_off - mz_off < 65536.
Proof.
  unfold le.search_step.
  destruct (bool_decide_reflect
              (slice (slice exe ptr (ptr + 64)) 0 2 ∈ [le.b "MZ"; le.b "BW"]))
    as [Hm|_]; [|discriminate].
  destruct (utils.from_uint16_le (slice (slice exe ptr (ptr + 64)) 24 26))
    as [rto|] eqn:Er; [|discriminate].
  cbn [mbind result_bind bind].
  destruct (Z.eqb_spec rto 64) as [->|_].
  - destruct (utils.from_uint16_le (slice (slice exe ptr (ptr + 64)) 60 62))
      as [c|] eqn:Ec; [|discriminate].
    cbn [mbind result_bind bind].
    destruct (Z.eqb_spec c 0) as [->|Hc]; cbn [negb mbind result_bind bind].
    + destruct (utils.from_uint16_le (slice (slice exe ptr (ptr + 64)) 4 6));
        [|discriminate].
      cbn [mbind result_bind bind].
      destruct (utils.from_uint16_le (slice (slice exe ptr (ptr + 64)) 2 4));
        discriminate.
    + intros [= <- <-]. cbv zeta.
      replace (ptr + c - ptr) with c by lia.
      pose proof (from_uint16_range _ _ Ec). repeat split; auto; lia.
  - cbn [mbind result_bind bind].
    destruct (utils.from_uint16_le (slice (slice exe ptr (ptr + 64)) 4 6));
      [|discriminate].
    cbn [mbind result_bind bind].
    destruct (utils.from_uint16_le (slice (slice exe ptr (ptr + 64)) 2 4));
      discriminate.
Qed.

Lemma search_loop_result (fuel : nat) (exe : list byte) :
  forall ptr mz_off le_off,
    le.search_loop fuel exe ptr = Ok (mz_off, le_off) ->
    let header := slice exe mz_off (mz_off + 64) in
    mz_off < len exe
    /\ slice header 0 2 ∈ [le.b "MZ"; le.b "BW"]
    /\ utils.from_uint16_le (slice header 24 26) = Ok 64
    /\ utils.from_uint16_le (slice header 60 62) = Ok (le_off - mz_off)
    /\ 0 < le_off - mz_off < 65536.
Proof.
  induction fuel as [|fuel IH]; intros ptr mz_off le_off; cbn [le.search_loop].
  - destruct (ptr <? len exe); discriminate.
  - destruct (Z.ltb_spec ptr (len exe)) as [Hlt|_]; [|discriminate].
    destruct (le.search_step exe ptr) as [[[a b]|next]|] eqn:Es;
      cbn [mbind result_bind bind]; [| |discriminate].
    + intros [= -> ->]. apply search_step_inl in Es. cbv zeta in Es |- *.
      destruct Es as (-> & Es). split; [exact Hlt|exact Es].
    + apply IH.
Qed.

(** X7: when [search_for_le] returns [(mz_off, le_off)], [mz_off] is a
    position before the end of the file, the 64 bytes it read there start
    with MZ or BW, hold 0x40 at 0x18 and, at 0x3c, the distance from
    [mz_off] to [le_off], which is between 1 and 65535. *)
Theorem search_for_le_result (exe : list byte) (mz_off le_off : Z) :
  le.search_for_le exe = Ok (mz_off, le_off) ->
  let header := slice exe mz_off (mz_off + 64) in
  mz_off < len exe
  /\ slice header 0 2 ∈ [le.b "MZ"; le.b "BW"]
  /\ utils.from_uint16_le (slice header 24 26) = Ok 64
  /\ utils.from_uint16_le (slice header 60 62) = Ok (le_off - mz_off)
  /\ 0 < le_off - mz_off < 65536.
Proof. apply search_loop_result. Qed.

Lemma search_for_le_result_witness :
  le.search_for_le nested_image = Ok (64, 128)
  /\ 64 < len nested_image
  /\ utils.from_uint16_le (slice (slice nested_image 64 (64 + 64)) 60 62)
     = Ok (128 - 64).
Proof.
  split; [reflexivity|].
  pose proof (search_for_le_result nested_image 64 128 eq_refl) as H.
  cbv zeta in H. destruct H as (H1 & _ & _ & H2 & _).
  split; [exact H1|exact H2].
Defined.

(** ** Splicing *)

Lemma len_take_Z {A} (l : list A) (n : Z) :
  0 <= n <= len l -> len (take (Z.to_nat n) l) = n.
Proof. intros H. unfold len in *. rewrite length_take. lia. Qed.

(** X11: a patch spliced in at a non-negative offset never fails: it lands
    at the offset, or at the end of the data if the offset is beyond it;
    what is before stays, what is after the patched range stays, and the
    data grow when the patch runs past their end. *)
Theorem splice_grows (page_data mod_ : list byte) (mod_offset : Z) :
  0 <= mod_offset ->
  let at_ := Z.min mod_offset (len page_data) in
  let out := patch.splice page_data mod_ mod_offset in
  len out = Z.max (len page_data) (at_ + len mod_)
  /\ slice_to out at_ = slice_to page_data at_
  /\ slice out at_ (at_ + len mod_) = mod_
  /\ slice_from out (at_ + len mod_)
     = slice_from page_data (mod_offset + len mod_).
Proof.
  intros H0. cbv zeta. unfold patch.splice, setslice.
  pose proof (len_nonneg page_data) as Hp. pose proof (len_nonneg mod_) as Hm.
  rewrite !clamp_nonneg by lia.
  set (lo := Z.min mod_offset (len page_data)).
  set (hi := Z.max lo (Z.min (mod_offset + len mod_) (len page_data))).
  assert (Hlo' : lo = Z.min mod_offset (len page_data)) by reflexivity.
  assert (Hhi' : hi = Z.max lo (Z.min (mod_offset + len mod_) (len page_data)))
    by reflexivity.
  clearbody lo hi.
  assert (Hlo : len (take (Z.to_nat lo) page_data) = lo)
    by (apply len_take_Z; lia).
  assert (Hdrop : len (drop (Z.to_nat hi) page_data) = len page_data - hi)
    by (unfold len in *; rewrite length_drop; lia).
  repeat split.
  - rewrite !len_app, Hlo, Hdrop. lia.
  - rewrite !slice_to_nonneg by lia.
    rewrite take_app_le by (unfold len in Hlo; lia).
    rewrite take_take. f_equal. lia.
  - set (pre := take (Z.to_nat lo) page_data) in *. clearbody pre.
    pose proof (slice_app pre (mod_ ++ drop (Z.to_nat hi) page_data)
                  0 (len mod_)) as Hs.
    rewrite Z.add_0_r, Hlo in Hs. rewrite Hs by lia.
    rewrite slice_app_head by lia. apply slice_all.
  - rewrite app_assoc.
    rewrite (slice_from_app_len (take (Z.to_nat lo) page_data ++ mod_))
      by (rewrite len_app; lia).
    unfold slice_from. rewrite clamp_nonneg by lia. f_equal.
    clear Hlo Hdrop. f_equal. revert Hp Hm Hlo' Hhi'.
    generalize (len page_data), (len mod_). intros. lia.
Qed.

Lemma splice_grows_witness :
  len (patch.splice (le.b "abcdef") (le.b "XYZ") 5) = 8
  /\ patch.splice (le.b "abcdef") (le.b "XYZ") 9 = le.b "abcdefXYZ".
Proof.
  split; [|reflexivity].
  pose proof (splice_grows (le.b "abcdef") (le.b "XYZ") 5) as H.
  cbv zeta in H. destruct H as (H & _); [lia|]. exact H.
Defined.

Lemma splice_middle (a x b m : list byte) :
  len x = len m -> patch.splice (a ++ x ++ b) m (len a) = a ++ m ++ b.
Proof.
  intros Hx. rewrite splice_inside.
  - rewrite <- Hx, <- len_app.
    unfold len. rewrite Nat2Z.id, take_app_length.
    rewrite (app_assoc a x b), Nat2Z.id, drop_app_length. reflexivity.
  - apply len_nonneg.
  - rewrite !len_app. pose proof (len_nonneg b). lia.
Qed.

Lemma split3 {A} (l : list A) (o n : Z) :
  0 <= o -> 0 <= n -> o + n <= len l ->
  exists a x b, l = a ++ x ++ b /\ len a = o /\ len x = n.
Proof.
  intros Ho Hn Hl.
  exists (take (Z.to_nat o) l), (take (Z.to_nat n) (drop (Z.to_nat o) l)),
         (drop (Z.to_nat n) (drop (Z.to_nat o) l)).
  rewrite !take_drop. split; [reflexivity|].
  unfold len in *. rewrite !length_take, length_drop. lia.
Qed.

(** X12: two data patches of places inside the data that do not overlap
    give the same data in either order. *)
Theorem disjoint_patches_commute (page_data m1 m2 : list byte) (o1 o2 : Z) :
  0 <= o1 -> o1 + len m1 <= o2 -> o2 + len m2 <= len page_data ->
  patch.apply_data_patches page_data [(m1, o1); (m2, o2)]
  = patch.apply_data_patches page_data [(m2, o2); (m1, o1)].
Proof.
  intros H1 H12 H2. cbn [patch.apply_data_patches].
  pose proof (len_nonneg m1) as Hm1. pose proof (len_nonneg m2) as Hm2.
  destruct (split3 page_data o1 (len m1)) as (a & x1 & rest & -> & Ha & Hx1);
    [lia..|].
  rewrite !len_app in H2.
  destruct (split3 rest (o2 - o1 - len m1) (len m2))
    as (b & x2 & c & -> & Hb & Hx2); [lia..|].
  rewrite <- Ha at 1. rewrite splice_middle by exact Hx1.
  replace o2 with (len (a ++ m1 ++ b)) at 1 by (rewrite !len_app; lia).
  replace (a ++ m1 ++ b ++ x2 ++ c) with ((a ++ m1 ++ b) ++ x2 ++ c)
    by (rewrite <- !app_assoc; reflexivity).
  rewrite splice_middle by exact Hx2.
  replace o2 with (len (a ++ x1 ++ b)) by (rewrite !len_app; lia).
  replace (a ++ x1 ++ b ++ x2 ++ c) with ((a ++ x1 ++ b) ++ x2 ++ c)
    by (rewrite <- !app_assoc; reflexivity).
  rewrite splice_middle by exact Hx2.
  rewrite <- Ha.
  replace ((a ++ x1 ++ b) ++ m2 ++ c) with (a ++ x1 ++ (b ++ m2 ++ c))
    by (rewrite <- !app_assoc; reflexivity).
  rewrite splice_middle by exact Hx1.
  rewrite <- !app_assoc. reflexivity.
Qed.

Lemma disjoint_patches_commute_witness :
  patch.apply_data_patches (le.b "abcdefgh") [(le.b "XY", 1); (le.b "Z", 5)]
  = patch.apply_data_patches (le.b "abcdefgh") [(le.b "Z", 5); (le.b "XY", 1)].
Proof.
  apply (disjoint_patches_commute (le.b "abcdefgh") (le.b "XY") (le.b "Z") 1 5);
    vm_compute; discriminate.
Defined.

(** ** The searches *)

Section MatcherFacts.
Context {R : Type}.

Lemma match_plus_k (c : re.charset) (s : list byte) :
  forall pos (k : list byte -> Z -> option R) r,
    re.match_plus c s pos k = Some r ->
    exists n : nat,
      (n <= length s)%nat /\ k (drop n s) (pos + Z.of_nat n) = Some r.
Proof.
  induction s as [|x s IH]; intros pos k r; cbn [re.match_plus]; [discriminate|].
  destruct (re.in_charset c x); [|discriminate].
  destruct (re.match_plus c s (pos + 1) k) as [r'|] eqn:E.
  - intros [= ->]. destruct (IH _ _ _ E) as (n & Hn & Hk).
    exists (S n). split; [simpl; lia|].
    rewrite <- Hk. cbn [drop]. f_equal. lia.
  - intros Hk. exists 1%nat. split; [simpl; lia|]. exact Hk.
Qed.

Lemma match_repeat_k (n : nat) (c : re.charset) :
  forall (s : list byte) pos (k : list byte -> Z -> option R) r,
    re.match_repeat n c s pos k = Some r ->
    (n <= length s)%nat /\ k (drop n s) (pos + Z.of_nat n) = Some r.
Proof.
  induction n as [|n IH]; intros s pos k r; cbn [re.match_repeat].
  - intros Hk. split; [lia|]. rewrite Z.add_0_r. exact Hk.
  - destruct s as [|x s]; [discriminate|].
    destruct (re.in_charset c x); [|discriminate].
    intros H. destruct (IH _ _ _ _ H) as [Hn Hk].
    split; [simpl; lia|]. rewrite <- Hk. cbn [drop]. f_equal. lia.
Qed.

Lemma match_atom_k (a : re.atom) (s : list byte) pos
    (k : list byte -> Z -> option R) r :
  re.match_atom a s pos k = Some r ->
  exists n : nat,
    (n <= length s)%nat /\ k (drop n s) (pos + Z.of_nat n) = Some r.
Proof.
  destruct a as [c|c|n c]; cbn [re.match_atom].
  - destruct s as [|x s]; [discriminate|].
    destruct (re.in_charset c x); [|discriminate].
    intros Hk. exists 1%nat. split; [simpl; lia|]. exact Hk.
  - apply match_plus_k.
  - intros H. exists n. apply (match_repeat_k _ _ _ _ _ _ H).
Qed.

Lemma match_atoms_k (l : list re.atom) :
  forall (s : list byte) pos (k : list byte -> Z -> option R) r,
    re.match_atoms l s pos k = Some r ->
    exists n : nat,
      (n <= length s)%nat /\ k (drop n s) (pos + Z.of_nat n) = Some r.
Proof.
  induction l as [|a l IH]; intros s pos k r; cbn [re.match_atoms].
  - intros Hk. exists 0%nat. split; [lia|]. rewrite Z.add_0_r. exact Hk.
  - intros H. apply match_atom_k in H as (n1 & Hn1 & H).
    apply IH in H as (n2 & Hn2 & H). rewrite length_drop in Hn2.
    exists (n1 + n2)%nat. split; [lia|].
    rewrite drop_drop in H. rewrite <- H. f_equal. lia.
Qed.

Lemma match_alts_k (alts : list (list re.atom)) (s : list byte) pos
    (k : list byte -> Z -> option R) r :
  re.match_alts alts s pos k = Some r ->
  exists n : nat,
    (n <= length s)%nat /\ k (drop n s) (pos + Z.of_nat n) = Some r.
Proof.
  induction alts as [|a alts IH]; cbn [re.match_alts]; [discriminate|].
  destruct (re.match_atoms a s pos k) as [r'|] eqn:E.
  - intros [= ->]. apply (match_atoms_k _ _ _ _ _ E).
  - exact IH.
Qed.

Lemma match_nodes_k (p : re.pattern) :
  forall (s : list byte) pos caps
         (k : list byte -> Z -> gmap nat (Z * Z) -> option R) r,
    re.match_nodes p s pos caps k = Some r ->
    exists (n : nat) caps',
      (n <= length s)%nat
      /\ k (drop n s) (pos + Z.of_nat n) caps' = Some r
      /\ (group_free p -> caps' = caps).
Proof.
  induction p as [|nd p IH]; intros s pos caps k r; cbn [re.match_nodes].
  - intros Hk. exists 0%nat, caps. split; [lia|]. rewrite Z.add_0_r. auto.
  - intros H.
    assert (exists (n1 : nat) caps1,
               (n1 <= length s)%nat
               /\ re.match_nodes p (drop n1 s) (pos + Z.of_nat n1) caps1 k = Some r
               /\ (match nd with re.Group _ _ => False | _ => True end ->
                   caps1 = caps)) as (n1 & caps1 & Hn1 & H1 & Hc1).
    { destruct nd as [a|i body|alts]; cbn [re.match_node] in H.
      - apply match_atom_k in H as (n1 & Hn1 & H). eauto.
      - apply match_atoms_k in H as (n1 & Hn1 & H).
        exists n1, (<[i := (pos, pos + Z.of_nat n1)]> caps). tauto.
      - apply match_alts_k in H as (n1 & Hn1 & H). eauto. }
    apply IH in H1 as (n2 & caps2 & Hn2 & H2 & Hc2). rewrite length_drop in Hn2.
    exists (n1 + n2)%nat, caps2. split; [lia|]. split.
    + rewrite drop_drop in H2. rewrite <- H2. f_equal. lia.
    + intros Hg. apply Forall_cons in Hg as [Hg1 Hg2].
      rewrite (Hc2 Hg2). apply Hc1, Hg1.
Qed.

Lemma match_literal (bs : list byte) (q : re.pattern) :
  forall (s : list byte) pos caps
         (k : list byte -> Z -> gmap nat (Z * Z) -> option R) r,
    re.match_nodes (literal bs ++ q) s pos caps k = Some r ->
    exists s',
      s = bs ++ s' /\ re.match_nodes q s' (pos + len bs) caps k = Some r.
Proof.
  induction bs as [|b bs IH]; intros s pos caps k r.
  - intros H. exists s. split; [reflexivity|].
    change (len []) with 0. rewrite Z.add_0_r. exact H.
  - cbn [literal map app re.match_nodes re.match_node re.match_atom].
    destruct s as [|x s]; [discriminate|].
    cbn [re.in_charset]. destruct (bool_decide_reflect (x = b)) as [->|_];
      [|discriminate].
    intros H. apply IH in H as (s' & -> & H).
    exists s'. split; [reflexivity|].
    rewrite len_cons. rewrite <- H. f_equal. lia.
Qed.

End MatcherFacts.

Lemma match_here_span (p : re.pattern) (source s : list byte) (pos : Z)
    (b : bool) (m : re.Match) :
  re.match_here p source s pos b = Some m ->
  exists n : nat,
    (n <= length s)%nat
    /\ re.span m = (pos, pos + Z.of_nat n)
    /\ re.subject m = source.
Proof.
  unfold re.match_here. intros H.
  apply match_nodes_k in H as (n & caps & Hn & H & _).
  destruct (b && (pos + Z.of_nat n =? pos)); [discriminate|].
  injection H as <-. exists n. auto.
Qed.

Lemma matches_here_elem (p : re.pattern) (source s : list byte) (pos : Z)
    (m : re.Match) :
  m ∈ re.matches_here p source s pos ->
  exists b, re.match_here p source s pos b = Some m.
Proof.
  unfold re.matches_here.
  destruct (re.match_here p source s pos false) as [m0|] eqn:E0;
    [|intros H; inversion H].
  destruct (re.end_ m0 =? pos).
  - destruct (re.match_here p source s pos true) as [m1|] eqn:E1.
    + intros H. apply elem_of_cons in H as [->|H]; [eauto|].
      apply list_elem_of_singleton in H as ->. eauto.
    + intros H. apply list_elem_of_singleton in H as ->. eauto.
  - intros H. apply list_elem_of_singleton in H as ->. eauto.
Qed.

Lemma scan_elem (p : re.pattern) (source : list byte) (m : re.Match) :
  forall (s : list byte) (pos resume : Z),
    m ∈ re.scan p source s pos resume ->
    exists (j : nat) b,
      (j <= length s)%nat
      /\ re.match_here p source (drop j s) (pos + Z.of_nat j) b = Some m.
Proof.
  assert (Hhere : forall s pos resume,
             m ∈ (if pos <? resume then [] else re.matches_here p source s pos) ->
             exists (j : nat) b,
               (j <= length s)%nat
               /\ re.match_here p source (drop j s) (pos + Z.of_nat j) b = Some m).
  { intros s pos resume H. destruct (pos <? resume); [inversion H|].
    apply matches_here_elem in H as (b & H).
    exists 0%nat, b. split; [lia|]. rewrite Z.add_0_r. exact H. }
  induction s as [|x s IH]; intros pos resume; cbn [re.scan]; intros H.
  - rewrite app_nil_r in H. apply (Hhere _ _ _ H).
  - apply elem_of_app in H as [H|H]; [apply (Hhere _ _ _ H)|].
    apply IH in H as (j & b & Hj & H).
    exists (S j), b. split; [simpl; lia|].
    rewrite <- H. cbn [drop]. f_equal. lia.
Qed.

(** Every match [finditer] yields lies inside the buffer. *)
Lemma finditer_span (p : re.pattern) (source : list byte) (m : re.Match) :
  m ∈ re.finditer p source ->
  0 <= re.start m /\ re.start m <= re.end_ m /\ re.end_ m <= len source.
Proof.
  intros H. apply scan_elem in H as (j & b & Hj & H).
  apply match_here_span in H as (n & Hn & Hs & _).
  rewrite length_drop in Hn.
  unfold re.start, re.end_. rewrite Hs. cbn [fst snd]. unfold len. lia.
Qed.

Lemma find_offset_Ok (page_data : list byte) (p : re.pattern) (offset : Z)
    (description : string) (r : Z) :
  patch.find_offset page_data p offset description = Ok r ->
  exists m, utils.grep p page_data = [m] /\ r = re.start m + offset.
Proof.
  unfold patch.find_offset. destruct p as [|nd p]; [discriminate|].
  destruct (utils.grep (nd :: p) page_data) as [|m [|m' rest]]; [discriminate| |].
  - intros [= <-]. eauto.
  - destruct (Z.ltb_spec 1 (len (m :: m' :: rest))) as [_|Hge]; [discriminate|].
    rewrite !len_cons in Hge. pose proof (len_nonneg rest). lia.
Qed.

(** X8: what [find_offset] returns, less the offset asked for, is a
    position of the buffer: between 0 and its length. *)
Theorem find_offset_in_bounds (page_data : list byte) (p : re.pattern)
    (offset : Z) (description : string) (r : Z) :
  patch.find_offset page_data p offset description = Ok r ->
  0 <= r - offset <= len page_data.
Proof.
  intros H. apply find_offset_Ok in H as (m & Hg & ->).
  assert (Hm : m ∈ re.finditer p page_data).
  { unfold utils.grep in Hg. rewrite Hg. apply list_elem_of_singleton. reflexivity. }
  apply finditer_span in Hm. lia.
Qed.

Lemma find_offset_in_bounds_witness :
  patch.find_offset (le.b "xxab") (re.lit "ab") 5 "label" = Ok 7
  /\ 0 <= 7 - 5 <= len (le.b "xxab").
Proof.
  split; [reflexivity|].
  apply (find_offset_in_bounds (le.b "xxab") (re.lit "ab") 5 "label" 7).
  reflexivity.
Defined.

Lemma drop_app_slice (l bs s' : list byte) (j : nat) :
  drop j l = bs ++ s' ->
  (j <= length l)%nat ->
  slice l (Z.of_nat j) (Z.of_nat j + len bs) = bs
  /\ Z.of_nat j + len bs <= len l.
Proof.
  intros Hd Hj.
  assert (Hl : l = take j l ++ bs ++ s') by (rewrite <- Hd, take_drop; reflexivity).
  assert (Hlen : len (take j l) = Z.of_nat j).
  { unfold len. rewrite length_take. lia. }
  split.
  - rewrite Hl at 1. rewrite <- Hlen.
    pose proof (slice_app (take j l) (bs ++ s') 0 (len bs)) as Hs.
    rewrite Z.add_0_r in Hs. rewrite Hs by (pose proof (len_nonneg bs); lia).
    rewrite slice_app_head by (pose proof (len_nonneg bs); lia).
    apply slice_all.
  - apply (f_equal length) in Hd. rewrite length_drop, length_app in Hd.
    unfold len. lia.
Qed.

(** X9: with a pattern of plain bytes, as the pattern of the speed fix
    and of the credits are, what [find_offset] returns, less the offset
    asked for, is a place of the buffer where these bytes stand. *)
Theorem find_offset_literal (page_data bs : list byte) (offset : Z)
    (description : string) (r : Z) :
  patch.find_offset page_data (literal bs) offset description = Ok r ->
  0 <= r - offset
  /\ r - offset + len bs <= len page_data
  /\ slice page_data (r - offset) (r - offset + len bs) = bs.
Proof.
  intros H. apply find_offset_Ok in H as (m & Hg & ->).
  assert (Hm : m ∈ re.finditer (literal bs) page_data).
  { unfold utils.grep in Hg. rewrite Hg. apply list_elem_of_singleton. reflexivity. }
  apply scan_elem in Hm as (j & b & Hj & Hm).
  unfold re.match_here in Hm.
  rewrite <- (app_nil_r (literal bs)) in Hm.
  apply match_literal in Hm as (s' & Hd & Hm). cbn [re.match_nodes] in Hm.
  destruct (b && _); [discriminate|]. injection Hm as <-.
  unfold re.start. cbn [re.span fst].
  replace (0 + Z.of_nat j + offset - offset) with (Z.of_nat j) by lia.
  destruct (drop_app_slice _ _ _ _ Hd Hj) as [Hs Hl].
  split; [lia|]. split; [exact Hl|exact Hs].
Qed.

Lemma find_offset_literal_witness :
  patch.find_offset
    (le.b "ab" ++ [xf7; xd8; x83; xc0; x64; x75; x05; xb8; x04; x00; x00; x00])
    patch.fix_speed_pattern 5 "speed bug code" = Ok 7
  /\ slice
       (le.b "ab" ++ [xf7; xd8; x83; xc0; x64; x75; x05; xb8; x04; x00; x00; x00])
       (7 - 5) (7 - 5 + 12)
     = [xf7; xd8; x83; xc0; x64; x75; x05; xb8; x04; x00; x00; x00].
Proof.
  split; [reflexivity|].
  apply (find_offset_literal
           (le.b "ab" ++ [xf7; xd8; x83; xc0; x64; x75; x05; xb8; x04; x00; x00; x00])
           [xf7; xd8; x83; xc0; x64; x75; x05; xb8; x04; x00; x00; x00]
           5 "speed bug code" 7).
  reflexivity.
Defined.

(** X10: with a pattern of plain bytes, then the group [(.{4})], then
    anything without a group, what [find_variable] returns is the
    little-endian dword that follows an occurrence of the plain bytes in
    the buffer. *)
Theorem find_variable_dword (page_data pre : list byte) (post : re.pattern)
    (description : string) (v : Z) :
  group_free post ->
  patch.find_variable page_data
    (literal pre ++ re.Group 1 [re.Repeat 4 re.Dot] :: post) description = Ok v ->
  exists pos,
    0 <= pos
    /\ pos + len pre + 4 <= len page_data
    /\ slice page_data pos (pos + len pre) = pre
    /\ utils.from_uint32_le
         (slice page_data (pos + len pre) (pos + len pre + 4)) = Ok v.
Proof.
  intros Hpost H. unfold patch.find_variable in H.
  destruct (literal pre ++ _) as [|nd p'] eqn:Ep; [discriminate|].
  rewrite <- Ep in H. clear Ep nd p'.
  destruct (utils.grep _ page_data) as [|m rest] eqn:Hg; [discriminate|].
  destruct (1 <? len (m :: rest)); [discriminate|].
  assert (Hm : m ∈ re.finditer
                     (literal pre ++ re.Group 1 [re.Repeat 4 re.Dot] :: post)
                     page_data).
  { unfold utils.grep in Hg. rewrite Hg. apply elem_of_cons. left. reflexivity. }
  apply scan_elem in Hm as (j & b & Hj & Hm).
  unfold re.match_here in Hm.
  apply match_literal in Hm as (s' & Hd & Hm).
  cbn [re.match_nodes re.match_node re.match_atoms re.match_atom] in Hm.
  apply match_repeat_k in Hm as [H4 Hm].
  apply match_nodes_k in Hm as (n & caps & Hn & Hm & Hcaps).
  rewrite (Hcaps Hpost) in Hm.
  destruct (b && _); [discriminate|]. injection Hm as <-.
  unfold re.group in H. cbn [re.groups re.subject] in H.
  rewrite lookup_insert_eq in H. cbn [mbind result_bind bind] in H.
  destruct (drop_app_slice _ _ _ _ Hd Hj) as [Hs Hl].
  exists (Z.of_nat j).
  assert (Hs' : length s' = (length page_data - j - length pre)%nat).
  { apply (f_equal length) in Hd. rewrite length_drop, length_app in Hd. lia. }
  replace (0 + Z.of_nat j + len pre) with (Z.of_nat j + len pre) in H by lia.
  replace (Z.of_nat j + len pre + Z.of_nat 4) with (Z.of_nat j + len pre + 4)
    in H by lia.
  unfold len in *. repeat split; try lia. exact Hs. exact H.
Qed.

Lemma find_variable_dword_witness :
  patch.find_variable
    (le.b "ab" ++ [xc7; x05; x10; x20; x05; x00; x2c; x01; x00; x00])
    (literal [xc7; x05] ++ re.Group 1 [re.Repeat 4 re.Dot]
       :: literal [x2c; x01; x00; x00]) "head tilt angle" = Ok 0x52010
  /\ exists pos,
       slice (le.b "ab" ++ [xc7; x05; x10; x20; x05; x00; x2c; x01; x00; x00])
         pos (pos + 2) = [xc7; x05]
       /\ utils.from_uint32_le
            (slice (le.b "ab" ++ [xc7; x05; x10; x20; x05; x00; x2c; x01; x00; x00])
               (pos + 2) (pos + 2 + 4)) = Ok 0x52010.
Proof.
  split; [reflexivity|].
  destruct (find_variable_dword
              (le.b "ab" ++ [xc7; x05; x10; x20; x05; x00; x2c; x01; x00; x00])
              [xc7; x05] (literal [x2c; x01; x00; x00]) "head tilt angle" 0x52010)
    as (pos & _ & _ & H1 & H2).
  - repeat constructor.
  - reflexivity.
  - exists pos. split; [exact H1|exact H2].
Defined.

(** ** The patch loop *)

Lemma filter_sublist {A} (f : A -> bool) (l : list A) :
  sublist (List.filter f l) l.
Proof.
  induction l as [|x l IH]; [constructor|].
  cbn [List.filter]. destruct (f x); [apply sublist_skip|apply sublist_cons]; exact IH.
Qed.

Lemma filter_all {A} (f : A -> bool) (l : list A) :
  (forall x, f x = true) -> List.filter f l = l.
Proof.
  intros Hf. induction l as [|x l IH]; [reflexivity|].
  cbn [List.filter]. rewrite Hf, IH. reflexivity.
Qed.

Lemma surviving_sublist (page_size O L i : Z) (records : list le.FixupTuple) :
  sublist (surviving page_size O L i records) records.
Proof.
  unfold surviving. destruct (_ || _); [reflexivity|apply filter_sublist].
Qed.

Lemma surviving_empty_range (page_size O L i : Z) (records : list le.FixupTuple) :
  L <= 0 -> surviving page_size O L i records = records.
Proof.
  intros HL. unfold surviving. destruct (_ || _); [reflexivity|].
  apply filter_all. intros r. unfold patch.in_range. cbn [fst snd].
  destruct (Z.leb_spec O (le.srcoff r + i * page_size));
    destruct (Z.ltb_spec (le.srcoff r + i * page_size) (O + L)); simpl; auto; lia.
Qed.

Lemma imap_Forall2 {A} (P : A -> A -> Prop) (l : list A) :
  forall (f : nat -> A -> A),
    (forall k x, P (f k x) x) -> Forall2 P (imap f l) l.
Proof.
  induction l as [|x l IH]; intros f Hf; cbn [imap]; constructor.
  - apply Hf.
  - apply IH. intros k y. apply Hf.
Qed.

Lemma imap_id {A} (l : list A) :
  forall (f : nat -> A -> A), (forall k x, f k x = x) -> imap f l = l.
Proof.
  induction l as [|x l IH]; intros f Hf; cbn [imap]; [reflexivity|].
  rewrite Hf, IH; [reflexivity|]. intros k y. apply Hf.
Qed.

(** X13: the removal of the fixup records of a patch range never fails,
    whatever the range and the page size; every page keeps a part of its
    records in their order, and all of them if the range is empty. *)
Theorem remove_fixups_total (page_size : Z) (PATCH_RANGE : Z * Z)
    (fixup_records : list (list le.FixupTuple)) :
  exists fixup_records',
    patch.remove_fixups page_size PATCH_RANGE fixup_records = Ok fixup_records'
    /\ Forall2 sublist fixup_records' fixup_records
    /\ (snd PATCH_RANGE <= fst PATCH_RANGE -> fixup_records' = fixup_records).
Proof.
  destruct PATCH_RANGE as [lo hi]. cbn [fst snd].
  pose proof (remove_fixups_surviving page_size lo (hi - lo) fixup_records) as H.
  replace (lo + (hi - lo)) with hi in H by lia.
  eexists. split; [exact H|]. split.
  - apply imap_Forall2. intros k x. apply surviving_sublist.
  - intros Hle. apply imap_id. intros k x. apply surviving_empty_range. lia.
Qed.

(** X14: when the loop over the code patches goes through, the fixup
    table has as many pages as before, and the page data are what
    splicing the same payloads at the same offsets one after the other
    gives. *)
Theorem apply_code_patches_pages
    (Decoder : Z -> list byte -> list patch.Instruction) (page_size : Z)
    (CODE_PATCHES : list (list byte * Z)) :
  forall (fixup_records fixup_records' : list (list le.FixupTuple))
         (page_data page_data' : list byte),
    patch.apply_code_patches Decoder page_size (fixup_records, page_data)
      CODE_PATCHES = Ok (fixup_records', page_data') ->
    length fixup_records' = length fixup_records
    /\ page_data' = patch.apply_data_patches page_data CODE_PATCHES.
Proof.
  induction CODE_PATCHES as [|[mod_code mod_offset] rest IH];
    intros recs recs' pd pd' H.
  - injection H as <- <-. split; reflexivity.
  - cbn [patch.apply_code_patches patch.apply_data_patches] in H |- *.
    unfold patch.apply_code_patch in H.
    rewrite remove_fixups_surviving in H. cbn [mbind result_bind bind] in H.
    destruct (patch.add_fixups _ _ _ _ _) as [recs1|] eqn:Ea; [|discriminate].
    cbn [mbind result_bind bind] in H.
    apply add_fixups_appends in Ea as [Hlen _].
    apply IH in H as [Hlen' ->]. split; [|reflexivity].
    rewrite Hlen', Hlen. apply length_imap.
Qed.

Lemma apply_code_patches_pages_witness :
  patch.apply_code_patches Decoder_sample 4096 (sample_records, sample_pages)
    [(sample_payload, 4110); ([x90], 0)]
  = Ok ([[le.mkFixupTuple "fix_32off_32" 7 16 2 0x100 (Some 0x1000)];
         [le.mkFixupTuple "fix_32off_16" 7 0 0 0x20 (Some 0x30);
          le.mkFixupTuple "fix_32off_32" 7 16 2 15 (Some 0x52010)];
         []],
        patch.apply_data_patches sample_pages
          [(sample_payload, 4110); ([x90], 0)])
  /\ length [[le.mkFixupTuple "fix_32off_32" 7 16 2 0x100 (Some 0x1000)];
             [le.mkFixupTuple "fix_32off_16" 7 0 0 0x20 (Some 0x30);
              le.mkFixupTuple "fix_32off_32" 7 16 2 15 (Some 0x52010)];
             []] = length sample_records.
Proof.
  assert (H : patch.apply_code_patches Decoder_sample 4096
                (sample_records, sample_pages)
                [(sample_payload, 4110); ([x90], 0)]
              = Ok ([[le.mkFixupTuple "fix_32off_32" 7 16 2 0x100 (Some 0x1000)];
                     [le.mkFixupTuple "fix_32off_16" 7 0 0 0x20 (Some 0x30);
                      le.mkFixupTuple "fix_32off_32" 7 16 2 15 (Some 0x52010)];
                     []],
                    patch.apply_data_patches sample_pages
                      [(sample_payload, 4110); ([x90], 0)])).
  { vm_compute. reflexivity. }
  split; [exact H|].
  apply (apply_code_patches_pages _ _ _ _ _ _ _ H).
Defined.

(** X15: with a page size of zero in the header, a code patch with at
    least one decoded instruction raises ZeroDivisionError. *)
Theorem code_patch_zero_page_size
    (Decoder : Z -> list byte -> list patch.Instruction)
    (fixup_records : list (list le.FixupTuple)) (page_data mod_code : list byte)
    (mod_offset : Z) :
  Decoder 32 mod_code <> [] ->
  patch.apply_code_patch Decoder 0 (fixup_records, page_data)
    (mod_code, mod_offset) = Raise ZeroDivisionError.
Proof.
  intros Hd. unfold patch.apply_code_patch.
  rewrite remove_fixups_surviving. cbn [mbind result_bind bind].
  destruct (Decoder 32 mod_code) as [|instr rest]; [contradiction|].
  reflexivity.
Qed.

Lemma code_patch_zero_page_size_witness :
  patch.apply_code_patch Decoder_sample 0 (sample_records, sample_pages)
    (sample_payload, 4110) = Raise ZeroDivisionError.
Proof.
  apply (code_patch_zero_page_size Decoder_sample sample_records sample_pages
           sample_payload 4110).
  vm_compute. discriminate.
Defined.

(** X16: an instruction of the supported table whose page lies beyond
    the fixup table raises IndexError, with a positive page size and
    room in the payload for the dword. *)
Theorem add_fixup_no_page (page_size mod_offset : Z) (mod_code : list byte)
    (fixup_records : list (list le.FixupTuple)) (instr : patch.Instruction)
    (operand_offset objnum : Z) :
  0 < page_size ->
  operand_rule instr = Some (operand_offset, objnum) ->
  0 <= patch.ip instr ->
  patch.ip instr + operand_offset + 4 <= len mod_code ->
  len fixup_records <= (mod_offset + patch.ip instr) / page_size ->
  patch.add_fixup page_size mod_offset mod_code fixup_records instr
  = Raise IndexError.
Proof.
  intros Hps Hrule Hip Hfit Hpage.
  rewrite add_fixup_rule by lia. rewrite Hrule.
  unfold patch.append_fixup.
  pose proof (operand_rule_range _ _ _ Hrule) as Hd.
  destruct (utils.from_uint32_le _) as [d|] eqn:Ed.
  - cbn [mbind result_bind bind]. unfold index_of.
    pose proof (len_nonneg fixup_records).
    destruct (Z.ltb_spec ((mod_offset + patch.ip instr) / page_size) 0); [lia|].
    destruct (Z.ltb_spec ((mod_offset + patch.ip instr) / page_size)
                (len fixup_records)); [lia|].
    rewrite andb_false_r. reflexivity.
  - exfalso.
    rewrite slice_nonneg in Ed by lia.
    replace (Z.to_nat (patch.ip instr + operand_offset + 4
                       - (patch.ip instr + operand_offset))) with 4%nat in Ed by lia.
    assert (Hl : length (take 4 (drop (Z.to_nat (patch.ip instr + operand_offset))
                                   mod_code)) = 4%nat).
    { rewrite length_take, length_drop. unfold len in Hfit. lia. }
    destruct (take 4 _) as [|b0 [|b1 [|b2 [|b3 [|? ?]]]]]; try discriminate.
Qed.

Lemma add_fixup_no_page_witness :
  patch.add_fixup 4096 (3 * 4096) sample_payload sample_records
    (patch.mkInstruction 0 patch.MOV_EAX_MOFFS32 0x52010) = Raise IndexError.
Proof.
  apply (add_fixup_no_page 4096 (3 * 4096) sample_payload sample_records
           (patch.mkInstruction 0 patch.MOV_EAX_MOFFS32 0x52010) 1 patch.DATA_OBJ);
    vm_compute; try reflexivity; discriminate.
Defined.

Lemma page_offsets_lookup0 (acc : Z) (out : list (list byte)) :
  patch.page_offsets acc out !! 0%nat = Some acc.
Proof. destruct out; reflexivity. Qed.

Lemma page_offsets_record_slices_from (out : list (list byte)) :
  forall (pre : list Z) (t0 rest : list byte),
    patch.record_slices (t0 ++ concat out ++ rest)
      (pre ++ patch.page_offsets (len t0) out) (len pre) (length out)
    = Ok out.
Proof.
  induction out as [|x out IH]; intros pre t0 rest; [reflexivity|].
  cbn [length patch.record_slices patch.page_offsets concat].
  pose proof (getitem_app pre (len t0 :: patch.page_offsets (len t0 + len x) out) 0)
    as H0.
  rewrite Z.add_0_r in H0. rewrite H0 by lia.
  rewrite (getitem_nonneg _ 0) by lia.
  change (Z.to_nat 0) with 0%nat. cbn [lookup list_lookup].
  cbn [mbind result_bind bind].
  rewrite (getitem_app pre) by lia.
  rewrite (getitem_nonneg _ 1) by lia.
  change (Z.to_nat 1) with 1%nat. cbn [lookup list_lookup].
  fold (@lookup nat Z (list Z) _ 0%nat (patch.page_offsets (len t0 + len x) out)).
  rewrite page_offsets_lookup0. cbn [mbind result_bind bind].
  replace (pre ++ len t0 :: patch.page_offsets (len t0 + len x) out)
    with ((pre ++ [len t0]) ++ patch.page_offsets (len (t0 ++ x)) out)
    by (rewrite len_app, <- app_assoc; reflexivity).
  replace (len pre + 1) with (len (pre ++ [len t0]))
    by (rewrite len_app; reflexivity).
  replace (t0 ++ (x ++ concat out) ++ rest) with ((t0 ++ x) ++ concat out ++ rest)
    by (rewrite <- !app_assoc; reflexivity).
  rewrite IH. cbn [mbind result_bind bind]. f_equal. f_equal.
  replace ((t0 ++ x) ++ concat out ++ rest) with (t0 ++ x ++ concat out ++ rest)
    by (rewrite <- app_assoc; reflexivity).
  pose proof (slice_app t0 (x ++ concat out ++ rest) 0 (len x)) as Hs.
  rewrite Z.add_0_r in Hs. rewrite Hs by (pose proof (len_nonneg x); lia).
  rewrite slice_app_head by (pose proof (len_nonneg x); lia). apply slice_all.
Qed.

(** X17: the offsets the writer computes from the encoded pages cut the
    joined record table, whatever follows it, back into these pages, the
    way [patch] cuts it when it reads a file. *)
Theorem page_offsets_record_slices (fixup_output : list (list byte))
    (rest : list byte) :
  patch.record_slices (concat fixup_output ++ rest)
    (patch.page_offsets 0 fixup_output) 0 (length fixup_output)
  = Ok fixup_output.
Proof. apply (page_offsets_record_slices_from fixup_output [] [] rest). Qed.

(** ** Blocks *)

Lemma export_uint32_stream_len (vs : list Z) :
  forall bs, mrc.export_uint32_stream vs = Ok bs -> len bs = 4 * len vs.
Proof.
  induction vs as [|v vs IH]; intros bs He.
  - injection He as <-. reflexivity.
  - cbn [mrc.export_uint32_stream] in He.
    destruct (utils.to_uint32_le (Some v)) as [b4|] eqn:E4; [|discriminate].
    cbn [mbind result_bind bind] in He.
    destruct (mrc.export_uint32_stream vs) as [tl|] eqn:Et; [|discriminate].
    injection He as <-. apply from_to_uint32 in E4 as [_ Hl].
    rewrite len_app, len_cons, (IH _ eq_refl). unfold len. lia.
Qed.

Lemma import_export_uint32_stream (vs : list Z) :
  forall (bs : list byte) (fuel : nat),
    mrc.export_uint32_stream vs = Ok bs ->
    (length vs <= fuel)%nat ->
    mrc.import_uint32_stream fuel bs = Ok vs.
Proof.
  induction vs as [|v vs IH]; intros bs fuel He Hf.
  - injection He as <-. destruct fuel; reflexivity.
  - cbn [mrc.export_uint32_stream] in He.
    destruct (utils.to_uint32_le (Some v)) as [b4|] eqn:E4; [|discriminate].
    cbn [mbind result_bind bind] in He.
    destruct (mrc.export_uint32_stream vs) as [tl|] eqn:Et; [|discriminate].
    injection He as <-. apply from_to_uint32 in E4 as [Hfrom Hl].
    destruct b4 as [|b0 [|b1 [|b2 [|b3 [|? ?]]]]]; try discriminate.
    destruct fuel as [|fuel]; [simpl in Hf; lia|].
    cbn [app mrc.import_uint32_stream].
    change (slice (b0 :: b1 :: b2 :: b3 :: tl) 0 4)
      with (slice ([b0; b1; b2; b3] ++ tl) 0 (len [b0; b1; b2; b3])).
    rewrite slice_head_app, Hfrom. cbn [mbind result_bind bind].
    change (slice_from (b0 :: b1 :: b2 :: b3 :: tl) 4)
      with (slice_from ([b0; b1; b2; b3] ++ tl) (len [b0; b1; b2; b3])).
    rewrite slice_from_app, (IH tl fuel eq_refl) by (simpl in Hf; lia).
    reflexivity.
Qed.

Lemma import_uint32_stream_total (n : nat) :
  forall (bs : list byte) (fuel : nat),
    length bs = (4 * n)%nat -> (n <= fuel)%nat ->
    is_ok (mrc.import_uint32_stream fuel bs) = true.
Proof.
  induction n as [|n IH]; intros bs fuel Hl Hf.
  - destruct bs; [|discriminate]. destruct fuel; reflexivity.
  - destruct bs as [|b0 [|b1 [|b2 [|b3 tl]]]]; try (simpl in Hl; lia).
    destruct fuel as [|fuel]; [lia|].
    cbn [mrc.import_uint32_stream].
    change (slice (b0 :: b1 :: b2 :: b3 :: tl) 0 4)
      with (slice ([b0; b1; b2; b3] ++ tl) 0 (len [b0; b1; b2; b3])).
    rewrite slice_head_app. cbn [utils.from_uint32_le mbind result_bind bind].
    change (slice_from (b0 :: b1 :: b2 :: b3 :: tl) 4)
      with (slice_from ([b0; b1; b2; b3] ++ tl) (len [b0; b1; b2; b3])).
    rewrite slice_from_app.
    specialize (IH tl fuel ltac:(simpl in Hl; lia) ltac:(lia)).
    destruct (mrc.import_uint32_stream fuel tl); [reflexivity|discriminate].
Qed.

(** X18: [FixupPageTable] reads any buffer of a whole number of dwords,
    into a list that exports to the buffer again; and what a list of
    offsets exports to, [FixupPageTable] reads back as that list. *)
Theorem FixupPageTable_round_trip :
  (forall buffer : list byte,
     len buffer mod 4 = 0 ->
     exists offsets,
       le.FixupPageTable buffer = Ok offsets
       /\ 4 * len offsets = len buffer
       /\ mrc.export_uint32_stream offsets = Ok buffer)
  /\ (forall (offsets : list Z) (buffer : list byte),
        mrc.export_uint32_stream offsets = Ok buffer ->
        le.FixupPageTable buffer = Ok offsets).
Proof.
  unfold le.FixupPageTable. split.
  - intros buffer Hmod.
    assert (Hok : is_ok (mrc.import_uint32_stream (length buffer) buffer) = true).
    { apply (import_uint32_stream_total (length buffer / 4)).
      - unfold len in Hmod.
        pose proof (Nat.div_mod_eq (length buffer) 4) as Hd.
        assert ((length buffer mod 4)%nat = 0%nat); [|lia].
        apply Nat2Z.inj. rewrite Nat2Z.inj_mod. exact Hmod.
      - apply Nat.Div0.div_le_upper_bound. lia. }
    destruct (mrc.import_uint32_stream (length buffer) buffer) as [offsets|] eqn:E;
      [|discriminate].
    exists offsets. split; [reflexivity|].
    destruct (export_import_uint32_stream _ _ _ E) as [He Hl]. auto.
  - intros offsets buffer H. apply import_export_uint32_stream; [exact H|].
    apply export_uint32_stream_len in H. unfold len in H. lia.
Qed.

Lemma FixupPageTable_round_trip_witness :
  (exists offsets,
     le.FixupPageTable [x00; x00; x00; x00; x09; x00; x00; x00] = Ok offsets
     /\ 4 * len offsets = 8)
  /\ le.FixupPageTable [x00; x00; x00; x00; x09; x00; x00; x00] = Ok [0; 9].
Proof.
  destruct FixupPageTable_round_trip as [H1 H2]. split.
  - destruct (H1 [x00; x00; x00; x00; x09; x00; x00; x00] eq_refl)
      as (offsets & Ho & Hl & _).
    exists offsets. split; [exact Ho|exact Hl].
  - apply (H2 [0; 9]). reflexivity.
Defined.

Lemma get_size_nonneg (cls : mrc.Block) : 0 <= mrc.get_size cls.
Proof.
  induction cls as [|[? fd] cls IH]; cbn [mrc.get_size]; [lia|].
  assert (0 <= mrc.size fd)
    by (destruct fd; cbn [mrc.size]; [apply len_nonneg|lia..]).
  lia.
Qed.

Lemma import_data_ok (cls : mrc.Block) :
  Forall (fun nf => match snd nf with mrc.Const _ => False | _ => True end) cls ->
  forall buf,
    mrc.get_size cls <= len buf -> is_ok (mrc.import_data cls buf) = true.
Proof.
  induction 1 as [|[n fd] cls Hfd _ IH]; intros buf Hsz; [reflexivity|].
  cbn [mrc.import_data mrc.get_size snd] in *.
  pose proof (get_size_nonneg cls) as Hc.
  assert (Hk : 0 <= mrc.size fd <= len buf /\ 1 <= mrc.size fd)
    by (destruct fd; cbn [mrc.size] in *; [contradiction|lia..]).
  assert (Hlen : length (slice buf 0 (mrc.size fd)) = Z.to_nat (mrc.size fd)).
  { pose proof (len_slice buf 0 (mrc.size fd)) as Hl. unfold len in *. lia. }
  assert (Hfrom : len (slice_from buf (mrc.size fd)) = len buf - mrc.size fd).
  { rewrite slice_from_nonneg by lia. unfold len in *. rewrite length_drop. lia. }
  specialize (IH (slice_from buf (mrc.size fd)) ltac:(lia)).
  destruct (mrc.import_data cls _) as [attrs|]; [|discriminate].
  destruct fd as [v| | |]; [contradiction| | |]; cbn [mrc.size] in Hlen;
    destruct (slice buf 0 _) as [|b0 [|b1 [|b2 [|b3 [|? ?]]]]];
    try discriminate; reflexivity.
Qed.

(** X19: [LEHeader] reads any buffer that starts with LE and has the 176
    bytes of the header, into a header with a value for every field; the
    header exported again is the first 176 bytes of the buffer. *)
Theorem LEHeader_round_trip (buffer : list byte) :
  slice buffer 0 2 = le.b "LE" ->
  176 <= len buffer ->
  exists le_header,
    mrc.import_data le.LEHeader buffer = Ok le_header
    /\ (forall name,
          name ∈ attr_names le.LEHeader -> is_Some (le_header !! name))
    /\ mrc.export_data le.LEHeader le_header = Ok (slice buffer 0 176).
Proof.
  intros Hm Hsz.
  assert (Hok : is_ok (mrc.import_data le.LEHeader buffer) = true).
  { change le.LEHeader
      with (("magic"%string, mrc.Const [x4c; x45]) :: tail le.LEHeader).
    cbn [mrc.import_data mrc.from_bytes mrc.size].
    change (len [x4c; x45]) with 2. cbn [mbind result_bind bind].
    assert (Hrest : is_ok (mrc.import_data (tail le.LEHeader) (slice_from buffer 2))
                    = true).
    { apply import_data_ok.
      - cbn [tail le.LEHeader]. repeat constructor.
      - change (mrc.get_size (tail le.LEHeader)) with 174.
        rewrite slice_from_nonneg by lia. unfold len in *.
        rewrite length_drop. lia. }
    destruct (mrc.import_data (tail le.LEHeader) _); [reflexivity|discriminate]. }
  destruct (mrc.import_data le.LEHeader buffer) as [h|] eqn:E; [|discriminate].
  exists h. split; [reflexivity|]. split.
  - apply (import_attrs _ _ _ E).
  - apply (export_import _ LEHeader_names_NoDup _ _ (LEHeader_consts _ Hm) E).
Qed.

Lemma LEHeader_round_trip_witness :
  exists le_header,
    mrc.import_data le.LEHeader (sample_le_header 0) = Ok le_header
    /\ mrc.export_data le.LEHeader le_header
       = Ok (slice (sample_le_header 0) 0 176).
Proof.
  destruct (LEHeader_round_trip (sample_le_header 0)) as (h & H1 & _ & H2).
  - reflexivity.
  - vm_compute. discriminate.
  - exists h. split; [exact H1|exact H2].
Defined.

(** ** Labels and the writer *)

Lemma create_labels_seq (n : nat) :
  forall label_id,
    patch.create_labels n label_id
    = (map (fun k => label_id + Z.of_nat k) (seq 0 n), label_id + Z.of_nat n).
Proof.
  induction n as [|n IH]; intros label_id.
  - cbn. rewrite Z.add_0_r. reflexivity.
  - cbn [patch.create_labels patch.create_label]. rewrite IH.
    cbn [seq map]. rewrite <- seq_shift, map_map. f_equal.
    + f_equal; [lia|]. apply map_ext. intros k. lia.
    + lia.
Qed.

(** X22: [n] calls of [patch.create_label] in a row return [n] different ids,
    the values of the counter from the first call on, and leave the
    counter [n] higher. *)
Theorem create_labels_fresh (n : nat) (label_id : Z) (ids : list Z)
    (label_id' : Z) :
  patch.create_labels n label_id = (ids, label_id') ->
  NoDup ids
  /\ Forall (fun idd => label_id <= idd < label_id') ids
  /\ length ids = n
  /\ label_id' = label_id + Z.of_nat n.
Proof.
  rewrite create_labels_seq. intros [= <- <-].
  split; [|split; [|split; [|reflexivity]]].
  - apply NoDup_fmap_2; [|apply NoDup_seq]. intros a b. lia.
  - apply Forall_forall. intros x Hx.
    apply list_elem_of_fmap in Hx as (k & -> & Hk).
    apply elem_of_seq in Hk. lia.
  - rewrite length_map, length_seq. reflexivity.
Qed.

Lemma create_labels_fresh_witness :
  patch.create_labels 3 1 = ([1; 2; 3], 4)
  /\ NoDup [1; 2; 3]
  /\ Forall (fun idd => 1 <= idd < 4) [1; 2; 3].
Proof.
  split; [reflexivity|].
  destruct (create_labels_fresh 3 1 [1; 2; 3] 4 eq_refl) as (H1 & H2 & _).
  split; [exact H1|exact H2].
Defined.

Lemma write_output_shape (f : list byte) (mz_off le_off : Z)
    (h : gmap string Z) (fixup_records : list (list le.FixupTuple))
    (page_data out : list byte) :
  0 <= le_off <= len f ->
  patch.write_output f mz_off le_off h fixup_records page_data = Ok out ->
  exists h' hdr rest,
    mrc.export_data le.LEHeader h' = Ok hdr
    /\ (forall name, name ∉ rewritten_fields -> h' !! name = h !! name)
    /\ len (slice_to f le_off) = le_off
    /\ out = slice_to f le_off ++ hdr
             ++ slice f (le_off + 176)
                  (le_off + h' !!! "fixup_page_table_offset"%string)
             ++ rest.
Proof.
  intros Hle Hrun. unfold patch.write_output in Hrun.
  destruct (mapM le.fixups_encode fixup_records) as [fixup_output|e];
    cbn [mbind result_bind bind] in Hrun; [|discriminate].
  destruct (mrc.export_uint32_stream _) as [pt|e];
    cbn [mbind result_bind bind] in Hrun; [|discriminate].
  set (h' := patch.update_header h mz_off le_off pt (concat fixup_output) _) in *.
  destruct (mrc.export_data le.LEHeader h') as [hdr|e] eqn:Ehdr;
    cbn [mbind result_bind bind] in Hrun; [|discriminate].
  injection Hrun as <-.
  exists h', hdr. eexists. split; [exact Ehdr|]. split.
  { intros name Hn. apply update_header_other, Hn. }
  split; [|reflexivity].
  rewrite slice_to_nonneg by lia. unfold len in *. rewrite length_take. lia.
Qed.

(** The writer leaves everything before the LE header alone, and the
    bytes between the header and the fixup page table. *)
Lemma write_output_stub (f : list byte) (mz_off le_off : Z)
    (le_header : gmap string Z) (fixup_records : list (list le.FixupTuple))
    (page_data out : list byte) :
  0 <= le_off <= len f ->
  patch.write_output f mz_off le_off le_header fixup_records page_data = Ok out ->
  let fixup_page_table_offset :=
    le_header !!! "fixup_page_table_offset"%string in
  slice_to out le_off = slice_to f le_off
  /\ (176 <= fixup_page_table_offset ->
      le_off + fixup_page_table_offset <= len f ->
      slice out (le_off + 176) (le_off + fixup_page_table_offset)
      = slice f (le_off + 176) (le_off + fixup_page_table_offset)).
Proof.
  intros Hle Hrun. cbv zeta.
  destruct (write_output_shape _ _ _ _ _ _ _ Hle Hrun)
    as (h' & hdr & rest & Ehdr & Hother & Hlen & ->).
  split.
  - set (A := slice_to f le_off) in *. rewrite slice_to_slice by lia.
    clearbody A. rewrite <- Hlen. apply slice_head_app.
  - intros H176 Hfit.
    assert (Hfpt : h' !!! "fixup_page_table_offset"%string
                   = le_header !!! "fixup_page_table_offset"%string).
    { rewrite !lookup_total_alt, Hother; [reflexivity|].
      apply (bool_decide_unpack _). vm_compute. exact I. }
    rewrite Hfpt.
    set (fpt := le_header !!! "fixup_page_table_offset"%string) in *.
    set (M := slice f (le_off + 176) (le_off + fpt)).
    assert (HM : len M = fpt - 176).
    { unfold M. rewrite len_slice by lia. lia. }
    assert (Hhdr : len hdr = 176).
    { destruct (import_export le.LEHeader h' hdr [] Ehdr) as [Hl _]. exact Hl. }
    rewrite (app_assoc (slice_to f le_off) hdr).
    pose proof (slice_app (slice_to f le_off ++ hdr) (M ++ rest) 0 (len M)) as Hs.
    rewrite len_app, Hlen, Hhdr, HM, Z.add_0_r in Hs.
    replace (le_off + 176 + (fpt - 176)) with (le_off + fpt) in Hs by lia.
    rewrite Hs by lia. rewrite <- HM. apply slice_head_app.
Qed.

(** The writer changes six fields of the header and no other. *)
Lemma write_output_fields (f : list byte) (mz_off le_off : Z)
    (le_header : gmap string Z) (fixup_records : list (list le.FixupTuple))
    (page_data out : list byte) :
  0 <= le_off <= len f ->
  patch.write_output f mz_off le_off le_header fixup_records page_data = Ok out ->
  exists emitted,
    mrc.import_data le.LEHeader (slice_from out le_off) = Ok emitted
    /\ forall name,
         name ∈ attr_names le.LEHeader ->
         name ∉ rewritten_fields ->
         emitted !! name = le_header !! name.
Proof.
  intros Hle Hrun.
  destruct (write_output_shape _ _ _ _ _ _ _ Hle Hrun)
    as (h' & hdr & rest & Ehdr & Hother & Hlen & ->).
  match goal with
  | |- context [hdr ++ ?t] =>
      destruct (import_export le.LEHeader h' hdr t Ehdr)
        as (_ & emitted & Him & Hlook)
  end.
  exists emitted. split.
  - rewrite (slice_from_app_len _ _ le_off Hlen). exact Him.
  - intros name Hin Hout. rewrite (Hlook name Hin). apply Hother, Hout.
Qed.

(** ** [patch], end to end *)

Lemma patch_Ok_inv
    (Decoder : Z -> list byte -> list patch.Instruction)
    (assemble_x86 : list patch.Instruction -> list byte)
    (mouselook_patches :
       list byte -> string -> bool -> result (list (list byte * Z)))
    (f : list byte) (fix_speed mouselook invert_y : bool) (out : list byte) :
  patch.patch Decoder assemble_x86 mouselook_patches f fix_speed mouselook
    invert_y = Ok out ->
  exists mz_off le_off h fixup_records page_data name version language,
    le.search_for_le f = Ok (mz_off, le_off)
    /\ mrc.import_data le.LEHeader (slice_from f le_off) = Ok h
    /\ patch.detect_version
         (slice_from f (mz_off + h !!! "data_pages_offset"%string))
       = Ok (name, version, language)
    /\ patch.write_output f mz_off le_off h fixup_records page_data = Ok out.
Proof.
  intros Hrun. unfold patch.patch in Hrun.
  destruct (le.search_for_le f) as [[mz_off le_off]|e] eqn:Hs;
    cbn [mbind result_bind bind] in Hrun; [|discriminate].
  destruct (mrc.import_data le.LEHeader _) as [h|e] eqn:Hh;
    cbn [mbind result_bind bind] in Hrun; [|discriminate].
  destruct (le.FixupPageTable _) as [offsets|e];
    cbn [mbind result_bind bind] in Hrun; [|discriminate].
  destruct (patch.record_slices _ _ _ _) as [xs|e];
    cbn [mbind result_bind bind] in Hrun; [|discriminate].
  destruct (mapM le.fixups_decode xs) as [recs|e];
    cbn [mbind result_bind bind] in Hrun; [|discriminate].
  destruct (le.ObjectTable _) as [object_table|e];
    cbn [mbind result_bind bind] in Hrun; [|discriminate].
  destruct (le.ObjectPageTable _) as [object_page_table|e];
    cbn [mbind result_bind bind] in Hrun; [|discriminate].
  destruct (patch.detect_version _) as [[[name version] language]|e] eqn:Hv;
    cbn [mbind result_bind bind] in Hrun; [|discriminate].
  match type of Hrun with
  | mbind _ ?m = _ => destruct m as [codes|e]
  end; cbn [mbind result_bind bind] in Hrun; [|discriminate].
  match type of Hrun with
  | mbind _ ?m = _ => destruct m as [codes'|e]
  end; cbn [mbind result_bind bind] in Hrun; [|discriminate].
  match type of Hrun with
  | mbind _ ?m = _ => destruct m as [datas|e]
  end; cbn [mbind result_bind bind] in Hrun; [|discriminate].
  destruct (patch.apply_code_patches _ _ _ _) as [[recs' pd']|e];
    cbn [mbind result_bind bind] in Hrun; [|discriminate].
  exists mz_off, le_off, h, recs', (patch.apply_data_patches pd' datas),
    name, version, language.
  auto.
Qed.

(** X20: when [patch] goes through on a file whose LE was found at a
    place [le_off] of the file, the output starts with the same [le_off]
    bytes as the input: nothing before the LE header is changed. *)
Theorem patch_keeps_stub
    (Decoder : Z -> list byte -> list patch.Instruction)
    (assemble_x86 : list patch.Instruction -> list byte)
    (mouselook_patches :
       list byte -> string -> bool -> result (list (list byte * Z)))
    (f : list byte) (fix_speed mouselook invert_y : bool) (out : list byte)
    (mz_off le_off : Z) :
  patch.patch Decoder assemble_x86 mouselook_patches f fix_speed mouselook
    invert_y = Ok out ->
  le.search_for_le f = Ok (mz_off, le_off) ->
  0 <= le_off <= len f ->
  slice_to out le_off = slice_to f le_off.
Proof.
  intros Hrun Hs Hle.
  apply patch_Ok_inv in Hrun
    as (mz & le & h & recs & pd & name & version & language
        & Hs' & Hh & _ & Hw).
  rewrite Hs in Hs'. injection Hs' as <- <-.
  destruct (write_output_stub f mz_off le_off h recs pd out) as [H _];
    [exact Hle|exact Hw|exact H].
Qed.

Lemma patch_keeps_stub_witness :
  slice_to killing_moon_out 64 = slice_to killing_moon_exe 64.
Proof.
  apply (patch_keeps_stub Decoder_sample no_assembler no_mouselook
           killing_moon_exe false false false killing_moon_out 0 64).
  - exact killing_moon_run.
  - exact killing_moon_le.
  - vm_compute. split; discriminate.
Defined.

(** X21: when [patch] goes through on a file whose LE was found at a
    place [le_off] of the file, the output has an LE header at [le_off]
    too, and every field of it but the six the writer sets (the fixup
    record table offset, the fixup section size and checksum, the import
    module and procedure table offsets and the data pages offset) has the
    value it had in the input. *)
Theorem patch_keeps_header_fields
    (Decoder : Z -> list byte -> list patch.Instruction)
    (assemble_x86 : list patch.Instruction -> list byte)
    (mouselook_patches :
       list byte -> string -> bool -> result (list (list byte * Z)))
    (f : list byte) (fix_speed mouselook invert_y : bool) (out : list byte)
    (mz_off le_off : Z) :
  patch.patch Decoder assemble_x86 mouselook_patches f fix_speed mouselook
    invert_y = Ok out ->
  le.search_for_le f = Ok (mz_off, le_off) ->
  0 <= le_off <= len f ->
  exists le_header emitted,
    mrc.import_data le.LEHeader (slice_from f le_off) = Ok le_header
    /\ mrc.import_data le.LEHeader (slice_from out le_off) = Ok emitted
    /\ forall name,
         name ∈ attr_names le.LEHeader ->
         name ∉ rewritten_fields ->
         emitted !! name = le_header !! name.
Proof.
  intros Hrun Hs Hle.
  apply patch_Ok_inv in Hrun
    as (mz & le & h & recs & pd & name & version & language
        & Hs' & Hh & _ & Hw).
  rewrite Hs in Hs'. injection Hs' as <- <-.
  destruct (write_output_fields f mz_off le_off h recs pd out)
    as (emitted & He & Hf); [exact Hle|exact Hw|].
  exists h, emitted. auto.
Qed.

Lemma patch_keeps_header_fields_witness :
  exists le_header emitted,
    mrc.import_data le.LEHeader (slice_from killing_moon_exe 64) = Ok le_header
    /\ mrc.import_data le.LEHeader (slice_from killing_moon_out 64) = Ok emitted
    /\ emitted !! "page_size"%string = le_header !! "page_size"%string.
Proof.
  destruct (patch_keeps_header_fields Decoder_sample no_assembler no_mouselook
              killing_moon_exe false false false killing_moon_out 0 64
              killing_moon_run killing_moon_le)
    as (le_header & emitted & H1 & H2 & H3).
  - vm_compute. split; discriminate.
  - exists le_header, emitted. split; [exact H1|]. split; [exact H2|].
    apply H3; apply (bool_decide_unpack _); vm_compute; exact I.
Defined.

Lemma write_output_tail (f : list byte) (mz_off le_off : Z)
    (h : gmap string Z) (fixup_records : list (list le.FixupTuple))
    (page_data out : list byte) :
  patch.write_output f mz_off le_off h fixup_records page_data = Ok out ->
  exists head, out = head ++ page_data.
Proof.
  intros Hrun. unfold patch.write_output in Hrun.
  destruct (mapM le.fixups_encode fixup_records) as [fixup_output|e];
    cbn [mbind result_bind bind] in Hrun; [|discriminate].
  destruct (mrc.export_uint32_stream _) as [pt|e];
    cbn [mbind result_bind bind] in Hrun; [|discriminate].
  destruct (mrc.export_data le.LEHeader _) as [hdr|e];
    cbn [mbind result_bind bind] in Hrun; [|discriminate].
  injection Hrun as <-. eexists. rewrite !app_assoc. reflexivity.
Qed.

Lemma apply_data_patches_app (l k : list (list byte * Z)) :
  forall page_data,
    patch.apply_data_patches page_data (l ++ k)
    = patch.apply_data_patches (patch.apply_data_patches page_data l) k.
Proof.
  induction l as [|[m o] l IH]; intros pd; [reflexivity|].
  cbn [app patch.apply_data_patches]. apply IH.
Qed.

Lemma apply_code_patches_data
    (Decoder : Z -> list byte -> list patch.Instruction) (page_size : Z)
    (CODE_PATCHES : list (list byte * Z)) :
  forall (fixup_records fixup_records' : list (list le.FixupTuple))
         (page_data page_data' : list byte),
    patch.apply_code_patches Decoder page_size (fixup_records, page_data)
      CODE_PATCHES = Ok (fixup_records', page_data') ->
    page_data' = patch.apply_data_patches page_data CODE_PATCHES.
Proof.
  induction CODE_PATCHES as [|[mod_code mod_offset] rest IH];
    intros recs recs' pd pd' H.
  - injection H as <- <-. reflexivity.
  - cbn [patch.apply_code_patches patch.apply_data_patches] in H |- *.
    unfold patch.apply_code_patch in H.
    destruct (patch.remove_fixups _ _ _) as [recs0|];
      cbn [mbind result_bind bind] in H; [|discriminate].
    destruct (patch.add_fixups _ _ _ _ _) as [recs1|];
      cbn [mbind result_bind bind] in H; [|discriminate].
    apply (IH _ _ _ _ H).
Qed.

(** X23: when [patch] goes through, the output ends with the data pages
    of the input after these splices, in this order: with fix_speed, the
    seven assembled NOPs at 5 bytes into the place [find_offset] gives for
    the speed-bug code; with mouselook, the code patches of the mouselook
    block; for Under a Killing Moon, the credit text at the credits line if
    that is found. The fixup work changes no byte of the data. *)
Theorem patch_page_data
    (Decoder : Z -> list byte -> list patch.Instruction)
    (assemble_x86 : list patch.Instruction -> list byte)
    (mouselook_patches :
       list byte -> string -> bool -> result (list (list byte * Z)))
    (f : list byte) (fix_speed mouselook invert_y : bool) (out : list byte) :
  patch.patch Decoder assemble_x86 mouselook_patches f fix_speed mouselook
    invert_y = Ok out ->
  exists mz_off le_off le_header name version language
         speed_patches mouselook_code credit_patches head,
    le.search_for_le f = Ok (mz_off, le_off)
    /\ mrc.import_data le.LEHeader (slice_from f le_off) = Ok le_header
    /\ let page_data :=
         slice_from f (mz_off + le_header !!! "data_pages_offset"%string) in
       patch.detect_version page_data = Ok (name, version, language)
       /\ (if fix_speed
           then exists fix_speed_offset,
                  patch.find_offset page_data patch.fix_speed_pattern 5
                    "speed bug code" = Ok fix_speed_offset
                  /\ speed_patches
                     = [(assemble_x86
                           (replicate 7 (patch.Instruction_create patch.NOPD)),
                         fix_speed_offset)]
           else speed_patches = [])
       /\ (if mouselook
           then mouselook_patches page_data name invert_y = Ok mouselook_code
           else mouselook_code = [])
       /\ (match patch.find_offset page_data (re.lit "and developed by") 0
                   "opening credits" with
           | Ok credit_offset =>
               if String.eqb name "Under a Killing Moon"
               then credit_patches = [(patch.credit_data, credit_offset)]
               else credit_patches = []
           | Raise _ => credit_patches = []
           end)
       /\ out = head
                ++ patch.apply_data_patches page_data
                     (speed_patches ++ mouselook_code ++ credit_patches).
Proof.
  intros Hrun. unfold patch.patch in Hrun.
  destruct (le.search_for_le f) as [[mz_off le_off]|e] eqn:Hs;
    cbn [mbind result_bind bind] in Hrun; [|discriminate].
  destruct (mrc.import_data le.LEHeader _) as [h|e] eqn:Hh;
    cbn [mbind result_bind bind] in Hrun; [|discriminate].
  destruct (le.FixupPageTable _) as [offsets|e];
    cbn [mbind result_bind bind] in Hrun; [|discriminate].
  destruct (patch.record_slices _ _ _ _) as [xs|e];
    cbn [mbind result_bind bind] in Hrun; [|discriminate].
  destruct (mapM le.fixups_decode xs) as [recs|e];
    cbn [mbind result_bind bind] in Hrun; [|discriminate].
  destruct (le.ObjectTable _) as [object_table|e];
    cbn [mbind result_bind bind] in Hrun; [|discriminate].
  destruct (le.ObjectPageTable _) as [object_page_table|e];
    cbn [mbind result_bind bind] in Hrun; [|discriminate].
  set (page_data := slice_from f (mz_off + h !!! "data_pages_offset"%string)) in *.
  destruct (patch.detect_version page_data) as [[[name version] language]|e]
    eqn:Hv; cbn [mbind result_bind bind] in Hrun; [|discriminate].
  assert (Hspeed : exists speed_patches,
            (if fix_speed
             then
               fix_speed_offset ←
                 patch.find_offset page_data patch.fix_speed_pattern 5
                   "speed bug code";
               Ok [(assemble_x86
                      (replicate 7 (patch.Instruction_create patch.NOPD)),
                    fix_speed_offset)]
             else Ok []) = Ok speed_patches
            /\ (if fix_speed
                then exists fix_speed_offset,
                       patch.find_offset page_data patch.fix_speed_pattern 5
                         "speed bug code" = Ok fix_speed_offset
                       /\ speed_patches
                          = [(assemble_x86
                                (replicate 7
                                   (patch.Instruction_create patch.NOPD)),
                              fix_speed_offset)]
                else speed_patches = [])).
  { destruct fix_speed.
    - destruct (patch.find_offset page_data patch.fix_speed_pattern 5 _)
        as [off|e]; cbn [mbind result_bind bind] in Hrun |- *; [|discriminate].
      eexists. split; [reflexivity|]. exists off. auto.
    - eexists. split; reflexivity. }
  destruct Hspeed as (speed_patches & Espeed & Hspeed).
  rewrite Espeed in Hrun. cbn [mbind result_bind bind] in Hrun.
  assert (Hml : exists mouselook_code,
            (if mouselook
             then more ← mouselook_patches page_data name invert_y;
                  Ok (speed_patches ++ more)
             else Ok speed_patches) = Ok (speed_patches ++ mouselook_code)
            /\ (if mouselook
                then mouselook_patches page_data name invert_y
                     = Ok mouselook_code
                else mouselook_code = [])).
  { destruct mouselook.
    - destruct (mouselook_patches page_data name invert_y) as [more|e];
        cbn [mbind result_bind bind] in Hrun |- *; [|discriminate].
      exists more. auto.
    - exists []. rewrite app_nil_r. auto. }
  destruct Hml as (mouselook_code & Eml & Hml).
  rewrite Eml in Hrun. cbn [mbind result_bind bind] in Hrun.
  assert (Hcredit : exists credit_patches,
            (if String.eqb name "Under a Killing Moon"
             then
               match patch.find_offset page_data (re.lit "and developed by") 0
                       "opening credits" with
               | Ok credit_offset => Ok [(patch.credit_data, credit_offset)]
               | Raise DataNotFound => Ok []
               | Raise e => Raise e
               end
             else Ok []) = Ok credit_patches
            /\ match patch.find_offset page_data (re.lit "and developed by") 0
                       "opening credits" with
               | Ok credit_offset =>
                   if String.eqb name "Under a Killing Moon"
                   then credit_patches = [(patch.credit_data, credit_offset)]
                   else credit_patches = []
               | Raise _ => credit_patches = []
               end).
  { destruct (String.eqb name "Under a Killing Moon").
    - destruct (patch.find_offset page_data (re.lit "and developed by") 0 _)
        as [off|e]; cbn [mbind result_bind bind] in Hrun |- *.
      + eexists. split; reflexivity.
      + destruct e; cbn [mbind result_bind bind] in Hrun; try discriminate.
        eexists. split; reflexivity.
    - exists []. split; [reflexivity|].
      destruct (patch.find_offset page_data (re.lit "and developed by") 0 _);
        reflexivity. }
  destruct Hcredit as (credit_patches & Ecredit & Hcredit).
  rewrite Ecredit in Hrun. cbn [mbind result_bind bind] in Hrun.
  destruct (patch.apply_code_patches _ _ _ _) as [[recs' pd']|e] eqn:Ecode;
    cbn [mbind result_bind bind] in Hrun; [|discriminate].
  apply apply_code_patches_data in Ecode. subst pd'.
  apply write_output_tail in Hrun as [head ->].
  exists mz_off, le_off, h, name, version, language,
    speed_patches, mouselook_code, credit_patches, head.
  split; [reflexivity|]. split; [exact Hh|]. cbv zeta. fold page_data.
  split; [exact Hv|]. split; [exact Hspeed|]. split; [exact Hml|].
  split; [exact Hcredit|].
  rewrite <- apply_data_patches_app, <- app_assoc. reflexivity.
Qed.

Lemma patch_page_data_witness :
  exists head credit_patches mz_off (le_header : gmap string Z),
    killing_moon_out
    = head
      ++ patch.apply_data_patches
           (slice_from killing_moon_exe
              (mz_off + le_header !!! "data_pages_offset"%string))
           ([] ++ [] ++ credit_patches).
Proof.
  destruct (patch_page_data Decoder_sample no_assembler no_mouselook
              killing_moon_exe false false false killing_moon_out
              killing_moon_run)
    as (mz_off & le_off & le_header & name & version & language
        & speed_patches & mouselook_code & credit_patches & head
        & _ & _ & H).
  cbv zeta in H. destruct H as (_ & Hs & Hm & _ & Hout).
  cbv iota in Hs, Hm. subst speed_patches mouselook_code.
  exists head, credit_patches, mz_off, le_header. exact Hout.
Defined.

(** ** The search for plain bytes, completed *)

Lemma starts_nil (s : list byte) : starts [] s = true.
Proof. reflexivity. Qed.

Lemma starts_cons (b x : byte) (bs s : list byte) :
  starts (b :: bs) (x :: s) = bool_decide (x = b) && starts bs s.
Proof.
  unfold starts. cbn [length take].
  destruct (bool_decide_reflect (x = b)) as [->|Hne];
    destruct (bool_decide_reflect (take (length bs) s = bs)) as [He|Hn];
    cbn [andb]; [apply bool_decide_eq_true_2|apply bool_decide_eq_false_2..];
    congruence.
Qed.

Lemma match_nodes_literal_eq {R} (bs : list byte) :
  forall (s : list byte) pos caps
         (k : list byte -> Z -> gmap nat (Z * Z) -> option R),
    re.match_nodes (literal bs) s pos caps k
    = if starts bs s then k (drop (length bs) s) (pos + len bs) caps else None.
Proof.
  induction bs as [|b bs IH]; intros s pos caps k.
  - rewrite starts_nil. change (len []) with 0. rewrite Z.add_0_r. reflexivity.
  - cbn [literal map re.match_nodes re.match_node re.match_atom].
    destruct s as [|x s]; [reflexivity|].
    rewrite starts_cons. cbn [re.in_charset].
    destruct (bool_decide (x = b)); [|reflexivity].
    cbn [andb]. fold (literal bs). rewrite IH.
    destruct (starts bs s); [|reflexivity].
    cbn [length drop]. rewrite len_cons. f_equal. lia.
Qed.

Lemma matches_here_literal (bs source s : list byte) (pos : Z) :
  bs <> [] ->
  re.matches_here (literal bs) source s pos
  = if starts bs s then [re.mkMatch source (pos, pos + len bs) ∅] else [].
Proof.
  intros Hbs. unfold re.matches_here, re.match_here.
  rewrite !match_nodes_literal_eq.
  destruct (starts bs s); [|reflexivity].
  assert (Hpos : 0 < len bs).
  { destruct bs; [contradiction|]. rewrite len_cons.
    pose proof (len_nonneg bs). lia. }
  cbn [andb]. unfold re.end_. cbn [re.span snd].
  destruct (Z.eqb_spec (pos + len bs) pos); [lia|reflexivity].
Qed.

Lemma scan_literal_none (bs source : list byte) (resume : Z) :
  bs <> [] ->
  forall (s : list byte) (pos : Z),
    (forall k : nat, (k <= length s)%nat -> starts bs (drop k s) = false) ->
    re.scan (literal bs) source s pos resume = [].
Proof.
  intros Hbs. induction s as [|x s IH]; intros pos Hno;
    cbn [re.scan]; rewrite matches_here_literal by exact Hbs;
    pose proof (Hno 0%nat ltac:(lia)) as H0; rewrite drop_0 in H0; rewrite H0.
  - destruct (pos <? resume); reflexivity.
  - assert (Hhere : (if pos <? resume then [] else []) = @nil re.Match)
      by (destruct (pos <? resume); reflexivity).
    rewrite Hhere. cbn [last app]. apply IH.
    intros k Hk. apply (Hno (S k)). simpl. lia.
Qed.

Lemma scan_literal_one (bs source : list byte) :
  bs <> [] ->
  forall (a s : list byte) (pos resume : Z),
    resume <= pos ->
    starts bs (drop (length a) s) = true ->
    (length a <= length s)%nat ->
    (forall k : nat,
       (k <= length s)%nat -> starts bs (drop k s) = true -> k = length a) ->
    re.scan (literal bs) source s pos resume
    = [re.mkMatch source
         (pos + Z.of_nat (length a), pos + Z.of_nat (length a) + len bs) ∅].
Proof.
  intros Hbs. induction a as [|y a IH]; intros s pos resume Hres Hat Hlen Huniq.
  - cbn [length] in Hat. rewrite drop_0 in Hat.
    change (Z.of_nat (length [])) with 0.
    rewrite Z.add_0_r.
    destruct s as [|x s].
    { exfalso. destruct bs; [contradiction|].
      apply bool_decide_eq_true_1 in Hat. discriminate. }
    cbn [re.scan]. rewrite matches_here_literal by exact Hbs. rewrite Hat.
    destruct (Z.ltb_spec pos resume); [lia|].
    cbn [last re.end_ re.span snd app]. f_equal.
    apply scan_literal_none; [exact Hbs|].
    intros k Hk. destruct (starts bs (drop k s)) eqn:E; [|reflexivity].
    specialize (Huniq (S k) ltac:(simpl; lia) E). discriminate.
  - destruct s as [|x s]; [simpl in Hlen; lia|].
    cbn [re.scan]. rewrite matches_here_literal by exact Hbs.
    assert (H0 : starts bs (x :: s) = false).
    { destruct (starts bs (x :: s)) eqn:E; [|reflexivity].
      specialize (Huniq 0%nat ltac:(lia) E). discriminate. }
    rewrite H0.
    assert (Hhere : (if pos <? resume then [] else []) = @nil re.Match)
      by (destruct (pos <? resume); reflexivity).
    rewrite Hhere. cbn [last app].
    rewrite (IH s (pos + 1) resume); [| lia | exact Hat | simpl in Hlen; lia |].
    + cbn [length]. do 3 f_equal; lia.
    + intros k Hk E. specialize (Huniq (S k) ltac:(simpl; lia) E).
      simpl in Huniq. lia.
Qed.

Lemma starts_slice (bs l : list byte) (k : nat) :
  starts bs (drop k l) = true
  <-> slice l (Z.of_nat k) (Z.of_nat k + len bs) = bs.
Proof.
  rewrite slice_nonneg by (pose proof (len_nonneg bs); lia).
  replace (Z.to_nat (Z.of_nat k + len bs - Z.of_nat k)) with (length bs)
    by (unfold len; lia).
  rewrite Nat2Z.id. unfold starts. apply bool_decide_eq_true.
Qed.

(** X24: when the bytes of a non-empty pattern of plain bytes stand at
    one place of the buffer and at no other, [find_offset] returns that
    place plus the offset asked for. *)
Theorem find_offset_literal_unique (page_data bs : list byte) (place offset : Z)
    (description : string) :
  bs <> [] ->
  0 <= place ->
  slice page_data place (place + len bs) = bs ->
  (forall j, 0 <= j -> slice page_data j (j + len bs) = bs -> j = place) ->
  patch.find_offset page_data (literal bs) offset description
  = Ok (place + offset).
Proof.
  intros Hbs H0 Hat Huniq.
  assert (Hin : (Z.to_nat place < length page_data)%nat).
  { destruct (Nat.lt_ge_cases (Z.to_nat place) (length page_data)) as [|Hge];
      [assumption|exfalso].
    rewrite slice_nonneg in Hat by (pose proof (len_nonneg bs); lia).
    rewrite drop_ge, take_nil in Hat by lia. congruence. }
  assert (Hscan : utils.grep (literal bs) page_data
                  = [re.mkMatch page_data (place, place + len bs) ∅]).
  { unfold utils.grep, re.finditer.
    rewrite (scan_literal_one bs page_data Hbs (take (Z.to_nat place) page_data)).
    - rewrite length_take, Nat.min_l by lia. rewrite Z2Nat.id by lia.
      reflexivity.
    - lia.
    - rewrite length_take, Nat.min_l by lia.
      apply starts_slice. rewrite Z2Nat.id by lia. exact Hat.
    - rewrite length_take. lia.
    - intros k Hk E. apply starts_slice in E.
      apply Huniq in E; [|lia]. rewrite length_take, Nat.min_l by lia. lia. }
  unfold patch.find_offset.
  destruct bs as [|b bs]; [contradiction|].
  cbn [literal map]. fold (literal bs).
  change (re.Atom (re.Char (re.Lit b)) :: literal bs) with (literal (b :: bs)).
  rewrite Hscan. reflexivity.
Qed.

Lemma find_offset_literal_unique_witness :
  patch.find_offset (le.b "xxabyy") (literal (le.b "ab")) 5 "label" = Ok (2 + 5).
Proof.
  apply (find_offset_literal_unique (le.b "xxabyy") (le.b "ab") 2 5 "label").
  - discriminate.
  - lia.
  - reflexivity.
  - intros j Hj H.
    destruct (Z.le_gt_cases 6 j) as [Hge|Hlt].
    + exfalso. change (len (le.b "ab")) with 2 in H.
      rewrite slice_nonneg in H by lia.
      rewrite drop_ge in H by (change (length (le.b "xxabyy")) with 6%nat; lia).
      rewrite take_nil in H. vm_compute in H. discriminate.
    + assert (Hc : j = 0 \/ j = 1 \/ j = 2 \/ j = 3 \/ j = 4 \/ j = 5) by lia.
      destruct Hc as [->|[->|[->|[->|[->| ->]]]]];
        try reflexivity; vm_compute in H; discriminate.
Defined.
